(** * plateforme_lidar: refraction correction, feature normalisation,
      KML export and reverse tiling ([plateforme_lidar/calculs.py])

    The development embeds the functions of [calculs.py] as Rocq functions
    and proves the properties of the written specification about them.

    Numbers.  A numpy float is modelled by [npfloat]: a finite value carried
    by a real number, the two infinities and NaN.  The special values follow
    IEEE-754 as numpy exposes them (a division [0/0] is NaN, [x/0] is an
    infinity, NaN is absorbing, no exception is raised); finite values are
    computed in exact real arithmetic, so rounding, overflow and the sign of
    zero are outside the model.

    Effects.  Python exceptions are values of [exn]; a function that can
    raise returns a [result]; the functions of the class [ReverseTiling_mem]
    and [writeKML] run in a state-and-exception monad over the file system,
    the standard output and the log of external commands. *)

From Stdlib Require Import Reals Lra List String Ascii Bool Arith NArith ZArith Lia.
From Stdlib Require Import DecimalString Sorted.
Import ListNotations.

Set Implicit Arguments.

(* ===================================================================== *)
(** ** Python exceptions and results *)

Module Py.

Inductive exn : Type :=
| ValueError (msg : string)
| IndexError (msg : string)
| KeyError (msg : string)
| AttributeError (name : string)
| UnboundLocalError (name : string)
| OSError (msg : string)
| ToolFailure (command : string).

Inductive result (A : Type) : Type :=
| Ok (a : A)
| Raise (e : exn).

Arguments Ok {A} a.
Arguments Raise {A} e.

Definition bind {A B} (m : result A) (k : A -> result B) : result B :=
  match m with
  | Ok a => k a
  | Raise e => Raise e
  end.

Definition is_ok {A} (m : result A) : bool :=
  match m with Ok _ => true | Raise _ => false end.

(** Effectful code: a computation over a state [S] that returns a value
    or raises; the effects made before an exception stay in the state. *)
Definition M (S A : Type) : Type := S -> result A * S.

Definition ret {S A} (a : A) : M S A := fun s => (Ok a, s).

Definition raise {S A} (e : exn) : M S A := fun s => (Raise e, s).

Definition bindM {S A B} (m : M S A) (k : A -> M S B) : M S B :=
  fun s =>
    match m s with
    | (Ok a, s') => k a s'
    | (Raise e, s') => (Raise e, s')
    end.

Definition lift {S A} (r : result A) : M S A := fun s => (r, s).

Definition modify {S} (f : S -> S) : M S unit := fun s => (Ok tt, f s).

(** [for x in l: body(x)] *)
Fixpoint for_each {S A} (l : list A) (body : A -> M S unit) : M S unit :=
  match l with
  | [] => ret tt
  | x :: l' => bindM (body x) (fun _ => for_each l' body)
  end.

(** A loop that updates a local object [acc] at every item. *)
Fixpoint for_fold {S A B} (l : list A) (acc : B) (body : A -> B -> M S B) : M S B :=
  match l with
  | [] => ret acc
  | x :: l' => bindM (body x acc) (fun acc' => for_fold l' acc' body)
  end.

(** [l[i]] on a list. *)
Definition getitem {A} (l : list A) (i : nat) : result A :=
  match nth_error l i with
  | Some a => Ok a
  | None => Raise (IndexError "list index out of range")
  end.

(** [l.index(x)]: the position of the first item equal to [x]. *)
Fixpoint index (x : string) (l : list string) : result nat :=
  match l with
  | [] => Raise (ValueError "x is not in list")
  | y :: l' =>
      if String.eqb y x then Ok O
      else match index x l' with
           | Ok n => Ok (S n)
           | Raise e => Raise e
           end
  end.

(** [s[0:-k]] for a positive [k]: the string without its last [k]
    characters (empty when it has no more than [k]). *)
Definition drop_last (k : nat) (s : string) : string :=
  substring 0 (String.length s - k) s.

(** ["0"*n]; a negative count gives the empty string. *)
Definition zeros (n : Z) : string :=
  string_of_list_ascii (repeat "0"%char (Z.to_nat n)).

(** [str(n)] for an integer. *)
Definition str_N (n : N) : string := NilZero.string_of_uint (N.to_uint n).
Definition str_Z (z : Z) : string := NilZero.string_of_int (Z.to_int z).

(** [s.split(sep='XX')]: the pieces between the successive occurrences of
    ["XX"], read from the left. [cur] holds the piece being read. *)
Fixpoint split_XX_from (cur : string) (s : string) : list string :=
  match s with
  | String "X" (String "X" rest) => cur :: split_XX_from EmptyString rest
  | String c rest => split_XX_from (cur ++ String c EmptyString) rest
  | EmptyString => [cur]
  end.

Definition split_XX (s : string) : list string := split_XX_from EmptyString s.

(** [os.path.split(p)[1]]: what follows the last ["/"]. *)
Fixpoint basename_from (cur : string) (p : string) : string :=
  match p with
  | String "/" rest => basename_from EmptyString rest
  | String c rest => basename_from (cur ++ String c EmptyString) rest
  | EmptyString => cur
  end.

Definition basename (p : string) : string := basename_from EmptyString p.

End Py.

Import Py.

Declare Scope result_scope.
Delimit Scope result_scope with result.
Notation "x <~ m ;; k" := (Py.bind m (fun x => k))
(at level 61, m at next level, right associativity) : result_scope.

Declare Scope py_scope.
Delimit Scope py_scope with py.
Notation "x <- m ;; k" := (Py.bindM m (fun x => k))
(at level 61, m at next level, right associativity) : py_scope.
Notation "m ;; k" := (Py.bindM m (fun _ => k))
(at level 61, right associativity) : py_scope.

(* ===================================================================== *)
(** ** numpy floats and one-dimensional arrays *)

Module Np.

Local Open Scope R_scope.

Inductive npfloat : Type :=
| Fin (r : R)
| PInf
| NInf
| NaN.

Definition inf_of (positive : bool) : npfloat :=
  if positive then PInf else NInf.

Definition Rpos (r : R) : bool := if Rlt_dec 0 r then true else false.
Definition Rzero (r : R) : bool := if Req_dec_T r 0 then true else false.

Definition isnan (x : npfloat) : bool :=
  match x with NaN => true | _ => false end.

Definition isfinite (x : npfloat) : bool :=
  match x with Fin _ => true | _ => false end.

Definition neg (x : npfloat) : npfloat :=
  match x with
  | Fin a => Fin (- a)
  | PInf => NInf
  | NInf => PInf
  | NaN => NaN
  end.

Definition add (x y : npfloat) : npfloat :=
  match x, y with
  | NaN, _ | _, NaN => NaN
  | Fin a, Fin b => Fin (a + b)
  | PInf, NInf | NInf, PInf => NaN
  | PInf, _ | _, PInf => PInf
  | NInf, _ | _, NInf => NInf
  end.

Definition sub (x y : npfloat) : npfloat := add x (neg y).

Definition mul (x y : npfloat) : npfloat :=
  match x, y with
  | NaN, _ | _, NaN => NaN
  | Fin a, Fin b => Fin (a * b)
  | Fin a, PInf | PInf, Fin a => if Rzero a then NaN else inf_of (Rpos a)
  | Fin a, NInf | NInf, Fin a => if Rzero a then NaN else inf_of (negb (Rpos a))
  | PInf, PInf | NInf, NInf => PInf
  | PInf, NInf | NInf, PInf => NInf
  end.

Definition div (x y : npfloat) : npfloat :=
  match x, y with
  | NaN, _ | _, NaN => NaN
  | Fin a, Fin b =>
      if Rzero b then (if Rzero a then NaN else inf_of (Rpos a))
      else Fin (a / b)
  | Fin _, PInf | Fin _, NInf => Fin 0
  | PInf, Fin b => inf_of (negb (Rpos (- b)))
  | NInf, Fin b => inf_of (Rpos (- b))
  | _, _ => NaN
  end.

Definition sqrt (x : npfloat) : npfloat :=
  match x with
  | Fin a => if Rlt_dec a 0 then NaN else Fin (R_sqrt.sqrt a)
  | PInf => PInf
  | _ => NaN
  end.

Definition sin (x : npfloat) : npfloat :=
  match x with Fin a => Fin (Rtrigo_def.sin a) | _ => NaN end.

Definition cos (x : npfloat) : npfloat :=
  match x with Fin a => Fin (Rtrigo_def.cos a) | _ => NaN end.

(** The tangent is the quotient of sine and cosine, so that a pole of the
    exact tangent is an infinity as for any division by zero. *)
Definition tan (x : npfloat) : npfloat := div (sin x) (cos x).

Definition arctan (x : npfloat) : npfloat :=
  match x with
  | Fin a => Fin (atan a)
  | PInf => Fin (PI / 2)
  | NInf => Fin (- (PI / 2))
  | NaN => NaN
  end.

Definition in_unit (a : R) : bool :=
  if Rle_dec (-1) a then (if Rle_dec a 1 then true else false) else false.

Definition arccos (x : npfloat) : npfloat :=
  match x with
  | Fin a => if in_unit a then Fin (acos a) else NaN
  | _ => NaN
  end.

Definition arcsin (x : npfloat) : npfloat :=
  match x with
  | Fin a => if in_unit a then Fin (asin a) else NaN
  | _ => NaN
  end.

(** A one-dimensional array. *)
Definition array := list npfloat.

Fixpoint zipWith {A B C} (f : A -> B -> C) (xs : list A) (ys : list B) : list C :=
  match xs, ys with
  | x :: xs', y :: ys' => f x y :: zipWith f xs' ys'
  | _, _ => []
  end.

Definition broadcast_error : exn :=
  ValueError "operands could not be broadcast together".

(** An elementwise binary operation on the first axis, with numpy's
    broadcasting: equal lengths pair up, a length of one is stretched,
    anything else raises. *)
Definition bcast {A B C} (f : A -> B -> C) (xs : list A) (ys : list B)
  : result (list C) :=
  if Nat.eqb (List.length xs) (List.length ys) then Ok (zipWith f xs ys)
  else match xs, ys with
       | [x], _ => Ok (map (f x) ys)
       | _, [y] => Ok (map (fun x => f x y) xs)
       | _, _ => Raise broadcast_error
       end.

(** A row of an [N x 3] array. *)
Record vec3 : Type := V3 { c0 : npfloat; c1 : npfloat; c2 : npfloat }.

Definition vsub (p q : vec3) : vec3 :=
  V3 (sub (c0 p) (c0 q)) (sub (c1 p) (c1 q)) (sub (c2 p) (c2 q)).

(** [np.linalg.norm(v, axis=1)] and [np.linalg.norm(v[:,0:2], axis=1)],
    for one row. *)
Definition norm3 (v : vec3) : npfloat :=
  sqrt (add (add (mul (c0 v) (c0 v)) (mul (c1 v) (c1 v))) (mul (c2 v) (c2 v))).

Definition norm2 (v : vec3) : npfloat :=
  sqrt (add (mul (c0 v) (c0 v)) (mul (c1 v) (c1 v))).

(** [np.transpose(np.vstack([r0, r1, r2]))]: the three rows must have the
    same length. *)
Fixpoint zip3 (r0 r1 r2 : array) : list vec3 :=
  match r0, r1, r2 with
  | a :: r0', b :: r1', c :: r2' => V3 a b c :: zip3 r0' r1' r2'
  | _, _, _ => []
  end.

Definition vstack3T (r0 r1 r2 : array) : result (list vec3) :=
  if Nat.eqb (List.length r0) (List.length r1) && Nat.eqb (List.length r1) (List.length r2)
  then Ok (zip3 r0 r1 r2)
  else Raise (ValueError "all the input array dimensions except for the concatenation axis must match exactly").

End Np.

(* ===================================================================== *)
(** ** Refraction correction: [correction3D] and [correction_vect] *)

Module Refraction.

Import Np.
Local Open Scope result_scope.

Definition invalid_input : exn :=
  ValueError "pt_shot and vectorApp shouldn't be Null both".

(** [2*np.arctan(v[:,0]/(np.linalg.norm(v[:,0:2],axis=1)+v[:,1]))] *)
Definition gisement (vect : list vec3) : result array :=
  den <~ bcast add (map norm2 vect) (map c1 vect) ;;
  quo <~ bcast div (map c0 vect) den ;;
  Ok (map (mul (Fin 2)) (map arctan quo)).

(** [np.arccos(v[:,2]/vectApp_norm)] *)
Definition incidence (vect : list vec3) (vect_norm : array) : result array :=
  quo <~ bcast div (map c2 vect) vect_norm ;;
  Ok (map arccos quo).

(** [np.arcsin(np.sin(thetaApp)/indRefr)] *)
Definition snell (thetaApp : array) (indRefr : npfloat) : array :=
  map arcsin (map (fun s => div s indRefr) (map sin thetaApp)).

(** The choice of the mode, lines 34 to 41 of [correction3D]. *)
Definition shot_vectors (pt_app pt_shot vectorApp : list vec3) : result (list vec3) :=
  if (0 <? List.length pt_shot)%nat && (List.length vectorApp =? 0)%nat
  then bcast vsub pt_shot pt_app
  else if (List.length pt_shot =? 0)%nat && (0 <? List.length vectorApp)%nat
  then Ok vectorApp
  else Raise invalid_input.

Definition correction3D (pt_app : list vec3) (depthApp : array)
    (pt_shot vectorApp : list vec3) (indRefr : npfloat)
  : result (list vec3 * array) :=
  vectApp <~ shot_vectors pt_app pt_shot vectorApp ;;
  let vectApp_norm := map norm3 vectApp in
  gisement_vect <~ gisement vectApp ;;
  thetaApp <~ incidence vectApp vectApp_norm ;;
  let thetaTrue := snell thetaApp indRefr in
  num <~ bcast mul depthApp (map cos thetaApp) ;;
  depthTrue <~ bcast div num (map (mul indRefr) (map cos thetaTrue)) ;;
  da <~ bcast mul depthApp (map tan thetaApp) ;;
  dt <~ bcast mul depthTrue (map tan thetaTrue) ;;
  distPlan <~ bcast sub da dt ;;
  sx <~ bcast mul distPlan (map sin gisement_vect) ;;
  row0 <~ bcast add (map c0 pt_app) sx ;;
  sy <~ bcast mul distPlan (map cos gisement_vect) ;;
  row1 <~ bcast add (map c1 pt_app) sy ;;
  zt <~ bcast add (map c2 pt_app) depthTrue ;;
  row2 <~ bcast sub zt depthApp ;;
  coords <~ vstack3T row0 row1 row2 ;;
  Ok (coords, depthTrue).

Definition correction_vect (vectorApp : list vec3) (indRefr : npfloat)
  : result (list vec3) :=
  let vectApp_norm := map norm3 vectorApp in
  let vectTrue_norm := map (fun n => div n indRefr) vectApp_norm in
  gisement_vect <~ gisement vectorApp ;;
  thetaApp <~ incidence vectorApp vectApp_norm ;;
  let thetaTrue := snell thetaApp indRefr in
  ns <~ bcast mul vectTrue_norm (map sin thetaTrue) ;;
  row0 <~ bcast mul ns (map sin gisement_vect) ;;
  ns' <~ bcast mul vectTrue_norm (map sin thetaTrue) ;;
  row1 <~ bcast mul ns' (map cos gisement_vect) ;;
  row2 <~ bcast mul vectTrue_norm (map cos thetaTrue) ;;
  vstack3T row0 row1 row2.

(** *** The per-point formulas, as the specification words them *)

Definition spec_bearing (v : vec3) : npfloat :=
  mul (Fin 2) (arctan (div (c0 v) (add (norm2 v) (c1 v)))).

Definition spec_theta_app (v : vec3) : npfloat :=
  arccos (div (c2 v) (norm3 v)).

Definition spec_theta_true (n : npfloat) (v : vec3) : npfloat :=
  arcsin (div (sin (spec_theta_app v)) n).

Definition spec_depth_true (n d : npfloat) (v : vec3) : npfloat :=
  div (mul d (cos (spec_theta_app v))) (mul n (cos (spec_theta_true n v))).

Definition spec_displacement (n d : npfloat) (v : vec3) : npfloat :=
  sub (mul d (tan (spec_theta_app v)))
      (mul (spec_depth_true n d v) (tan (spec_theta_true n v))).

Definition spec_true_point (n : npfloat) (p : vec3) (d : npfloat) (v : vec3) : vec3 :=
  V3 (add (c0 p) (mul (spec_displacement n d v) (sin (spec_bearing v))))
     (add (c1 p) (mul (spec_displacement n d v) (cos (spec_bearing v))))
     (add (c2 p) (sub (spec_depth_true n d v) d)).

Definition spec_true_vector (n : npfloat) (v : vec3) : vec3 :=
  let m := div (norm3 v) n in
  V3 (mul (mul m (sin (spec_theta_true n v))) (sin (spec_bearing v)))
     (mul (mul m (sin (spec_theta_true n v))) (cos (spec_bearing v)))
     (mul m (cos (spec_theta_true n v))).

(** A computation that may raise, but never the [ValueError] of the input
    contract. *)
Definition shape_errors_only {A} (m : result A) : Prop :=
  forall e, m = Raise e -> e <> invalid_input.

(** A vector with finite components that points upwards, off the vertical
    and off the negative [y] half-axis: its third component is positive and
    the denominator of the bearing is not zero. *)
Definition upward_shot (v : vec3) : Prop :=
  exists x y z : R,
    v = V3 (Fin x) (Fin y) (Fin z)
    /\ (0 < z)%R /\ (R_sqrt.sqrt (x * x + y * y) + y <> 0)%R.


(** An apparent point with finite coordinates and a finite depth. *)
Definition finite_point (p : vec3) (d : npfloat) : Prop :=
  exists a b c dd : R, p = V3 (Fin a) (Fin b) (Fin c) /\ d = Fin dd.

(** One measurement of a batch: the apparent point, its apparent depth and
    the shot datum (the shot origin in discrete mode, the apparent vector
    in full-waveform mode). *)
Record shot : Type := Shot { s_app : vec3; s_depth : npfloat; s_datum : vec3 }.

(** The vertical shot. *)
Definition vertical : vec3 := V3 (Fin 0) (Fin 0) (Fin 1).

(** A shot along the positive [y] axis, tilted upwards. *)
Definition tilted : vec3 := V3 (Fin 0) (Fin 1) (Fin 1).

Definition origin : vec3 := V3 (Fin 0) (Fin 0) (Fin 0).

(** A shot along the positive [y] axis, tilted downwards. *)
Definition downward : vec3 := V3 (Fin 0) (Fin 1) (Fin (-1)).

End Refraction.

(* ===================================================================== *)
(** ** Feature normalisation: [featureNorm] *)

Module Features.

Import Np.
Local Open Scope result_scope.

(** The comparison [x < y] of two floats; false as soon as one is NaN. *)
Definition ltb (x y : npfloat) : bool :=
  match x, y with
  | Fin a, Fin b => if Rlt_dec a b then true else false
  | NInf, Fin _ | NInf, PInf | Fin _, PInf => true
  | _, _ => false
  end.

(** Python's builtin [min] and [max] over a sequence: the first item, then
    every later item that compares strictly below (above) the current
    one replaces it. *)
Fixpoint min_from (cur : npfloat) (l : array) : npfloat :=
  match l with
  | [] => cur
  | x :: l' => min_from (if ltb x cur then x else cur) l'
  end.

Fixpoint max_from (cur : npfloat) (l : array) : npfloat :=
  match l with
  | [] => cur
  | x :: l' => max_from (if ltb cur x then x else cur) l'
  end.

Definition py_min (l : array) : result npfloat :=
  match l with
  | [] => Raise (ValueError "min() arg is an empty sequence")
  | x :: l' => Ok (min_from x l')
  end.

Definition py_max (l : array) : result npfloat :=
  match l with
  | [] => Raise (ValueError "max() arg is an empty sequence")
  | x :: l' => Ok (max_from x l')
  end.

(** [(x-mini)/(maxi-mini)*100] *)
Definition rescale (mini maxi x : npfloat) : npfloat :=
  mul (div (sub x mini) (sub maxi mini)) (Fin 100).

(** [newcol[np.isnan(newcol)]=-1], for one item. *)
Definition nan_to_minus_one (x : npfloat) : npfloat :=
  if isnan x then Fin (-1) else x.

(** The body of the loop of [featureNorm] for one column. *)
Definition norm_column (col : array) : result array :=
  if forallb isnan col then Ok (map (fun _ => Fin (-1)) col)
  else
    mini <~ py_min (filter isfinite col) ;;
    maxi <~ py_max (filter isfinite col) ;;
    let newcol := map (rescale mini maxi) col in
    Ok (map nan_to_minus_one newcol).

(** A two-dimensional array, as the list of its rows. *)
Definition matrix := list (list npfloat).

Definition rectangular (ncols : nat) (m : matrix) : Prop :=
  Forall (fun row => List.length row = ncols) m.

(** [dataset[:,i]] *)
Definition get_col (i : nat) (m : matrix) : array :=
  map (fun row => nth i row NaN) m.

Fixpoint set_nth (i : nat) (v : npfloat) (row : list npfloat) : list npfloat :=
  match row, i with
  | [], _ => []
  | _ :: row', O => v :: row'
  | x :: row', S i' => x :: set_nth i' v row'
  end.

(** [dataset[:,i]=newcol] *)
Definition set_col (i : nat) (newcol : array) (m : matrix) : matrix :=
  zipWith (fun row v => set_nth i v row) m newcol.

Fixpoint featureNorm_loop (cols : list nat) (dataset : matrix) : result matrix :=
  match cols with
  | [] => Ok dataset
  | i :: rest =>
      newcol <~ norm_column (get_col i dataset) ;;
      featureNorm_loop rest (set_col i newcol dataset)
  end.

Definition featureNorm (dataset : matrix) : result matrix :=
  match dataset with
  | [] => Raise (IndexError "index 0 is out of bounds for axis 0 with size 0")
  | row0 :: _ => featureNorm_loop (seq 0 (List.length row0)) dataset
  end.

(** A dataset of three rows: a constant column, a column of NaN and a
    column that spans [1, 3]. *)
Definition sample : matrix :=
  [ [Fin 5; NaN; Fin 1];
    [Fin 5; NaN; Fin 3];
    [Fin 5; NaN; Fin 2] ].

End Features.

(* ===================================================================== *)
(** ** KML export: [writeKML] *)

Module Kml.

Local Open Scope py_scope.
Local Open Scope string_scope.

Section WithCoord.

(** The type of one coordinate tuple. *)
Variable Coord : Type.

(** A point of a [simplekml.Kml] document, as [newpoint] records it. *)
Record placemark : Type :=
  Placemark { pm_name : string; pm_description : string; pm_coords : list Coord }.

(** The files saved so far, and what was printed. *)
Record world : Type :=
  World { disk : list (string * list placemark); stdout : list string }.

Definition print (line : string) : M world unit :=
  modify (fun w => World (disk w) (stdout w ++ [line])).

(** [fichier.save(filepath)] *)
Definition save (filepath : string) (doc : list placemark) : M world unit :=
  modify (fun w => World ((filepath, doc) :: disk w) (stdout w)).

Definition size_message : string :=
  "Taille différente pour names, description et coords !!".

(** The body of the loop of [writeKML]:
    [fichier.newpoint(name=i, description=descriptions[names.index(i)],
                      coords=[coordinates[names.index(i)]])] *)
Definition loop_body (names descriptions : list string) (coordinates : list Coord)
    (i : string) (fichier : list placemark) : M world (list placemark) :=
  k <- lift (index i names) ;;
  d <- lift (getitem descriptions k) ;;
  k' <- lift (index i names) ;;
  c <- lift (getitem coordinates k') ;;
  ret (fichier ++ [Placemark i d [c]])%list.

Definition writeKML (filepath : string) (names descriptions : list string)
    (coordinates : list Coord) : M world bool :=
  (* try: assert(...)   except: print(...) *)
  (if (List.length names =? List.length descriptions)%nat
      && (List.length names =? List.length coordinates)%nat
      && (List.length descriptions =? List.length coordinates)%nat
   then ret tt
   else print size_message) ;;
  fichier <- for_fold names [] (loop_body names descriptions coordinates) ;;
  save filepath fichier ;;
  ret true.

End WithCoord.

Arguments World {Coord} disk stdout.
Arguments Placemark {Coord} pm_name pm_description pm_coords.

End Kml.

(* ===================================================================== *)
(** ** Reverse tiling: the class [ReverseTiling_mem] *)

Module Tiling.

Local Open Scope py_scope.
Local Open Scope string_scope.

(** [self.linesDict]: a Python dict from point source identifier to file
    names; the keys are kept in insertion order. *)
Definition dict : Type := list (N * list string).

(** The attributes of an instance.  [linesDict] does not exist before
    [searchingLines] has run. *)
Record object : Type :=
  Object { workspace : string; cores : Z; motif : list string;
           linesDict : option dict }.

(** The collaborators that are not part of [calculs.py]: the file system
    behind [glob] and [os], the reader [pylas.read] and the external
    command line tools. *)
Class System (FS : Type) : Type := {
  (** [glob.glob(pattern)] *)
  sys_glob : string -> FS -> list string;
  (** [pylas.read(path).pt_src_id] *)
  sys_pt_src_id : string -> FS -> result (list N);
  (** [os.rename(src, dst)] *)
  sys_rename : string -> string -> FS -> result FS;
  (** [os.remove(path)] *)
  sys_remove : string -> FS -> result FS;
  (** [os.rmdir(path)] *)
  sys_rmdir : string -> FS -> result FS;
  (** what a command line does to the files, or how it fails *)
  sys_tool : string -> FS -> result FS
}.

(** [np.unique]: the distinct values in increasing order. *)
Fixpoint insert_unique (x : N) (l : list N) : list N :=
  match l with
  | [] => [x]
  | y :: l' =>
      if (x <? y)%N then x :: l
      else if (x =? y)%N then l
      else y :: insert_unique x l'
  end.

Definition unique (l : list N) : list N := fold_right insert_unique [] l.

(** [if c not in d.keys(): d[c]=[name] else: d[c]+=[name]] *)
Fixpoint dict_add (c : N) (name : string) (d : dict) : dict :=
  match d with
  | [] => [(c, [name])]
  | (k, v) :: d' =>
      if (k =? c)%N then (k, (v ++ [name])%list) :: d'
      else (k, v) :: dict_add c name d'
  end.

(** [d[key]] *)
Fixpoint dict_get (key : N) (d : dict) : result (list string) :=
  match d with
  | [] => Raise (KeyError (str_N key))
  | (k, v) :: d' => if (k =? key)%N then Ok v else dict_get key d'
  end.

Definition keys (d : dict) : list N := map fst d.

(** Python's builtin [max] over the keys. *)
Definition py_max (l : list N) : result N :=
  match l with
  | [] => Raise (ValueError "max() arg is an empty sequence")
  | x :: l' => Ok (fold_left (fun cur y => if (cur <? y)%N then y else cur) l' x)
  end.

(** The dictionary built by the two nested loops of [searchingLines]. *)
Definition build_linesDict (res : list (string * list N)) : dict :=
  fold_left
    (fun d i => fold_left (fun d' c => dict_add c (fst i) d') (snd i) d)
    res [].

(** The name of the merged file, as [_mergeLines] computes it. *)
Definition output_name (motif : list string) (key : N) (maxLen : nat)
  : result string :=
  let keyStr := str_N key in
  let diff := (Z.of_nat maxLen - Z.of_nat (String.length keyStr))%Z in
  (m0 <~ getitem motif 0 ;;
   m1 <~ getitem motif 1 ;;
   Ok (m0 ++ zeros diff ++ drop_last 2 keyStr ++ m1))%result.

(** The command line of [removeBuffer]. *)
Definition lastile_query (o : object) : string :=
  "lastile -i " ++ workspace o ++ "*.laz -remove_buffer -cores "
    ++ str_Z (cores o) ++ " -olaz".

(** The command line of [_mergeLines] up to the output option. *)
Definition merge_inputs (ws : string) (files : list string) : string :=
  fold_left (fun query filename => query ++ ws ++ filename ++ " ") files
            "lasmerge -i ".

Section WithSystem.

Context {FS : Type} {sys : System FS}.

(** The files, the command lines handed to [utils.Run] so far, and what
    was printed. *)
Record world : Type :=
  World { fs : FS; commands : list string; stdout : list string }.

Definition state : Type := (object * world)%type.

Definition self : M state object := fun st => (Ok (fst st), st).

Definition set_linesDict (d : dict) : M state unit :=
  modify (fun st : state =>
    let (o, w) := st in (Object (workspace o) (cores o) (motif o) (Some d), w)).

Definition get_linesDict : M state dict :=
  o <- self ;;
  match linesDict o with
  | Some d => ret d
  | None => raise (AttributeError "linesDict")
  end.

(** [print(text, end=e)] *)
Definition print (text e : string) : M state unit :=
  modify (fun st : state =>
    let (o, w) := st in (o, World (fs w) (commands w) (stdout w ++ [text ++ e]))).

Definition newline : string := String (ascii_of_nat 10) EmptyString.

(** An operation of the system on the files. *)
Definition on_fs (op : FS -> result FS) : M state unit :=
  fun st =>
    let (o, w) := st in
    match op (fs w) with
    | Ok fs' => (Ok tt, (o, World fs' (commands w) (stdout w)))
    | Raise e => (Raise e, st)
    end.

(** Modelled from the spec: [utils.Run], of the module [utils] that is
    not among the sources: a blocking call of the external command line
    tool, whose failure is raised to the caller.  The command line is
    logged when the call is made. *)
Definition Run (query : string) : M state unit :=
  modify (fun st : state =>
    let (o, w) := st in (o, World (fs w) (commands w ++ [query]) (stdout w))) ;;
  on_fs (sys_tool query).

Definition glob (pattern : string) : M state (list string) :=
  fun st => (Ok (sys_glob pattern (fs (snd st))), st).

(** Reading a name of the function's own frame that has no value yet. *)
Definition read_local (name : string) (v : option string) : M state string :=
  match v with
  | Some s => ret s
  | None => raise (UnboundLocalError name)
  end.

Definition _get_ptSrcId (filename : string) : M state (string * list N) :=
  o <- self ;;
  fun st =>
    match sys_pt_src_id (workspace o ++ filename) (fs (snd st)) with
    | Ok ids => (Ok (filename, unique ids), st)
    | Raise e => (Raise e, st)
    end.

Definition _mergeLines (key : N) (maxLen : nat) : M state unit :=
  o <- self ;;
  d <- get_linesDict ;;
  files <- lift (dict_get key d) ;;
  let query := merge_inputs (workspace o) files in
  name <- lift (output_name (motif o) key maxLen) ;;
  Run (query ++ "-keep_point_source " ++ str_N key ++ " -o " ++ workspace o ++ name).

(** In the body of [removeBuffer] the name [workspace] is assigned (by
    [workspace+=...]), so it is a name of the function's own frame, and
    it has no value when [glob.glob(workspace+...)] reads it. *)
Definition removeBuffer : M state unit :=
  o <- self ;;
  let workspace_local : option string := None in
  Run (lastile_query o) ;;
  ws <- read_local "workspace" workspace_local ;;
  paths <- glob (ws ++ "*_1.laz") ;;
  for_each paths
    (fun filepath =>
       let nom := basename filepath in
       ws1 <- read_local "workspace" workspace_local ;;
       on_fs (sys_rename (ws1 ++ nom) (ws1 ++ "new_tile/" ++ nom))) ;;
  ws2 <- read_local "workspace" workspace_local ;;
  let workspace_local' : option string := Some (ws2 ++ "new_tile/") in
  ret tt.

(** [Parallel(n_jobs=...)(delayed(f)(i) for i in l)]: the results come
    back in the order of [l]. *)
Fixpoint parallel_map (l : list string) : M state (list (string * list N)) :=
  match l with
  | [] => ret []
  | i :: l' =>
      r <- _get_ptSrcId i ;;
      rs <- parallel_map l' ;;
      ret (r :: rs)
  end.

Definition searchingLines : M state unit :=
  o <- self ;;
  paths <- glob (workspace o ++ "*.laz") ;;
  let listNames := map basename paths in
  res <- parallel_map listNames ;;
  set_linesDict (build_linesDict res).

Definition writingLines (buffer : bool) : M state unit :=
  d <- get_linesDict ;;
  m <- lift (py_max (keys d)) ;;
  let maxPtSrcId := String.length (str_N m) in
  for_each (keys d)
    (fun i => print (str_N i) newline ;; _mergeLines i maxPtSrcId) ;;
  if buffer then
    o <- self ;;
    m0 <- lift (getitem (motif o) 0) ;;
    paths <- glob (workspace o ++ m0) ;;
    let listNames := map basename paths in
    for_each listNames
      (fun filename =>
         on_fs (sys_rename (workspace o ++ filename)
                           (drop_last 9 (workspace o) ++ filename))) ;;
    paths' <- glob (workspace o ++ "*_1.laz") ;;
    for_each paths' (fun filepath => on_fs (sys_remove filepath)) ;;
    on_fs (sys_rmdir (workspace o))
  else ret tt.

(** [ReverseTiling_mem.__init__] *)
Definition init_body (buffer : bool) : M state unit :=
  print "Remove buffer..." " " ;;
  (if buffer then removeBuffer else ret tt) ;;
  print "done !" newline ;;
  print "Searching flightlines..." " " ;;
  searchingLines ;;
  print "done !" newline ;;
  print "Writing flightlines..." EmptyString ;;
  writingLines buffer ;;
  print "done !" newline.

Definition init (ws fileroot : string) (buffer : bool) (ncores : Z)
  : M world object :=
  fun w =>
    let w0 := World (fs w) (commands w)
                    (stdout w ++ ["[Reverse Tiling memory friendly]" ++ newline]) in
    match init_body buffer (Object ws ncores (split_XX fileroot) None, w0) with
    | (Ok _, (o, w')) => (Ok o, w')
    | (Raise e, (_, w')) => (Raise e, w')
    end.

End WithSystem.

Arguments world FS : clear implicits.
Arguments state FS : clear implicits.

(** *** A concrete system: a flat list of files

    Each file is a path with the point source identifiers of its points.
    [*] in a pattern stands for any run of characters other than ["/"];
    the tools leave the files as they are. *)

Definition flat : Type := list (string * list N).

Fixpoint wild_match (pat s : string) : bool :=
  match pat with
  | EmptyString => match s with EmptyString => true | _ => false end
  | String "*" pat' =>
      (fix star (t : string) : bool :=
         wild_match pat' t
         || match t with
            | String c t' => if Ascii.eqb c "/" then false else star t'
            | EmptyString => false
            end) s
  | String p pat' =>
      match s with
      | String c s' => Ascii.eqb p c && wild_match pat' s'
      | EmptyString => false
      end
  end.

Definition flat_lookup (path : string) (files : flat) : result (list N) :=
  match find (fun f => String.eqb (fst f) path) files with
  | Some f => Ok (snd f)
  | None => Raise (OSError "No such file or directory")
  end.

Definition flat_rename (src dst : string) (files : flat) : result flat :=
  match flat_lookup src files with
  | Ok _ => Ok (map (fun f => if String.eqb (fst f) src then (dst, snd f) else f) files)
  | Raise e => Raise e
  end.

Definition flat_remove (path : string) (files : flat) : result flat :=
  match flat_lookup path files with
  | Ok _ => Ok (filter (fun f => negb (String.eqb (fst f) path)) files)
  | Raise e => Raise e
  end.

(** Three tiles: [A] holds the identifiers 1 and 2, [B] holds 2 and 3,
    [C] holds 1. *)
Definition three_tiles : flat :=
  [ ("/d/A.laz", [1; 2; 2; 1]%N); ("/d/B.laz", [3; 2]%N); ("/d/C.laz", [1]%N) ].

#[global] Instance flat_system : System flat := {
  sys_glob pattern files := filter (wild_match pattern) (map fst files);
  sys_pt_src_id := flat_lookup;
  sys_rename := flat_rename;
  sys_remove := flat_remove;
  sys_rmdir _ files := Ok files;
  sys_tool _ files := Ok files
}.

End Tiling.

(* ===================================================================== *)
(** ** Reading a dictionary of lines *)

Module Lines.

Import Tiling.
Local Open Scope string_scope.

(** ["XX".join(pieces)] *)
Fixpoint join_XX (pieces : list string) : string :=
  match pieces with
  | [] => EmptyString
  | [x] => x
  | x :: rest => x ++ "XX" ++ join_XX rest
  end.

(** [c in ids] *)
Definition has_id (c : N) (ids : list N) : bool := existsb (N.eqb c) ids.

(** The names of the scanned files that hold the identifier [c], in the
    order of the scan. *)
Definition files_with (c : N) (res : list (string * list N)) : list string :=
  map fst (filter (fun r => has_id c (snd r)) res).

(** [d.get(c, [])] *)
Fixpoint entries (c : N) (d : dict) : list string :=
  match d with
  | [] => []
  | (k, v) :: d' => if (k =? c)%N then v else entries c d'
  end.

(** No key carries an empty list. *)
Definition full (d : dict) : Prop := Forall (fun kv => snd kv <> []) d.

(** The command line that [_mergeLines] hands to the tool for one entry of
    the dictionary. *)
Definition merge_command (ws m0 m1 : string) (maxLen : nat) (kv : N * list string)
  : string :=
  merge_inputs ws (snd kv) ++ "-keep_point_source " ++ str_N (fst kv) ++ " -o "
    ++ ws ++ (m0 ++ zeros (Z.of_nat maxLen - Z.of_nat (String.length (str_N (fst kv))))
                 ++ drop_last 2 (str_N (fst kv)) ++ m1).

(** A string without any ["/"]. *)
Definition no_slash (s : string) : Prop := ~ In "/"%char (list_ascii_of_string s).

End Lines.

(* ===================================================================== *)
(** ** The document of [writeKML] *)

Module KmlSpec.

Import Kml.

(** The points of the three arrays read side by side. *)
Fixpoint zip_points {Coord : Type} (names descriptions : list string)
    (coordinates : list Coord) : list (placemark Coord) :=
  match names, descriptions, coordinates with
  | i :: names', d :: descriptions', c :: coordinates' =>
      Placemark i d [c] :: zip_points names' descriptions' coordinates'
  | _, _, _ => []
  end.

(** The point of the name [i]: the description and the coordinates at the
    first position of [i] in [names]. *)
Definition first_occurrence {Coord : Type} (names descriptions : list string)
    (coordinates : list Coord) (i : string) (p : placemark Coord) : Prop :=
  exists (k : nat) (d : string) (c : Coord),
    index i names = Ok k
    /\ nth_error descriptions k = Some d
    /\ nth_error coordinates k = Some c
    /\ p = Placemark i d [c].

End KmlSpec.

(* ===================================================================== *)
(** ** Replacing NaN: [replace_nan] *)

Module Cleaning.

Import Np Features.

(** [l[i] = f(l[i])]; nothing happens out of range. *)
Fixpoint update {A : Type} (i : nat) (f : A -> A) (l : list A) : list A :=
  match l, i with
  | [], _ => []
  | x :: l', O => f x :: l'
  | x :: l', S i' => x :: update i' f l'
  end.

(** [tab[lig,col]=value] *)
Definition set_item (lig col : nat) (value : npfloat) (tab : matrix) : matrix :=
  update lig (set_nth col value) tab.

(** [temp[lig,col]] *)
Definition mask_item (temp : list (list bool)) (lig col : nat) : bool :=
  nth col (nth lig temp []) false.

(** The loop over the columns of the row [lig]. *)
Definition replace_row (temp : list (list bool)) (value : npfloat) (cols : list nat)
    (tab : matrix) (lig : nat) : matrix :=
  fold_left
    (fun t col => if mask_item temp lig col then set_item lig col value t else t)
    cols tab.

(** [replace_nan(tab, value)] on an array of [ncols] columns, given by its
    rows.  [tab[:,0]] raises when there is no column; [len(tab[0,:])] is
    read inside the loop over the rows only. *)
Definition replace_nan (ncols : nat) (tab : matrix) (value : npfloat) : result matrix :=
  let temp := map (map isnan) tab in
  if (ncols =? 0)%nat
  then Raise (IndexError "index 0 is out of bounds for axis 1 with size 0")
  else Ok (fold_left
             (fun t lig => replace_row temp value (seq 0 (List.length (nth 0 t []))) t lig)
             (seq 0 (List.length tab)) tab).

(** What becomes of one item. *)
Definition clean (value x : npfloat) : npfloat := if isnan x then value else x.

(** A matrix without NaN. *)
Definition nan_free (m : matrix) : Prop :=
  Forall (Forall (fun x => isnan x = false)) m.

(** A matrix whose items are finite or NaN. *)
Definition finite_or_nan (m : matrix) : Prop :=
  Forall (Forall (fun x => isfinite x = true \/ x = NaN)) m.

(** An item of the result of [featureNorm]: [-1], or a value from 0 to 100. *)
Definition normalised (x : npfloat) : Prop :=
  exists v : R, x = Fin v /\ (v = (-1)%R \/ (0 <= v <= 100)%R).

(** The exception of [min] on an empty sequence. *)
Definition min_error : exn := ValueError "min() arg is an empty sequence".

(** A small array with a NaN. *)
Definition holes : matrix := [ [Fin 1; NaN]; [NaN; Fin 4] ].

End Cleaning.

(* ===================================================================== *)
(** ** Merging the distances into the full-waveform table: [merge_c2c_fwf] *)

Module Merge.

Import Np Features.
Local Open Scope result_scope.

(** A two-dimensional array with its number of columns, which the rows do
    not tell when there is none. *)
Record table : Type := Table { width : nat; rows : matrix }.

Definition well_formed (t : table) : Prop := rectangular (width t) (rows t).

(** [tab[:,k]] *)
Definition column (k : nat) (t : table) : result array :=
  if (k <? width t)%nat then Ok (get_col k (rows t))
  else Raise (IndexError "index is out of bounds for axis 1").

(** [x**2] and [np.power(x,2)] *)
Definition square (x : npfloat) : npfloat := mul x x.

(** [np.sqrt((a[:,0]-b[:,0])**2+(a[:,1]-b[:,1])**2+(a[:,2]-b[:,2])**2)] *)
Definition controle (tab_fwf tab_extra : table) : result array :=
  f0 <~ column 0 tab_fwf ;; e0 <~ column 0 tab_extra ;;
  d0 <~ bcast sub f0 e0 ;;
  f1 <~ column 1 tab_fwf ;; e1 <~ column 1 tab_extra ;;
  d1 <~ bcast sub f1 e1 ;;
  s01 <~ bcast add (map square d0) (map square d1) ;;
  f2 <~ column 2 tab_fwf ;; e2 <~ column 2 tab_extra ;;
  d2 <~ bcast sub f2 e2 ;;
  s <~ bcast add s01 (map square d2) ;;
  Ok (map sqrt s).

Definition mismatch_error : exn :=
  ValueError ("LAS_FWF file and LAS file don't match exactly!"
              ++ String (ascii_of_nat 10) "Please check your files...").

(** The tolerance [0.003]. *)
Definition tolerance : npfloat := Fin (3 / 1000).

(** [l[0:-4]] *)
Definition but_last_four {A : Type} (l : list A) : list A :=
  firstn (List.length l - 4) l.

(** [np.hstack([a, b, c.reshape(n,1), d.reshape(n,1)])]: the blocks must
    have the same number of rows. *)
Fixpoint hstack4 (a b : matrix) (c d : array) : matrix :=
  match a, b, c, d with
  | ra :: a', rb :: b', x :: c', y :: d' =>
      (ra ++ rb ++ [x] ++ [y])%list :: hstack4 a' b' c' d'
  | _, _, _, _ => []
  end.

Definition hstack (a b : matrix) (c d : array) : result matrix :=
  if (List.length a =? List.length b)%nat && (List.length a =? List.length c)%nat
     && (List.length a =? List.length d)%nat
  then Ok (hstack4 a b c d)
  else Raise (ValueError "all the input array dimensions except for the concatenation axis must match exactly").

(** [merge_c2c_fwf], from the two tables and their column names as
    [lastools.readLAS] returns them; [vlrs] is handed over as it is. *)
Definition merge_c2c_fwf {V : Type} (tab_fwf : table) (names_fwf : list string) (vlrs : V)
    (tab_extra : table) (names_extra : list string)
  : result (table * list string * V) :=
  c <~ controle tab_fwf tab_extra ;;
  _ <~ (if forallb (fun x => ltb x tolerance) c then Ok tt else Raise mismatch_error) ;;
  kz <~ index "c2c_absolute_distances_(z)" names_extra ;;
  dist_Z <~ column kz tab_extra ;;
  kx <~ index "c2c_absolute_distances_(x)" names_extra ;;
  cx <~ column kx tab_extra ;;
  ky <~ index "c2c_absolute_distances_(y)" names_extra ;;
  cy <~ column ky tab_extra ;;
  sxy <~ bcast add (map square cx) (map square cy) ;;
  let dist_plani := map sqrt sxy in
  num <~ index "wave_packet_desc_index" names_fwf ;;
  body <~ hstack (map but_last_four (rows tab_extra)) (map (skipn num) (rows tab_fwf))
                 dist_Z dist_plani ;;
  let tab_tot := Table ((width tab_extra - 4) + (width tab_fwf - num) + 2) body in
  let names_tot := (but_last_four names_extra ++ skipn num names_fwf
                    ++ ["depth"; "distance_H"]%string)%list in
  Ok (tab_tot, names_tot, vlrs).

(** The distance between two points given by the first three items of
    their rows. *)
Definition point_distance (rf re : list npfloat) : npfloat :=
  sqrt (add (add (square (sub (nth 0 rf NaN) (nth 0 re NaN)))
                 (square (sub (nth 1 rf NaN) (nth 1 re NaN))))
            (square (sub (nth 2 rf NaN) (nth 2 re NaN)))).

End Merge.

(* ===================================================================== *)
(** ** Concrete inputs *)

Module Examples.

Import Np Features Tiling.
Local Open Scope string_scope.

(** A system like the flat one whose command line tool always fails. *)
Definition failing_system : System flat := {|
  sys_glob pattern files := filter (wild_match pattern) (map fst files);
  sys_pt_src_id := flat_lookup;
  sys_rename := flat_rename;
  sys_remove := flat_remove;
  sys_rmdir _ files := Ok files;
  sys_tool query _ := Raise (ToolFailure query)
|}.

(** The identifiers of a file of [three_tiles], by its name. *)
Definition tile_ids (name : string) : list N :=
  match flat_lookup ("/d/" ++ name) three_tiles with
  | Ok ids => ids
  | Raise _ => []
  end.

(** An object after the scan of one line. *)
Definition one_line : object :=
  Object "/d/" 50 ["tile_"; ".laz"] (Some [(7%N, ["fileX"; "fileY"])]).

(** The same with a template without placeholder. *)
Definition no_placeholder : object :=
  Object "/d/" 50 ["tile.laz"] (Some [(7%N, ["fileX"; "fileY"])]).

(** A workspace given without its final ["/"]. *)
Definition no_slash_object : object := Object "/d" 50 ["tile_"; ".laz"] None.

Definition no_slash_files : flat := [ ("/dA.laz", [1%N]) ].

(** A horizontal shot. *)
Definition horizontal : vec3 := V3 (Fin 0) (Fin 1) (Fin 0).

(** A column of infinities. *)
Definition infinite_column : matrix := [ [PInf]; [PInf] ].

(** Two tables of one point: the same point, and a point one unit away. *)
Definition fwf_names : list string := ["X"; "Y"; "Z"; "wave_packet_desc_index"].

Definition extra_names : list string :=
  ["X"; "Y"; "Z"; "c2c_absolute_distances";
   "c2c_absolute_distances_(x)"; "c2c_absolute_distances_(y)";
   "c2c_absolute_distances_(z)"].

Definition fwf_table : Merge.table :=
  Merge.Table 4 [ [Fin 0; Fin 0; Fin 0; Fin 12] ].

Definition extra_table : Merge.table :=
  Merge.Table 7 [ [Fin 0; Fin 0; Fin 0; Fin 5; Fin 3; Fin 4; Fin 0] ].

Definition shifted_table : Merge.table :=
  Merge.Table 7 [ [Fin 1; Fin 0; Fin 0; Fin 5; Fin 3; Fin 4; Fin 0] ].

End Examples.

(* ===================================================================== *)
(** * Properties *)

Unset Implicit Arguments.

(** ** Reverse tiling *)

Section TilingFacts.

Import Tiling.
Local Open Scope string_scope.

Context {FS : Type} {sys : System FS}.

Lemma searchingLines_no_file (o : object) (w : world FS) :
  sys_glob (workspace o ++ "*.laz") (fs w) = [] ->
  searchingLines (o, w)
  = (Ok tt, (Object (workspace o) (cores o) (motif o) (Some []), w)).
Proof.
  intros Hglob.
  unfold searchingLines, bindM, self, glob, set_linesDict, modify; simpl.
  rewrite Hglob; simpl.
  reflexivity.
Qed.

Lemma writingLines_empty_dict (buffer : bool) (o : object) (w : world FS) :
  linesDict o = Some [] ->
  writingLines buffer (o, w)
  = (Raise (ValueError "max() arg is an empty sequence"), (o, w)).
Proof.
  intros Hd.
  unfold writingLines, get_linesDict, bindM, self; simpl.
  rewrite Hd; simpl.
  reflexivity.
Qed.

(** C1. On a workspace without any tile file [searchingLines] ends with an
    empty [linesDict]; [writingLines] then hands no command to the external
    tool, but it does not complete: [max] of the empty key sequence raises
    [ValueError]. *)
Theorem empty_workspace_writingLines_raises
    (buffer : bool) (o : object) (w : world FS) :
  sys_glob (workspace o ++ "*.laz") (fs w) = [] ->
  exists st : state FS,
    searchingLines (o, w) = (Ok tt, st)
    /\ linesDict (fst st) = Some []
    /\ writingLines buffer st
       = (Raise (ValueError "max() arg is an empty sequence"), st)
    /\ commands (snd st) = commands w.
Proof.
  intros Hglob.
  eexists; split; [apply searchingLines_no_file; exact Hglob|].
  split; [reflexivity|].
  split; [apply writingLines_empty_dict; reflexivity|reflexivity].
Qed.

Lemma Run_spec (query : string) (o : object) (w : world FS) :
  Run query (o, w)
  = match sys_tool query (fs w) with
    | Ok fs' => (Ok tt, (o, World fs' ((commands w ++ [query])%list) (stdout w)))
    | Raise e => (Raise e, (o, World (fs w) ((commands w ++ [query])%list) (stdout w)))
    end.
Proof.
  unfold Run, bindM, modify, on_fs; simpl.
  destruct (sys_tool query (fs w)); reflexivity.
Qed.

Lemma removeBuffer_spec (o : object) (w : world FS) :
  removeBuffer (o, w)
  = match sys_tool (lastile_query o) (fs w) with
    | Ok fs' =>
        (Raise (UnboundLocalError "workspace"),
         (o, World fs' ((commands w ++ [lastile_query o])%list) (stdout w)))
    | Raise e =>
        (Raise e, (o, World (fs w) ((commands w ++ [lastile_query o])%list) (stdout w)))
    end.
Proof.
  unfold removeBuffer.
  unfold bindM at 1. unfold self at 1. cbv beta iota. simpl fst.
  unfold bindM at 1. rewrite Run_spec.
  destruct (sys_tool (lastile_query o) (fs w)); reflexivity.
Qed.

(** C3. With the buffer flag set, [removeBuffer] hands the [lastile]
    command to the external tool and then always raises: when the tool
    succeeds, reading the unbound local name [workspace] raises
    [UnboundLocalError].  No file is moved beyond what the tool did, the
    attribute [workspace] keeps its value, and the constructor ends with
    that exception before [searchingLines] starts. *)
Theorem removeBuffer_always_raises (o : object) (w : world FS) :
  (exists (e : exn) (w' : world FS),
      removeBuffer (o, w) = (Raise e, (o, w'))
      /\ commands w' = (commands w ++ [lastile_query o])%list
      /\ match sys_tool (lastile_query o) (fs w) with
         | Ok fs' => e = UnboundLocalError "workspace" /\ fs w' = fs'
         | Raise e' => e = e' /\ fs w' = fs w
         end)
  /\ (forall (ws fileroot : string) (ncores : Z),
        exists (e : exn) (w' : world FS),
          init ws fileroot true ncores w = (Raise e, w')
          /\ commands w'
             = (commands w ++ [lastile_query (Object ws ncores (split_XX fileroot) None)])%list).
Proof.
  split.
  - rewrite removeBuffer_spec.
    destruct (sys_tool (lastile_query o) (fs w)) as [fs'|e] eqn:Ht.
    + eexists; eexists; split; [reflexivity|]. simpl. auto.
    + eexists; eexists; split; [reflexivity|]. simpl. auto.
  - intros ws fileroot ncores.
    unfold init, init_body.
    unfold bindM at 1. unfold print at 1, modify. cbv iota beta.
    unfold bindM at 1.
    rewrite removeBuffer_spec.
    cbn [fs commands stdout workspace cores motif].
    destruct (sys_tool _ (fs w)) as [fs'|e];
      eexists; eexists; split; reflexivity.
Qed.

End TilingFacts.

(** C2. For the dictionary [{7: [fileX, fileY]}] and the template
    ["tile_XX.laz"], the name computed by [_mergeLines] is ["tile_.laz"]:
    [keyStr[0:-2]] drops the last two characters of the identifier, here
    all of it, and the merge command writes to that name. *)
Theorem mergeLines_name_drops_identifier :
  Tiling.output_name (split_XX "tile_XX.laz") 7 (String.length (str_N 7))
  = Ok "tile_.laz"%string
  /\ Tiling.commands
       (snd (snd (Tiling.writingLines (sys := Tiling.flat_system) false
          (Tiling.Object "/d/" 50 (split_XX "tile_XX.laz")
             (Some [(7%N, ["fileX"; "fileY"]%string)]),
           Tiling.World [] [] []))))
     = ["lasmerge -i /d/fileX /d/fileY -keep_point_source 7 -o /d/tile_.laz"%string].
Proof.
  split; vm_compute; reflexivity.
Qed.

(** The constructor on a workspace of the flat system that holds no file. *)
Lemma empty_workspace_writingLines_raises_witness :
  let o := Tiling.Object "/d/" 50 (split_XX "tile_XX.laz") None in
  let w := Tiling.World (FS := Tiling.flat) [] [] [] in
  Tiling.sys_glob (Tiling.workspace o ++ "*.laz") (Tiling.fs w) = []
  /\ exists st : Tiling.state Tiling.flat,
       Tiling.searchingLines (o, w) = (Ok tt, st)
       /\ Tiling.linesDict (fst st) = Some []
       /\ Tiling.writingLines false st
          = (Raise (ValueError "max() arg is an empty sequence"), st)
       /\ Tiling.commands (snd st) = Tiling.commands w.
Proof.
  intros o w.
  split; [reflexivity|].
  apply (empty_workspace_writingLines_raises (sys := Tiling.flat_system) false o w).
  reflexivity.
Defined.

(* ===================================================================== *)
(** ** KML export *)

Section KmlFacts.

Import Kml.
Local Open Scope string_scope.

Variable Coord : Type.

Lemma index_In (x : string) (l : list string) :
  In x l -> exists k, index x l = Ok k /\ (k < List.length l)%nat.
Proof.
  induction l as [|y l IH]; simpl; [tauto|].
  intros H.
  destruct (String.eqb y x) eqn:E.
  - exists O. split; [reflexivity|lia].
  - destruct H as [H|H].
    + subst y. rewrite String.eqb_refl in E. discriminate.
    + destruct (IH H) as [k [Hk Hlt]]. rewrite Hk.
      exists (S k). split; [reflexivity|lia].
Qed.

Lemma getitem_lt {A} (l : list A) (k : nat) :
  (k < List.length l)%nat -> exists a, getitem l k = Ok a.
Proof.
  intros H. unfold getitem.
  destruct (nth_error l k) eqn:E; [eauto|].
  apply nth_error_None in E. lia.
Qed.

Lemma getitem_cases {A} (l : list A) (k : nat) :
  (exists a, getitem l k = Ok a)
  \/ getitem l k = Raise (IndexError "list index out of range").
Proof.
  unfold getitem. destruct (nth_error l k); eauto.
Qed.

Lemma loop_body_step (names descriptions : list string) (coordinates : list Coord)
    (i : string) (acc : list (placemark Coord)) (w : world Coord) :
  In i names ->
  ((exists doc, loop_body names descriptions coordinates i acc w = (Ok doc, w))
   \/ loop_body names descriptions coordinates i acc w
      = (Raise (IndexError "list index out of range"), w))
  /\ ((List.length names <= List.length descriptions)%nat ->
      (List.length names <= List.length coordinates)%nat ->
      exists doc, loop_body names descriptions coordinates i acc w = (Ok doc, w)).
Proof.
  intros Hi.
  destruct (index_In i names Hi) as [k [Hk Hlt]].
  unfold loop_body, bindM, lift, ret. rewrite Hk.
  split.
  - destruct (getitem_cases descriptions k) as [[d Hd]|Hd]; rewrite Hd;
      [|right; reflexivity].
    destruct (getitem_cases coordinates k) as [[c Hc]|Hc]; rewrite Hc;
      [left; eexists; reflexivity|right; reflexivity].
  - intros H1 H2.
    destruct (getitem_lt descriptions k) as [d Hd]; [lia|]. rewrite Hd.
    destruct (getitem_lt coordinates k) as [c Hc]; [lia|]. rewrite Hc.
    eexists; reflexivity.
Qed.

(** The loop of [writeKML] over a part [l] of [names]: it leaves the world
    as it is, and ends with a document or with an [IndexError]. *)
Lemma writeKML_loop (names descriptions : list string) (coordinates : list Coord)
    (l : list string) :
  incl l names ->
  forall (acc : list (placemark Coord)) (w : world Coord),
    let body := loop_body names descriptions coordinates in
    ((exists doc, for_fold l acc body w = (Ok doc, w))
     \/ for_fold l acc body w = (Raise (IndexError "list index out of range"), w))
    /\ ((List.length names <= List.length descriptions)%nat ->
        (List.length names <= List.length coordinates)%nat ->
        exists doc, for_fold l acc body w = (Ok doc, w)).
Proof.
  intros Hincl. induction l as [|i l IH]; intros acc w body.
  - simpl. split; [left|intros _ _]; exists acc; reflexivity.
  - assert (Hi : In i names) by (apply Hincl; left; reflexivity).
    assert (Hl : incl l names) by (intros x Hx; apply Hincl; right; exact Hx).
    specialize (IH Hl).
    destruct (loop_body_step names descriptions coordinates i acc w Hi)
      as [Hcases Hok].
    simpl. unfold bindM. fold body in IH. unfold body at 1 3 5.
    split.
    + destruct Hcases as [[doc Hdoc]|Hraise].
      * rewrite Hdoc. apply (IH doc w).
      * rewrite Hraise. right; reflexivity.
    + intros H1 H2. destruct (Hok H1 H2) as [doc Hdoc].
      rewrite Hdoc. apply (IH doc w); assumption.
Qed.

(** C9, as the code has it.  With arrays of mismatching lengths [writeKML]
    prints its message and raises no [ValueError]; it then goes on with the
    export: either an [IndexError] stops it before anything is saved, or
    the file is saved and [True] is returned, which is the case whenever
    [names] is not longer than the two other arrays. *)
Theorem writeKML_mismatch_prints_and_goes_on
    (filepath : string) (names descriptions : list string)
    (coordinates : list Coord) (w : world Coord) :
  ~ (List.length names = List.length descriptions
     /\ List.length names = List.length coordinates) ->
  let run := writeKML filepath names descriptions coordinates w in
  stdout (snd run) = (stdout w ++ [size_message])%list
  /\ ((exists doc, fst run = Ok true /\ disk (snd run) = (filepath, doc) :: disk w)
      \/ (fst run = Raise (IndexError "list index out of range")
          /\ disk (snd run) = disk w))
  /\ ((List.length names <= List.length descriptions)%nat ->
      (List.length names <= List.length coordinates)%nat ->
      fst run = Ok true).
Proof.
  intros Hmis run. unfold run.
  assert (Hgate : (List.length names =? List.length descriptions)%nat
                  && (List.length names =? List.length coordinates)%nat
                  && (List.length descriptions =? List.length coordinates)%nat
                  = false).
  { destruct (Nat.eqb_spec (List.length names) (List.length descriptions));
      destruct (Nat.eqb_spec (List.length names) (List.length coordinates));
      simpl; try reflexivity.
    exfalso; apply Hmis; split; assumption. }
  set (w1 := World (disk w) (stdout w ++ [size_message])%list).
  assert (Hrun : writeKML filepath names descriptions coordinates w
                 = match for_fold names [] (loop_body names descriptions coordinates) w1 with
                   | (Ok doc, w2) =>
                       (Ok true, World ((filepath, doc) :: disk w2) (stdout w2))
                   | (Raise e, w2) => (Raise e, w2)
                   end).
  { unfold writeKML. rewrite Hgate.
    unfold bindM, print, save, modify, ret. cbv beta iota. fold w1.
    destruct (for_fold names [] (loop_body names descriptions coordinates) w1)
      as [[doc|e] w2]; reflexivity. }
  rewrite Hrun. clear Hrun.
  destruct (writeKML_loop names descriptions coordinates names
              (incl_refl names) [] w1) as [Hcases Hok].
  cbv zeta in Hcases, Hok.
  split; [|split].
  - destruct Hcases as [[doc Hdoc]|Hraise].
    + rewrite Hdoc. reflexivity.
    + rewrite Hraise. reflexivity.
  - destruct Hcases as [[doc Hdoc]|Hraise].
    + left. exists doc. rewrite Hdoc. split; reflexivity.
    + right. rewrite Hraise. split; reflexivity.
  - intros H1 H2. destruct (Hok H1 H2) as [doc Hdoc].
    rewrite Hdoc. reflexivity.
Qed.

End KmlFacts.

(** [names] shorter than the two other arrays: the message is printed, the
    file is saved with the single point, [True] is returned. *)
Lemma writeKML_mismatch_counterexample :
  let run := Kml.writeKML "out.kml"%string ["a"]%string ["d"; "e"]%string [(1, 2); (3, 4)]%Z
               (Kml.World [] []) in
  List.length ["a"]%string <> List.length ["d"; "e"]%string
  /\ fst run = Ok true
  /\ Kml.disk (snd run) = [("out.kml"%string, [Kml.Placemark "a"%string "d"%string [(1, 2)%Z]])].
Proof.
  cbv zeta. split; [discriminate|]. split; reflexivity.
Qed.

Lemma writeKML_mismatch_prints_and_goes_on_witness :
  let run := Kml.writeKML "out.kml"%string ["a"]%string ["d"; "e"]%string [(1, 2); (3, 4)]%Z
               (Kml.World [] []) in
  ~ (List.length ["a"]%string = List.length ["d"; "e"]%string
     /\ List.length ["a"]%string = List.length [(1, 2); (3, 4)]%Z)
  /\ Kml.stdout (snd run) = [Kml.size_message].
Proof.
  cbv zeta. split.
  - intros [H _]. discriminate H.
  - apply (writeKML_mismatch_prints_and_goes_on _ "out.kml"%string ["a"]%string
             ["d"; "e"]%string [(1, 2); (3, 4)]%Z (Kml.World [] [])).
    intros [H _]. discriminate H.
Defined.

(* ===================================================================== *)
(** ** numpy floats and arrays *)

Section NpFacts.

Import Np.
Local Open Scope R_scope.

Lemma Rzero_0 : Rzero 0 = true.
Proof. unfold Rzero. destruct (Req_dec_T 0 0); [reflexivity|]. contradiction. Qed.

Lemma Rzero_eq (r : R) : r = 0 -> Rzero r = true.
Proof. intros ->. apply Rzero_0. Qed.

Lemma Rzero_neq (r : R) : r <> 0 -> Rzero r = false.
Proof. intros H. unfold Rzero. destruct (Req_dec_T r 0); [contradiction|reflexivity]. Qed.

Lemma div_fin (a b : R) : b <> 0 -> div (Fin a) (Fin b) = Fin (a / b).
Proof. intros H. simpl. rewrite (Rzero_neq b H). reflexivity. Qed.

Lemma div_zero_zero (a b : R) : a = 0 -> b = 0 -> div (Fin a) (Fin b) = NaN.
Proof. intros -> ->. simpl. rewrite Rzero_0. reflexivity. Qed.

Lemma sqrt_fin (a : R) : 0 <= a -> sqrt (Fin a) = Fin (R_sqrt.sqrt a).
Proof. intros H. simpl. destruct (Rlt_dec a 0); [lra|reflexivity]. Qed.

Lemma in_unit_true (a : R) : -1 <= a <= 1 -> in_unit a = true.
Proof.
  intros [H1 H2]. unfold in_unit.
  destruct (Rle_dec (-1) a); [|contradiction].
  destruct (Rle_dec a 1); [reflexivity|contradiction].
Qed.

Lemma arccos_fin (a : R) : -1 <= a <= 1 -> arccos (Fin a) = Fin (acos a).
Proof. intros H. simpl. rewrite (in_unit_true a H). reflexivity. Qed.

Lemma arcsin_fin (a : R) : -1 <= a <= 1 -> arcsin (Fin a) = Fin (asin a).
Proof. intros H. simpl. rewrite (in_unit_true a H). reflexivity. Qed.

Lemma add_nan_r (x : npfloat) : add x NaN = NaN.
Proof. destruct x; reflexivity. Qed.

Lemma mul_nan_r (x : npfloat) : mul x NaN = NaN.
Proof. destruct x; reflexivity. Qed.

Lemma add_assoc (x y z : npfloat) : add (add x y) z = add x (add y z).
Proof.
  destruct x, y, z; simpl; try reflexivity.
  f_equal. ring.
Qed.

(** The code computes [(z + depthTrue) - depthApp]; the specification
    writes the vertical shift as [z + (depthTrue - depthApp)]. *)
Lemma sub_add_assoc (x y z : npfloat) : sub (add x y) z = add x (sub y z).
Proof. unfold sub. apply add_assoc. Qed.

Lemma zipWith_map_map {A B C D} (f : B -> C -> D) (g : A -> B) (h : A -> C)
    (l : list A) :
  zipWith f (map g l) (map h l) = map (fun x => f (g x) (h x)) l.
Proof. induction l; simpl; congruence. Qed.

(** Two arrays computed from the same batch have the same length, and the
    elementwise operation pairs them up. *)
Lemma bcast_map_map {A B C D} (f : B -> C -> D) (g : A -> B) (h : A -> C)
    (l : list A) :
  bcast f (map g l) (map h l) = Ok (map (fun x => f (g x) (h x)) l).
Proof.
  unfold bcast. rewrite !length_map, Nat.eqb_refl.
  rewrite zipWith_map_map. reflexivity.
Qed.

Lemma vstack3T_map {A} (f g h : A -> npfloat) (l : list A) :
  vstack3T (map f l) (map g l) (map h l)
  = Ok (map (fun x => V3 (f x) (g x) (h x)) l).
Proof.
  unfold vstack3T. rewrite !length_map, Nat.eqb_refl. simpl.
  f_equal. induction l; simpl; congruence.
Qed.

Lemma bcast_raises {A B C} (f : A -> B -> C) (xs : list A) (ys : list B) (e : exn) :
  bcast f xs ys = Raise e -> e = broadcast_error.
Proof.
  unfold bcast.
  destruct (Nat.eqb (List.length xs) (List.length ys)); [discriminate|].
  destruct xs as [|x [|x' xs]]; destruct ys as [|y [|y' ys]];
    intros H; try discriminate H; injection H as <-; reflexivity.
Qed.

End NpFacts.

(* ===================================================================== *)
(** ** Refraction correction: the input contract and the formulas *)

Section RefractionFacts.

Import Np Refraction.
Local Open Scope R_scope.

Lemma shape_bind {A B} (m : result A) (k : A -> result B) :
  shape_errors_only m -> (forall a, shape_errors_only (k a)) ->
  shape_errors_only (bind m k).
Proof.
  intros Hm Hk e. destruct m as [a|e']; simpl.
  - apply Hk.
  - intros H. injection H as <-. apply Hm. reflexivity.
Qed.

Lemma shape_ok {A} (a : A) : shape_errors_only (Ok a).
Proof. intros e H. discriminate H. Qed.

Lemma shape_bcast {A B C} (f : A -> B -> C) xs ys : shape_errors_only (bcast f xs ys).
Proof.
  intros e H. apply bcast_raises in H. subst e. discriminate.
Qed.

Lemma shape_vstack3T r0 r1 r2 : shape_errors_only (vstack3T r0 r1 r2).
Proof.
  intros e. unfold vstack3T.
  destruct (_ && _); intros H; [discriminate H|].
  injection H as <-. discriminate.
Qed.

Ltac shape :=
  repeat first
    [ apply shape_ok
    | apply shape_bcast
    | apply shape_vstack3T
    | apply shape_bind; [|intros ?] ].

Lemma shape_gisement v : shape_errors_only (gisement v).
Proof. unfold gisement. shape. Qed.

Lemma shape_incidence v n : shape_errors_only (incidence v n).
Proof. unfold incidence. shape. Qed.

(** C5. [correction3D] raises the [ValueError] of the input contract exactly
    when [pt_shot] and [vectorApp] are both empty or both non-empty; with
    exactly one of them non-empty that error is not raised. *)
Theorem correction3D_invalid_input_iff
    (pt_app : list vec3) (depthApp : array) (pt_shot vectorApp : list vec3)
    (indRefr : npfloat) :
  correction3D pt_app depthApp pt_shot vectorApp indRefr = Raise invalid_input
  <-> ((pt_shot = [] /\ vectorApp = []) \/ (pt_shot <> [] /\ vectorApp <> [])).
Proof.
  unfold correction3D, shot_vectors.
  destruct pt_shot as [|s pt_shot], vectorApp as [|v vectorApp]; simpl.
  - split; [intros _; left; split; reflexivity | reflexivity].
  - split.
    + intros H. exfalso. revert H.
      match goal with |- ?m = _ -> _ => assert (Hs : shape_errors_only m) end.
      { shape; try apply shape_gisement; try apply shape_incidence. }
      intros H. exact (Hs _ H eq_refl).
    + intros [[_ H]|[H _]]; [discriminate H | contradiction H; reflexivity].
  - split.
    + intros H. exfalso. revert H.
      match goal with |- ?m = _ -> _ => assert (Hs : shape_errors_only m) end.
      { shape; try apply shape_gisement; try apply shape_incidence. }
      intros H. exact (Hs _ H eq_refl).
    + intros [[H _]|[_ H]]; [discriminate H | contradiction H; reflexivity].
  - split; [intros _; right; split; discriminate | reflexivity].
Qed.

End RefractionFacts.

Section Pointwise.

Import Np Refraction.
Local Open Scope R_scope.

Lemma gisement_pointwise (vect : list vec3) :
  gisement vect = Ok (map spec_bearing vect).
Proof.
  unfold gisement.
  rewrite bcast_map_map. cbn [bind].
  rewrite bcast_map_map. cbn [bind].
  rewrite !map_map. reflexivity.
Qed.

Lemma incidence_pointwise (vect : list vec3) :
  incidence vect (map norm3 vect) = Ok (map spec_theta_app vect).
Proof.
  unfold incidence.
  rewrite bcast_map_map. cbn [bind].
  rewrite map_map. reflexivity.
Qed.

(** The batch computation of [correction3D] is, point by point, the formula
    of the specification, whatever way the shot vectors were obtained. *)
Lemma correction3D_of_vectors (rows : list shot) (f : shot -> vec3)
    (pt_shot vectorApp : list vec3) (n : npfloat) :
  shot_vectors (map s_app rows) pt_shot vectorApp = Ok (map f rows) ->
  correction3D (map s_app rows) (map s_depth rows) pt_shot vectorApp n
  = Ok (map (fun r => spec_true_point n (s_app r) (s_depth r) (f r)) rows,
        map (fun r => spec_depth_true n (s_depth r) (f r)) rows).
Proof.
  intros Hv. unfold correction3D. rewrite Hv. cbn [bind].
  rewrite gisement_pointwise. cbn [bind].
  rewrite incidence_pointwise. cbn [bind].
  unfold snell.
  repeat (rewrite ?map_map; rewrite bcast_map_map; cbn [bind]).
  rewrite ?map_map. rewrite vstack3T_map. cbn [bind].
  f_equal. f_equal.
  apply map_ext. intros r.
  unfold spec_true_point, spec_displacement, spec_depth_true, spec_theta_true.
  rewrite sub_add_assoc. reflexivity.
Qed.

Lemma shot_vectors_fwf (pt_app : list vec3) (rows : list shot) :
  rows <> [] ->
  shot_vectors pt_app [] (map s_datum rows) = Ok (map s_datum rows).
Proof.
  intros H. destruct rows as [|r rows]; [contradiction H; reflexivity|].
  reflexivity.
Qed.

Lemma shot_vectors_discrete (rows : list shot) :
  rows <> [] ->
  shot_vectors (map s_app rows) (map s_datum rows) []
  = Ok (map (fun r => vsub (s_datum r) (s_app r)) rows).
Proof.
  intros H. unfold shot_vectors.
  destruct rows as [|r rows]; [contradiction H; reflexivity|].
  change ((0 <? List.length (map s_datum (r :: rows)))%nat
          && (List.length (@nil vec3) =? 0)%nat) with true.
  cbv iota. apply bcast_map_map.
Qed.

(** C7. On a batch of measurements, in full-waveform mode as in discrete
    mode, [correction3D] returns for every point the true depth
    [depthApp*cos(thetaApp)/(indRefr*cos(thetaTrue))] with
    [thetaApp = acos(vz/|v|)] and [thetaTrue = asin(sin(thetaApp)/indRefr)],
    and the apparent point shifted horizontally by
    [(depthApp*tan(thetaApp) - depthTrue*tan(thetaTrue))*(sin(bearing), cos(bearing))]
    and vertically by [depthTrue - depthApp]. *)
Theorem correction3D_formulas (rows : list shot) (indRefr : npfloat) :
  rows <> [] ->
  correction3D (map s_app rows) (map s_depth rows) [] (map s_datum rows) indRefr
  = Ok (map (fun r => spec_true_point indRefr (s_app r) (s_depth r) (s_datum r)) rows,
        map (fun r => spec_depth_true indRefr (s_depth r) (s_datum r)) rows)
  /\ correction3D (map s_app rows) (map s_depth rows) (map s_datum rows) [] indRefr
     = Ok (map (fun r => spec_true_point indRefr (s_app r) (s_depth r)
                           (vsub (s_datum r) (s_app r))) rows,
           map (fun r => spec_depth_true indRefr (s_depth r)
                           (vsub (s_datum r) (s_app r))) rows).
Proof.
  intros H. split.
  - apply (correction3D_of_vectors rows s_datum).
    apply shot_vectors_fwf. exact H.
  - apply (correction3D_of_vectors rows (fun r => vsub (s_datum r) (s_app r))).
    apply shot_vectors_discrete. exact H.
Qed.

(** *** The bearing on the negative [y] half-axis *)

Lemma norm2_fin (x y : R) (z : npfloat) :
  norm2 (V3 (Fin x) (Fin y) z) = Fin (R_sqrt.sqrt (x * x + y * y)).
Proof.
  unfold norm2. cbn [c0 c1 mul add].
  apply sqrt_fin. nra.
Qed.

Lemma spec_bearing_nan (v : vec3) :
  c0 v = Fin 0 -> c1 v = neg (norm2 v) -> spec_bearing v = NaN.
Proof.
  destruct v as [vx vy vz]. cbn [c0 c1].
  intros -> Hy. unfold spec_bearing. cbn [c0 c1].
  destruct vy as [y| | |].
  - rewrite norm2_fin in Hy |- *. simpl in Hy. injection Hy as Hy.
    cbn [add]. rewrite div_zero_zero; [reflexivity|reflexivity|lra].
  - unfold norm2 in Hy. simpl in Hy. discriminate Hy.
  - reflexivity.
  - reflexivity.
Qed.

(** C4, as the code has it.  For a batch of vectors with [vx = 0] and
    [vy = -|v_xy|] the bearing computation raises nothing, but nothing
    guards the denominator either: [|v_xy| + vy] is zero, the quotient is
    [0/0] and every bearing is NaN. *)
Theorem gisement_degenerate_is_nan (vect : list vec3) :
  Forall (fun v => c0 v = Fin 0 /\ c1 v = neg (norm2 v)) vect ->
  gisement vect = Ok (map (fun _ => NaN) vect).
Proof.
  intros H. rewrite gisement_pointwise. f_equal.
  induction H as [|v vect [Hx Hy] _ IH]; simpl; [reflexivity|].
  rewrite (spec_bearing_nan v Hx Hy), IH. reflexivity.
Qed.

End Pointwise.

(* ===================================================================== *)
(** ** Real numbers: the bearing and the incidence angle *)

Section RealFacts.

Local Open Scope R_scope.

Lemma hnorm_sq (x y : R) : sqrt (x * x + y * y) * sqrt (x * x + y * y) = x * x + y * y.
Proof. apply sqrt_sqrt. nra. Qed.

Lemma hnorm_pos (x y : R) :
  sqrt (x * x + y * y) + y <> 0 ->
  0 < sqrt (x * x + y * y) /\ 0 < sqrt (x * x + y * y) + y.
Proof.
  intros H.
  pose proof (hnorm_sq x y) as Hsq.
  pose proof (sqrt_pos (x * x + y * y)) as Hpos.
  set (r := sqrt (x * x + y * y)) in *.
  assert (Hge : 0 <= r + y) by nra.
  split; [|lra].
  destruct (Req_dec_T r 0) as [E|E]; [|lra].
  exfalso. rewrite E in *. assert (y * y = 0) by nra. assert (y = 0) by nra. lra.
Qed.




Lemma norm_ratio_bounds (x y z : R) :
  0 < sqrt (x * x + y * y + z * z) ->
  -1 <= z / sqrt (x * x + y * y + z * z) <= 1.
Proof.
  intros HN.
  assert (Hsq : sqrt (x * x + y * y + z * z) * sqrt (x * x + y * y + z * z)
                = x * x + y * y + z * z) by (apply sqrt_sqrt; nra).
  set (N := sqrt (x * x + y * y + z * z)) in *.
  assert (- N <= z <= N) by nra.
  split.
  - apply Rmult_le_reg_r with N; [exact HN|]. unfold Rdiv. rewrite Rmult_assoc, Rinv_l; lra.
  - apply Rmult_le_reg_r with N; [exact HN|]. unfold Rdiv. rewrite Rmult_assoc, Rinv_l; lra.
Qed.

Lemma incidence_range (x y z : R) :
  0 < sqrt (x * x + y * y + z * z) -> 0 <= z ->
  0 <= acos (z / sqrt (x * x + y * y + z * z)) <= PI / 2.
Proof.
  intros HN Hz.
  pose proof (norm_ratio_bounds x y z HN) as Hb.
  pose proof (acos_bound (z / sqrt (x * x + y * y + z * z))) as [H0 Hpi].
  split; [exact H0|].
  destruct (Rle_dec (acos (z / sqrt (x * x + y * y + z * z))) (PI / 2)) as [Hle|Hgt]; [exact Hle|].
  exfalso.
  assert (Hc : cos (acos (z / sqrt (x * x + y * y + z * z))) < 0).
  { apply cos_lt_0; [lra|]. pose proof PI_RGT_0. lra. }
  rewrite cos_acos in Hc by exact Hb.
  assert (0 <= z / sqrt (x * x + y * y + z * z)).
  { apply Rmult_le_pos; [exact Hz|]. apply Rlt_le, Rinv_0_lt_compat, HN. }
  lra.
Qed.

Lemma norm_sin_incidence (x y z : R) :
  0 < sqrt (x * x + y * y + z * z) ->
  sqrt (x * x + y * y + z * z) * sin (acos (z / sqrt (x * x + y * y + z * z)))
  = sqrt (x * x + y * y).
Proof.
  intros HN.
  pose proof (norm_ratio_bounds x y z HN) as Hb.
  assert (Hsq : sqrt (x * x + y * y + z * z) * sqrt (x * x + y * y + z * z)
                = x * x + y * y + z * z) by (apply sqrt_sqrt; nra).
  rewrite sin_acos by exact Hb.
  set (N := sqrt (x * x + y * y + z * z)) in *.
  assert (Hq : (z / N)² = z * z / (N * N)) by (unfold Rsqr; field; lra).
  assert (H1 : 0 <= 1 - (z / N)²).
  { destruct Hb as [Hb1 Hb2]. unfold Rsqr. nra. }
  symmetry. apply sqrt_lem_1.
  - nra.
  - apply Rmult_le_pos; [lra|apply sqrt_pos].
  - replace (N * sqrt (1 - (z / N)²) * (N * sqrt (1 - (z / N)²)))
      with (N * N * (sqrt (1 - (z / N)²) * sqrt (1 - (z / N)²))) by ring.
    rewrite sqrt_sqrt by exact H1. rewrite Hq. rewrite Hsq. field_simplify; [|nra]. lra.
Qed.

End RealFacts.

(* ===================================================================== *)
(** ** Refraction correction with a refraction index of one *)

Section Identity.
Import Np Refraction.

Local Open Scope R_scope.

Lemma norm3_fin (x y z : R) :
  norm3 (V3 (Fin x) (Fin y) (Fin z)) = Fin (R_sqrt.sqrt (x * x + y * y + z * z)).
Proof. unfold norm3. cbn [c0 c1 c2 mul add]. apply sqrt_fin. nra. Qed.

Lemma norm3_pos (x y z : R) :
  R_sqrt.sqrt (x * x + y * y) + y <> 0 -> 0 < R_sqrt.sqrt (x * x + y * y + z * z).
Proof.
  intros H. destruct (hnorm_pos x y H) as [Hr _].
  apply sqrt_lt_R0.
  pose proof (hnorm_sq x y). nra.
Qed.

Lemma spec_bearing_fin (x y : R) (z : npfloat) :
  R_sqrt.sqrt (x * x + y * y) + y <> 0 ->
  spec_bearing (V3 (Fin x) (Fin y) z)
  = Fin (2 * atan (x / (R_sqrt.sqrt (x * x + y * y) + y))).
Proof.
  intros H. unfold spec_bearing. rewrite norm2_fin. cbn [c0 c1 add].
  rewrite div_fin by exact H. reflexivity.
Qed.

Lemma spec_theta_app_fin (x y z : R) :
  0 < R_sqrt.sqrt (x * x + y * y + z * z) ->
  spec_theta_app (V3 (Fin x) (Fin y) (Fin z))
  = Fin (acos (z / R_sqrt.sqrt (x * x + y * y + z * z))).
Proof.
  intros HN. unfold spec_theta_app. rewrite norm3_fin. cbn [c2].
  rewrite div_fin by lra.
  apply arccos_fin. apply norm_ratio_bounds. exact HN.
Qed.

Lemma spec_theta_true_one (x y z : R) :
  0 < R_sqrt.sqrt (x * x + y * y + z * z) -> 0 <= z ->
  spec_theta_true (Fin 1) (V3 (Fin x) (Fin y) (Fin z))
  = Fin (acos (z / R_sqrt.sqrt (x * x + y * y + z * z))).
Proof.
  intros HN Hz. unfold spec_theta_true.
  rewrite spec_theta_app_fin by exact HN. cbn [sin].
  rewrite div_fin by lra.
  pose proof (incidence_range x y z HN Hz) as Hr.
  set (th := acos (z / R_sqrt.sqrt (x * x + y * y + z * z))) in *.
  replace (Rtrigo_def.sin th / 1) with (Rtrigo_def.sin th) by field.
  rewrite arcsin_fin by (pose proof (SIN_bound th); lra).
  rewrite asin_sin; [reflexivity|]. pose proof PI_RGT_0. lra.
Qed.



Lemma spec_depth_true_one (x y z d : R) :
  R_sqrt.sqrt (x * x + y * y) + y <> 0 -> 0 < z ->
  spec_depth_true (Fin 1) (Fin d) (V3 (Fin x) (Fin y) (Fin z)) = Fin d.
Proof.
  intros H Hz.
  pose proof (norm3_pos x y z H) as HN.
  unfold spec_depth_true.
  rewrite (spec_theta_true_one x y z HN (Rlt_le _ _ Hz)).
  rewrite (spec_theta_app_fin x y z HN). cbn [cos mul].
  rewrite cos_acos by (apply norm_ratio_bounds; exact HN).
  assert (Hq : 0 < z / R_sqrt.sqrt (x * x + y * y + z * z)).
  { apply Rmult_lt_0_compat; [exact Hz|]. apply Rinv_0_lt_compat, HN. }
  rewrite div_fin by lra.
  f_equal. field. split; lra.
Qed.

Lemma spec_true_point_one (x y z d a b c : R) :
  R_sqrt.sqrt (x * x + y * y) + y <> 0 -> 0 < z ->
  spec_true_point (Fin 1) (V3 (Fin a) (Fin b) (Fin c)) (Fin d)
    (V3 (Fin x) (Fin y) (Fin z))
  = V3 (Fin a) (Fin b) (Fin c).
Proof.
  intros H Hz.
  pose proof (norm3_pos x y z H) as HN.
  unfold spec_true_point, spec_displacement.
  rewrite (spec_depth_true_one x y z d H Hz).
  rewrite (spec_theta_true_one x y z HN (Rlt_le _ _ Hz)).
  rewrite (spec_theta_app_fin x y z HN).
  rewrite (spec_bearing_fin x y (Fin z) H).
  unfold tan. cbn [sin cos].
  rewrite cos_acos by (apply norm_ratio_bounds; exact HN).
  assert (Hq : 0 < z / R_sqrt.sqrt (x * x + y * y + z * z)).
  { apply Rmult_lt_0_compat; [exact Hz|]. apply Rinv_0_lt_compat, HN. }
  rewrite div_fin by lra.
  cbn [c0 c1 c2 mul sub add neg].
  f_equal; f_equal; ring.
Qed.

Lemma correction_vect_pointwise (vectorApp : list vec3) (n : npfloat) :
  correction_vect vectorApp n = Ok (map (spec_true_vector n) vectorApp).
Proof.
  unfold correction_vect.
  rewrite gisement_pointwise. cbn [bind].
  rewrite incidence_pointwise. cbn [bind].
  unfold snell.
  repeat (rewrite ?map_map; rewrite bcast_map_map; cbn [bind]).
  rewrite ?map_map. rewrite vstack3T_map.
  f_equal.
Qed.

End Identity.

Section IndexOne.

Import Np Refraction.
Local Open Scope R_scope.

Lemma spec_point_upward (r : shot) (v : vec3) :
  finite_point (s_app r) (s_depth r) -> upward_shot v ->
  spec_true_point (Fin 1) (s_app r) (s_depth r) v = s_app r
  /\ spec_depth_true (Fin 1) (s_depth r) v = s_depth r.
Proof.
  intros (a & b & c & dd & Hp & Hd) (x & y & z & Hv & Hz & Hden).
  rewrite Hp, Hd, Hv. split.
  - apply spec_true_point_one; assumption.
  - apply spec_depth_true_one; assumption.
Qed.

Lemma correction3D_identity_of_vectors (rows : list shot) (f : shot -> vec3)
    (pt_shot vectorApp : list vec3) :
  shot_vectors (map s_app rows) pt_shot vectorApp = Ok (map f rows) ->
  Forall (fun r => finite_point (s_app r) (s_depth r) /\ upward_shot (f r)) rows ->
  correction3D (map s_app rows) (map s_depth rows) pt_shot vectorApp (Fin 1)
  = Ok (map s_app rows, map s_depth rows).
Proof.
  intros Hv Hall.
  rewrite (correction3D_of_vectors rows f pt_shot vectorApp (Fin 1) Hv).
  f_equal. f_equal.
  - apply map_ext_in. intros r Hr.
    rewrite Forall_forall in Hall. destruct (Hall r Hr) as [Hp Hu].
    apply (spec_point_upward r (f r) Hp Hu).
  - apply map_ext_in. intros r Hr.
    rewrite Forall_forall in Hall. destruct (Hall r Hr) as [Hp Hu].
    apply (spec_point_upward r (f r) Hp Hu).
Qed.

(** C6, as the code has it.  With a refraction index of one [correction3D]
    returns the points and the depths it was given, in full-waveform mode
    as in discrete mode, for every batch of finite points and depths whose
    shot vectors have a positive third component and a bearing denominator
    [|v_xy| + vy] that is not zero. *)
Theorem correction3D_identity_index_one (rows : list shot) :
  rows <> [] ->
  (Forall (fun r => finite_point (s_app r) (s_depth r)
                    /\ upward_shot (s_datum r)) rows ->
   correction3D (map s_app rows) (map s_depth rows) [] (map s_datum rows) (Fin 1)
   = Ok (map s_app rows, map s_depth rows))
  /\ (Forall (fun r => finite_point (s_app r) (s_depth r)
                       /\ upward_shot (vsub (s_datum r) (s_app r))) rows ->
      correction3D (map s_app rows) (map s_depth rows) (map s_datum rows) [] (Fin 1)
      = Ok (map s_app rows, map s_depth rows)).
Proof.
  intros Hne. split; intros Hall.
  - apply (correction3D_identity_of_vectors rows s_datum); [|exact Hall].
    apply shot_vectors_fwf. exact Hne.
  - apply (correction3D_identity_of_vectors rows
             (fun r => vsub (s_datum r) (s_app r))); [|exact Hall].
    apply shot_vectors_discrete. exact Hne.
Qed.


(** *** Concrete shots *)

Lemma vertical_degenerate : c0 vertical = Fin 0 /\ c1 vertical = neg (norm2 vertical).
Proof.
  split; [reflexivity|].
  unfold vertical. rewrite norm2_fin. cbn [c1 neg]. f_equal.
  replace (0 * 0 + 0 * 0) with 0 by ring. rewrite sqrt_0. ring.
Qed.

Lemma tilted_denominator : R_sqrt.sqrt (0 * 0 + 1 * 1) + 1 <> 0.
Proof. pose proof (sqrt_pos (0 * 0 + 1 * 1)). lra. Qed.

Lemma tilted_upward : upward_shot tilted.
Proof.
  exists 0, 1, 1. split; [reflexivity|]. split; [lra|apply tilted_denominator].
Qed.


Lemma origin_finite (d : R) : finite_point origin (Fin d).
Proof. exists 0, 0, 0, d. split; reflexivity. Qed.

End IndexOne.

(** The bearing of the vertical shot is NaN. *)
Lemma gisement_vertical_counterexample :
  Np.c0 Refraction.vertical = Np.Fin 0
  /\ Np.c1 Refraction.vertical = Np.neg (Np.norm2 Refraction.vertical)
  /\ Refraction.gisement [Refraction.vertical] = Ok [Np.NaN]
  /\ Np.isfinite Np.NaN = false.
Proof.
  destruct vertical_degenerate as [Hx Hy].
  split; [exact Hx|]. split; [exact Hy|]. split; [|reflexivity].
  rewrite gisement_pointwise. simpl.
  rewrite (spec_bearing_nan Refraction.vertical Hx Hy). reflexivity.
Qed.

Lemma gisement_degenerate_is_nan_witness :
  Forall (fun v => Np.c0 v = Np.Fin 0 /\ Np.c1 v = Np.neg (Np.norm2 v))
         [Refraction.vertical]
  /\ Refraction.gisement [Refraction.vertical] = Ok [Np.NaN].
Proof.
  assert (H : Forall (fun v => Np.c0 v = Np.Fin 0 /\ Np.c1 v = Np.neg (Np.norm2 v))
                     [Refraction.vertical]).
  { constructor; [exact vertical_degenerate|constructor]. }
  split; [exact H|].
  exact (gisement_degenerate_is_nan [Refraction.vertical] H).
Defined.

(** With a refraction index of one, the vertical shot over the origin comes
    back with a NaN first coordinate. *)
Lemma correction3D_vertical_counterexample :
  (exists (y z : Np.npfloat) (d : Np.array),
      Refraction.correction3D [Refraction.origin] [Np.Fin 1] [] [Refraction.vertical]
        (Np.Fin 1)
      = Ok ([Np.V3 Np.NaN y z], d))
  /\ Refraction.correction3D [Refraction.origin] [Np.Fin 1] [] [Refraction.vertical]
       (Np.Fin 1)
     <> Ok ([Refraction.origin], [Np.Fin 1]).
Proof.
  pose (rows := [Refraction.Shot Refraction.origin (Np.Fin 1) Refraction.vertical]).
  assert (Hrun := correction3D_of_vectors rows Refraction.s_datum [] [Refraction.vertical]
                    (Np.Fin 1) eq_refl).
  change (map Refraction.s_app rows) with [Refraction.origin] in Hrun.
  change (map Refraction.s_depth rows) with [Np.Fin 1] in Hrun.
  rewrite Hrun. unfold rows. cbn [map Refraction.s_app Refraction.s_depth Refraction.s_datum].
  destruct vertical_degenerate as [Hx Hy].
  unfold Refraction.spec_true_point.
  rewrite (spec_bearing_nan Refraction.vertical Hx Hy).
  cbn [Np.sin Np.cos]. rewrite !mul_nan_r, !add_nan_r.
  split.
  - eexists; eexists; eexists. reflexivity.
  - intros H. discriminate H.
Qed.

Lemma correction3D_identity_index_one_witness :
  let rows := [Refraction.Shot Refraction.origin (Np.Fin 1) Refraction.tilted] in
  rows <> []
  /\ Forall (fun r => Refraction.finite_point (Refraction.s_app r) (Refraction.s_depth r)
                      /\ Refraction.upward_shot (Refraction.s_datum r)) rows
  /\ Refraction.correction3D [Refraction.origin] [Np.Fin 1] [] [Refraction.tilted] (Np.Fin 1)
     = Ok ([Refraction.origin], [Np.Fin 1]).
Proof.
  intros rows.
  assert (Hne : rows <> []) by discriminate.
  assert (Hall : Forall (fun r => Refraction.finite_point (Refraction.s_app r)
                                     (Refraction.s_depth r)
                                   /\ Refraction.upward_shot (Refraction.s_datum r)) rows).
  { constructor; [|constructor]. split; [apply origin_finite|apply tilted_upward]. }
  split; [exact Hne|]. split; [exact Hall|].
  exact (proj1 (correction3D_identity_index_one rows Hne) Hall).
Defined.

Lemma correction3D_formulas_witness :
  let rows := [Refraction.Shot Refraction.origin (Np.Fin 1) Refraction.tilted] in
  rows <> []
  /\ Refraction.correction3D [Refraction.origin] [Np.Fin 1] [] [Refraction.tilted]
       (Np.Fin 1.333)
     = Ok ([Refraction.spec_true_point (Np.Fin 1.333) Refraction.origin (Np.Fin 1)
              Refraction.tilted],
           [Refraction.spec_depth_true (Np.Fin 1.333) (Np.Fin 1) Refraction.tilted]).
Proof.
  intros rows.
  assert (Hne : rows <> []) by discriminate.
  split; [exact Hne|].
  exact (proj1 (correction3D_formulas rows (Np.Fin 1.333) Hne)).
Defined.


(* ===================================================================== *)
(** ** Feature normalisation *)

Section FeatureColumns.

Import Np Features.
Local Open Scope R_scope.




(** Over finite values [min] returns a least item of the sequence. *)
Lemma min_from_finite (l : array) :
  Forall (fun x => isfinite x = true) l ->
  forall m0 : R,
  exists m : R,
    min_from (Fin m0) l = Fin m
    /\ (m = m0 \/ In (Fin m) l)
    /\ m <= m0
    /\ (forall r, In (Fin r) l -> m <= r).
Proof.
  induction 1 as [|x l Hx _ IH]; intros m0.
  - exists m0. simpl. repeat split; [left; reflexivity|lra|tauto].
  - destruct x as [r0| | |]; try discriminate Hx. simpl.
    destruct (Rlt_dec r0 m0) as [Hlt|Hge].
    + destruct (IH r0) as (m & Hm & Hin & Hle & Hall).
      exists m. split; [exact Hm|]. split; [|split].
      * right. destruct Hin as [->|Hin]; [left; reflexivity|right; exact Hin].
      * lra.
      * intros r [Hr|Hr]; [injection Hr as <-; exact Hle|apply Hall; exact Hr].
    + destruct (IH m0) as (m & Hm & Hin & Hle & Hall).
      exists m. split; [exact Hm|]. split; [|split].
      * destruct Hin as [->|Hin]; [left; reflexivity|right; right; exact Hin].
      * exact Hle.
      * intros r [Hr|Hr]; [injection Hr as <-; lra|apply Hall; exact Hr].
Qed.

Lemma max_from_finite (l : array) :
  Forall (fun x => isfinite x = true) l ->
  forall m0 : R,
  exists m : R,
    max_from (Fin m0) l = Fin m
    /\ (m = m0 \/ In (Fin m) l)
    /\ m0 <= m
    /\ (forall r, In (Fin r) l -> r <= m).
Proof.
  induction 1 as [|x l Hx _ IH]; intros m0.
  - exists m0. simpl. repeat split; [left; reflexivity|lra|tauto].
  - destruct x as [r0| | |]; try discriminate Hx. simpl.
    destruct (Rlt_dec m0 r0) as [Hlt|Hge].
    + destruct (IH r0) as (m & Hm & Hin & Hle & Hall).
      exists m. split; [exact Hm|]. split; [|split].
      * right. destruct Hin as [->|Hin]; [left; reflexivity|right; exact Hin].
      * lra.
      * intros r [Hr|Hr]; [injection Hr as <-; exact Hle|apply Hall; exact Hr].
    + destruct (IH m0) as (m & Hm & Hin & Hle & Hall).
      exists m. split; [exact Hm|]. split; [|split].
      * destruct Hin as [->|Hin]; [left; reflexivity|right; right; exact Hin].
      * exact Hle.
      * intros r [Hr|Hr]; [injection Hr as <-; lra|apply Hall; exact Hr].
Qed.

Lemma filter_isfinite_all (l : array) :
  Forall (fun x => isfinite x = true) (filter isfinite l).
Proof.
  apply Forall_forall. intros x Hx. apply filter_In in Hx. tauto.
Qed.

Lemma In_fin_filter (r : R) (l : array) :
  In (Fin r) (filter isfinite l) <-> In (Fin r) l.
Proof.
  rewrite filter_In. simpl. tauto.
Qed.



Lemma forallb_isnan_fin (col : array) (r : R) :
  In (Fin r) col -> forallb isnan col = false.
Proof.
  intros H. destruct (forallb isnan col) eqn:E; [|reflexivity].
  rewrite forallb_forall in E. specialize (E _ H). discriminate E.
Qed.

End FeatureColumns.

Section FeatureNorm.

Import Np Features.
Local Open Scope R_scope.

Lemma norm_column_length (col c' : array) :
  norm_column col = Ok c' -> List.length c' = List.length col.
Proof.
  unfold norm_column.
  destruct (forallb isnan col).
  - intros H. injection H as <-. apply length_map.
  - destruct (py_min (filter isfinite col)); [|discriminate].
    destruct (py_max (filter isfinite col)); [|discriminate].
    cbn [bind]. intros H. injection H as <-. rewrite !length_map. reflexivity.
Qed.

Lemma norm_column_all_nan (col : array) :
  (forall x, In x col -> x = NaN) ->
  norm_column col = Ok (map (fun _ => Fin (-1)) col).
Proof.
  intros H. unfold norm_column.
  replace (forallb isnan col) with true; [reflexivity|].
  symmetry. apply forallb_forall. intros x Hx. rewrite (H x Hx). reflexivity.
Qed.






(** *** Columns of a matrix *)

Lemma length_set_nth (i : nat) (v : npfloat) (row : list npfloat) :
  List.length (set_nth i v row) = List.length row.
Proof.
  revert i. induction row as [|x row IH]; intros [|i]; simpl; auto.
Qed.

Lemma nth_set_nth_same (i : nat) (v d : npfloat) (row : list npfloat) :
  (i < List.length row)%nat -> nth i (set_nth i v row) d = v.
Proof.
  revert i. induction row as [|x row IH]; intros [|i]; simpl; intros H; try lia.
  - reflexivity.
  - apply IH. lia.
Qed.

Lemma nth_set_nth_other (i j : nat) (v d : npfloat) (row : list npfloat) :
  i <> j -> nth j (set_nth i v row) d = nth j row d.
Proof.
  revert i j. induction row as [|x row IH]; intros [|i] [|j] H; simpl;
    try reflexivity; try congruence.
  apply IH. congruence.
Qed.

Lemma length_set_col (i : nat) (c : array) (m : matrix) :
  List.length c = List.length m -> List.length (set_col i c m) = List.length m.
Proof.
  unfold set_col. revert c.
  induction m as [|row m IH]; intros [|v c]; simpl; intros H; try lia.
  rewrite IH; lia.
Qed.

Lemma rectangular_set_col (n i : nat) (c : array) (m : matrix) :
  rectangular n m -> rectangular n (set_col i c m).
Proof.
  unfold rectangular, set_col. intros H. revert c.
  induction H as [|row m Hrow _ IH]; intros [|v c]; simpl; constructor.
  - rewrite length_set_nth. exact Hrow.
  - apply IH.
Qed.

Lemma get_col_set_col_same (n i : nat) (c : array) (m : matrix) :
  rectangular n m -> (i < n)%nat -> List.length c = List.length m ->
  get_col i (set_col i c m) = c.
Proof.
  unfold rectangular, get_col, set_col. intros H Hi. revert c.
  induction H as [|row m Hrow _ IH]; intros [|v c]; simpl; intros Hlen; try lia.
  - reflexivity.
  - rewrite nth_set_nth_same by lia. f_equal. apply IH. lia.
Qed.

Lemma get_col_set_col_other (i j : nat) (c : array) (m : matrix) :
  i <> j -> List.length c = List.length m ->
  get_col j (set_col i c m) = get_col j m.
Proof.
  unfold get_col, set_col. intros Hij. revert c.
  induction m as [|row m IH]; intros [|v c]; simpl; intros Hlen; try lia.
  - reflexivity.
  - rewrite nth_set_nth_other by exact Hij. f_equal. apply IH. lia.
Qed.

Lemma length_get_col (i : nat) (m : matrix) : List.length (get_col i m) = List.length m.
Proof. apply length_map. Qed.

(** The loop over the columns [cols]: every listed column is replaced by
    its normalised column, the other columns stay. *)
Lemma featureNorm_loop_spec (n : nat) (cols : list nat) :
  NoDup cols -> (forall i, In i cols -> (i < n)%nat) ->
  forall m : matrix,
    rectangular n m ->
    (forall i, In i cols -> is_ok (norm_column (get_col i m)) = true) ->
    exists m' : matrix,
      featureNorm_loop cols m = Ok m'
      /\ rectangular n m'
      /\ List.length m' = List.length m
      /\ (forall j, In j cols -> norm_column (get_col j m) = Ok (get_col j m'))
      /\ (forall j, ~ In j cols -> get_col j m' = get_col j m).
Proof.
  induction 1 as [|i cols Hni Hnd IH]; intros Hlt m Hrect Hok.
  - exists m. simpl. repeat split; tauto.
  - cbn [featureNorm_loop].
    destruct (norm_column (get_col i m)) as [c|e] eqn:Hc.
    2:{ specialize (Hok i (or_introl eq_refl)). rewrite Hc in Hok. discriminate Hok. }
    cbn [bind].
    assert (Hlen : List.length c = List.length m).
    { rewrite (norm_column_length _ _ Hc). apply length_get_col. }
    assert (Hi : (i < n)%nat) by (apply Hlt; left; reflexivity).
    destruct (IH (fun j Hj => Hlt j (or_intror Hj)) (set_col i c m)
                 (rectangular_set_col n i c m Hrect))
      as (m' & Hrun & Hrect' & Hlen' & Hin & Hout).
    { intros j Hj.
      rewrite get_col_set_col_other; [|intros ->; contradiction|exact Hlen].
      apply Hok. right. exact Hj. }
    exists m'. split; [exact Hrun|]. split; [exact Hrect'|].
    split; [rewrite Hlen'; apply length_set_col; exact Hlen|].
    split.
    + intros j [<-|Hj].
      * rewrite (Hout i Hni).
        rewrite (get_col_set_col_same n i c m Hrect Hi Hlen). exact Hc.
      * rewrite <- (Hin j Hj).
        rewrite get_col_set_col_other; [reflexivity|intros ->; contradiction|exact Hlen].
    + intros j Hj.
      rewrite (Hout j (fun H => Hj (or_intror H))).
      apply get_col_set_col_other; [|exact Hlen].
      intros ->. apply Hj. left. reflexivity.
Qed.

End FeatureNorm.

Section FeatureNormColumns.

Import Np Features.
Local Open Scope R_scope.

Lemma norm_column_ok (col : array) :
  (forall x, In x col -> x = NaN) \/ (exists r, In (Fin r) col) ->
  is_ok (norm_column col) = true.
Proof.
  intros [H|[r Hr]].
  - rewrite (norm_column_all_nan col H). reflexivity.
  - unfold norm_column. rewrite (forallb_isnan_fin col r Hr).
    apply In_fin_filter in Hr.
    destruct (filter isfinite col) as [|x l]; [contradiction Hr|].
    reflexivity.
Qed.

Lemma in_constant_map (col : array) (v x : npfloat) :
  In x (map (fun _ => v) col) -> x = v.
Proof.
  intros H. apply in_map_iff in H. destruct H as (y & Hy & _). symmetry. exact Hy.
Qed.



End FeatureNormColumns.


(* ===================================================================== *)
(** ** Further facts on concrete inputs *)

Section Downward.

Import Np Refraction.
Local Open Scope R_scope.

(** A vector that points downwards has an incidence angle beyond [PI/2]:
    with a refraction index of one the arcsine folds it back and the depth
    changes sign. *)
Lemma spec_depth_true_downward (x y z d : R) :
  R_sqrt.sqrt (x * x + y * y) + y <> 0 -> z < 0 ->
  spec_depth_true (Fin 1) (Fin d) (V3 (Fin x) (Fin y) (Fin z)) = Fin (- d).
Proof.
  intros H Hz.
  pose proof (norm3_pos x y z H) as HN.
  pose proof (norm_ratio_bounds x y z HN) as Hb.
  assert (Hq : z / R_sqrt.sqrt (x * x + y * y + z * z) < 0).
  { unfold Rdiv. pose proof (Rinv_0_lt_compat _ HN). nra. }
  unfold spec_depth_true, spec_theta_true.
  rewrite (spec_theta_app_fin x y z HN). cbn [sin cos mul].
  rewrite div_fin by lra.
  pose proof (acos_bound (z / R_sqrt.sqrt (x * x + y * y + z * z))) as [H0 Hpi].
  pose proof (cos_acos _ Hb) as Hcos.
  set (th := acos (z / R_sqrt.sqrt (x * x + y * y + z * z))) in *.
  assert (Hth : PI / 2 < th).
  { destruct (Rlt_dec (PI / 2) th) as [Hlt|Hge]; [exact Hlt|]. exfalso.
    assert (0 <= Rtrigo_def.cos th) by (apply cos_ge_0; pose proof PI_RGT_0; lra).
    lra. }
  replace (Rtrigo_def.sin th / 1) with (Rtrigo_def.sin (PI - th))
    by (rewrite sin_PI_x; field).
  rewrite arcsin_fin by (pose proof (SIN_bound (PI - th)); lra).
  rewrite asin_sin by (pose proof PI_RGT_0; lra).
  cbn [cos mul]. rewrite Rtrigo_facts.cos_pi_minus, Hcos.
  rewrite div_fin by lra.
  f_equal. field. lra.
Qed.

Lemma downward_denominator : R_sqrt.sqrt (0 * 0 + 1 * 1) + 1 <> 0.
Proof. pose proof (sqrt_pos (0 * 0 + 1 * 1)). lra. Qed.

End Downward.

(** With a refraction index of one, the depth of a shot that points
    downwards comes back with the opposite sign. *)
Lemma correction3D_downward_flips_depth :
  exists coords : list Np.vec3,
    Refraction.correction3D [Refraction.origin] [Np.Fin 1] [] [Refraction.downward]
      (Np.Fin 1)
    = Ok (coords, [Np.Fin (- 1)]).
Proof.
  pose (rows := [Refraction.Shot Refraction.origin (Np.Fin 1) Refraction.downward]).
  assert (Hrun := correction3D_of_vectors rows Refraction.s_datum [] [Refraction.downward]
                    (Np.Fin 1) eq_refl).
  change (map Refraction.s_app rows) with [Refraction.origin] in Hrun.
  change (map Refraction.s_depth rows) with [Np.Fin 1] in Hrun.
  rewrite Hrun. unfold rows.
  cbn [map Refraction.s_app Refraction.s_depth Refraction.s_datum].
  unfold Refraction.downward.
  rewrite (spec_depth_true_downward 0 1 (-1) 1 downward_denominator) by lra.
  eexists. reflexivity.
Qed.

(** The dictionary of [searchingLines] on three tiles, in the order in which
    the files are found. *)
Example searchingLines_three_tiles :
  Tiling.linesDict
    (fst (snd (Tiling.searchingLines (sys := Tiling.flat_system)
       (Tiling.Object "/d/" 50 (split_XX "tile_XX.laz") None,
        Tiling.World Tiling.three_tiles [] []))))
  = Some [ (1%N, ["A.laz"; "C.laz"]%string);
           (2%N, ["A.laz"; "B.laz"]%string);
           (3%N, ["B.laz"]%string) ].
Proof. vm_compute. reflexivity. Qed.

(* ===================================================================== *)
(** * Further properties of the code *)

(* ===================================================================== *)
(** ** Reverse tiling: the scan *)

Section UniqueFacts.

Import Tiling Lines.

Lemma insert_unique_In (x y : N) (l : list N) :
  In y (insert_unique x l) <-> y = x \/ In y l.
Proof.
  induction l as [|z l IH]; simpl.
  - intuition.
  - destruct (N.ltb_spec x z).
    + simpl. intuition.
    + destruct (N.eqb_spec x z).
      * subst z. simpl. intuition.
      * simpl. rewrite IH. intuition.
Qed.

Lemma insert_unique_sorted (x : N) (l : list N) :
  StronglySorted N.lt l -> StronglySorted N.lt (insert_unique x l).
Proof.
  induction 1 as [|z l Hs IH Hz]; simpl.
  - constructor; constructor.
  - destruct (N.ltb_spec x z).
    + constructor; [constructor; assumption|].
      constructor; [assumption|].
      rewrite Forall_forall in Hz |- *. intros y Hy. specialize (Hz y Hy). lia.
    + destruct (N.eqb_spec x z).
      * constructor; assumption.
      * constructor; [exact IH|].
        rewrite Forall_forall in Hz |- *. intros y Hy.
        apply insert_unique_In in Hy. destruct Hy as [->|Hy]; [lia|auto].
Qed.

Lemma sorted_lt_NoDup (l : list N) : StronglySorted N.lt l -> NoDup l.
Proof.
  induction 1 as [|z l _ IH Hz]; constructor; [|exact IH].
  intros Hin. rewrite Forall_forall in Hz. specialize (Hz z Hin). lia.
Qed.

Lemma unique_sorted_values (l : list N) :
  StronglySorted N.lt (unique l)
  /\ NoDup (unique l)
  /\ forall x, In x (unique l) <-> In x l.
Proof.
  assert (Hs : StronglySorted N.lt (unique l)).
  { induction l as [|x l IH]; simpl; [constructor|].
    apply insert_unique_sorted. exact IH. }
  split; [exact Hs|]. split.
  - apply sorted_lt_NoDup. exact Hs.
  - clear Hs. induction l as [|y l IH]; intros x; simpl; [tauto|].
    rewrite insert_unique_In, IH. intuition congruence.
Qed.

End UniqueFacts.

Section DictFacts.

Import Tiling Lines.
Local Open Scope string_scope.

Lemma entries_dict_add (c c' : N) (name : string) (d : dict) :
  entries c (dict_add c' name d)
  = if (c' =? c)%N then (entries c d ++ [name])%list else entries c d.
Proof.
  induction d as [|[k v] d IH]; simpl.
  - destruct (N.eqb_spec c' c); reflexivity.
  - destruct (N.eqb_spec k c') as [->|Hk]; simpl.
    + destruct (N.eqb_spec c' c); reflexivity.
    + destruct (N.eqb_spec k c) as [->|Hc].
      * destruct (N.eqb_spec c' c); [congruence|reflexivity].
      * exact IH.
Qed.

Lemma keys_dict_add (c : N) (name : string) (d : dict) :
  keys (dict_add c name d) = if existsb (N.eqb c) (keys d) then keys d
                             else (keys d ++ [c])%list.
Proof.
  unfold keys.
  induction d as [|[k v] d IH]; simpl; [reflexivity|].
  destruct (N.eqb_spec k c) as [->|Hk]; simpl.
  - rewrite N.eqb_refl. reflexivity.
  - destruct (N.eqb_spec c k); [congruence|]. simpl. rewrite IH.
    destruct (existsb (N.eqb c) (map fst d)); reflexivity.
Qed.

Lemma existsb_eqb_In (c : N) (l : list N) : existsb (N.eqb c) l = true <-> In c l.
Proof.
  rewrite existsb_exists. split.
  - intros (x & Hx & E). apply N.eqb_eq in E. subst. exact Hx.
  - intros H. exists c. split; [exact H|apply N.eqb_refl].
Qed.

Lemma NoDup_keys_dict_add (c : N) (name : string) (d : dict) :
  NoDup (keys d) -> NoDup (keys (dict_add c name d)).
Proof.
  intros H. rewrite keys_dict_add.
  destruct (existsb (N.eqb c) (keys d)) eqn:E; [exact H|].
  apply NoDup_app; [exact H|constructor; [simpl; tauto|constructor]|].
  intros x Hx [<-|[]].
  apply existsb_eqb_In in Hx. congruence.
Qed.

Lemma full_dict_add (c : N) (name : string) (d : dict) :
  full d -> full (dict_add c name d).
Proof.
  unfold full. induction 1 as [|[k v] d Hv Hd IH]; simpl.
  - constructor; [discriminate|constructor].
  - destruct (N.eqb_spec k c).
    + constructor; [|assumption]. simpl. destruct v; discriminate.
    + constructor; assumption.
Qed.

Lemma dict_get_entries (c : N) (d : dict) :
  full d ->
  dict_get c d = match entries c d with
                 | [] => Raise (KeyError (str_N c))
                 | v => Ok v
                 end.
Proof.
  unfold full. induction 1 as [|[k v] d Hv _ IH]; simpl; [reflexivity|].
  destruct (N.eqb_spec k c); [|exact IH].
  simpl in Hv. destruct v; [contradiction Hv; reflexivity|reflexivity].
Qed.

(** The inner loop of [searchingLines]: one file, its identifiers. *)
Lemma inner_loop_spec (name : string) (ids : list N) :
  NoDup ids ->
  forall d : dict,
    let d' := fold_left (fun d0 c => dict_add c name d0) ids d in
    (forall c, entries c d'
               = if has_id c ids then (entries c d ++ [name])%list else entries c d)
    /\ (NoDup (keys d) -> NoDup (keys d'))
    /\ (full d -> full d').
Proof.
  induction 1 as [|c0 ids Hni Hnd IH]; intros d; simpl.
  - repeat split; auto.
  - destruct (IH (dict_add c0 name d)) as (He & Hk & Hf).
    split; [|split].
    + intros c. rewrite He, entries_dict_add. unfold has_id. simpl.
      destruct (N.eqb_spec c c0) as [->|Hc].
      * rewrite N.eqb_refl. simpl.
        destruct (existsb (N.eqb c0) ids) eqn:E; [|reflexivity].
        apply existsb_eqb_In in E. contradiction.
      * destruct (N.eqb_spec c0 c); [congruence|]. reflexivity.
    + intros H. apply Hk, NoDup_keys_dict_add, H.
    + intros H. apply Hf, full_dict_add, H.
Qed.

Lemma outer_loop_spec (res : list (string * list N)) :
  Forall (fun r => NoDup (snd r)) res ->
  forall d : dict,
    let d' := fold_left
                (fun d0 i => fold_left (fun d1 c => dict_add c (fst i) d1) (snd i) d0)
                res d in
    (forall c, entries c d' = (entries c d ++ files_with c res)%list)
    /\ (NoDup (keys d) -> NoDup (keys d'))
    /\ (full d -> full d').
Proof.
  induction 1 as [|[name ids] res Hids _ IH]; intros d; simpl.
  - split; [intros c; symmetry; apply app_nil_r|auto].
  - destruct (inner_loop_spec name ids Hids d) as (He1 & Hk1 & Hf1).
    destruct (IH (fold_left (fun d1 c => dict_add c name d1) ids d)) as (He & Hk & Hf).
    split; [|split].
    + intros c. rewrite He, He1. unfold files_with. simpl.
      destruct (has_id c ids); simpl; [rewrite <- app_assoc|]; reflexivity.
    + intros H. apply Hk, Hk1, H.
    + intros H. apply Hf, Hf1, H.
Qed.

Lemma build_linesDict_spec (res : list (string * list N)) :
  Forall (fun r => NoDup (snd r)) res ->
  NoDup (keys (build_linesDict res))
  /\ forall c : N,
       dict_get c (build_linesDict res)
       = match files_with c res with
         | [] => Raise (KeyError (str_N c))
         | files => Ok files
         end.
Proof.
  intros H. unfold build_linesDict.
  destruct (outer_loop_spec res H []) as (He & Hk & Hf).
  split; [apply Hk; constructor|].
  intros c. rewrite dict_get_entries by (apply Hf; constructor).
  rewrite He. reflexivity.
Qed.

End DictFacts.

Section ScanFacts.

Import Tiling Lines.
Local Open Scope string_scope.

Context {FS : Type} {sys : System FS}.

Lemma get_ptSrcId_spec (filename : string) (o : object) (w : world FS) :
  _get_ptSrcId filename (o, w)
  = match sys_pt_src_id (workspace o ++ filename) (fs w) with
    | Ok ids => (Ok (filename, unique ids), (o, w))
    | Raise e => (Raise e, (o, w))
    end.
Proof. reflexivity. Qed.

Lemma parallel_map_ok (ids : string -> list N) (o : object) (w : world FS)
    (names : list string) :
  (forall n, In n names -> sys_pt_src_id (workspace o ++ n) (fs w) = Ok (ids n)) ->
  parallel_map names (o, w)
  = (Ok (map (fun n => (n, unique (ids n))) names), (o, w)).
Proof.
  induction names as [|n names IH]; intros H; [reflexivity|].
  cbn [parallel_map]. unfold bindM at 1. rewrite get_ptSrcId_spec.
  rewrite (H n (or_introl eq_refl)).
  unfold bindM at 1. rewrite IH by (intros m Hm; apply H; right; exact Hm).
  reflexivity.
Qed.

Lemma parallel_map_fails (o : object) (w : world FS) (names : list string) :
  (exists n, In n names /\ is_ok (sys_pt_src_id (workspace o ++ n) (fs w)) = false) ->
  exists e, parallel_map names (o, w) = (Raise e, (o, w)).
Proof.
  induction names as [|n names IH]; intros (m & Hm & Hfail); [contradiction Hm|].
  cbn [parallel_map]. unfold bindM at 1. rewrite get_ptSrcId_spec.
  destruct (sys_pt_src_id (workspace o ++ n) (fs w)) as [ids|e] eqn:E.
  - destruct Hm as [->|Hm]; [rewrite E in Hfail; discriminate Hfail|].
    destruct (IH (ex_intro _ m (conj Hm Hfail))) as [e He].
    unfold bindM at 1. rewrite He. exists e. reflexivity.
  - exists e. reflexivity.
Qed.

Lemma has_id_unique (c : N) (ids : list N) : has_id c (unique ids) = has_id c ids.
Proof.
  unfold has_id.
  destruct (existsb (N.eqb c) ids) eqn:E.
  - apply existsb_eqb_In. apply existsb_eqb_In in E.
    apply (proj2 (proj2 (unique_sorted_values ids))). exact E.
  - destruct (existsb (N.eqb c) (unique ids)) eqn:E'; [|reflexivity].
    apply existsb_eqb_In in E'.
    apply (proj2 (proj2 (unique_sorted_values ids))) in E'.
    apply existsb_eqb_In in E'. congruence.
Qed.

Lemma files_with_scan (c : N) (ids : string -> list N) (names : list string) :
  files_with c (map (fun n => (n, unique (ids n))) names)
  = filter (fun n => has_id c (ids n)) names.
Proof.
  unfold files_with. induction names as [|n names IH]; simpl; [reflexivity|].
  rewrite has_id_unique. destruct (has_id c (ids n)); simpl; rewrite IH; reflexivity.
Qed.

(** The run of [searchingLines] when every tile can be read. *)
Lemma searchingLines_run (ids : string -> list N) (o : object) (w : world FS) :
  let names := map basename (sys_glob (workspace o ++ "*.laz") (fs w)) in
  (forall n, In n names -> sys_pt_src_id (workspace o ++ n) (fs w) = Ok (ids n)) ->
  searchingLines (o, w)
  = (Ok tt,
     (Object (workspace o) (cores o) (motif o)
        (Some (build_linesDict (map (fun n => (n, unique (ids n))) names))), w)).
Proof.
  intros names Hread.
  unfold searchingLines. unfold bindM at 1. unfold self at 1. cbv beta iota.
  unfold bindM at 1. unfold glob at 1. cbv beta iota. simpl fst. simpl snd.
  fold names. unfold bindM at 1.
  rewrite (parallel_map_ok ids o w names Hread).
  reflexivity.
Qed.

(** X1. When every tile of the workspace can be read, [searchingLines]
    changes nothing but [linesDict], and afterwards the dictionary holds
    under every identifier exactly the tiles with a point of that
    identifier, in the order in which [glob] found them; an identifier
    that no tile holds is not a key. *)
Theorem searchingLines_indexes_every_tile
    (ids : string -> list N) (o : object) (w : world FS) :
  let names := map basename (sys_glob (workspace o ++ "*.laz") (fs w)) in
  (forall n, In n names -> sys_pt_src_id (workspace o ++ n) (fs w) = Ok (ids n)) ->
  exists d : dict,
    searchingLines (o, w)
    = (Ok tt, (Object (workspace o) (cores o) (motif o) (Some d), w))
    /\ NoDup (keys d)
    /\ forall c : N,
         dict_get c d
         = match filter (fun n => has_id c (ids n)) names with
           | [] => Raise (KeyError (str_N c))
           | files => Ok files
           end.
Proof.
  intros names Hread.
  exists (build_linesDict (map (fun n => (n, unique (ids n))) names)).
  assert (Hnd : Forall (fun r : string * list N => NoDup (snd r))
                  (map (fun n => (n, unique (ids n))) names)).
  { apply Forall_forall. intros r Hr. apply in_map_iff in Hr.
    destruct Hr as (n & <- & _). apply unique_sorted_values. }
  destruct (build_linesDict_spec _ Hnd) as [Hk Hget].
  split; [|split; [exact Hk|]].
  - apply (searchingLines_run ids o w Hread).
  - intros c. rewrite Hget, files_with_scan. reflexivity.
Qed.

(** X2. When a tile cannot be read, [searchingLines] raises and leaves the
    object and the world as they were: no partial dictionary is stored. *)
Theorem searchingLines_unreadable_tile (o : object) (w : world FS) :
  (exists n, In n (map basename (sys_glob (workspace o ++ "*.laz") (fs w)))
             /\ is_ok (sys_pt_src_id (workspace o ++ n) (fs w)) = false) ->
  exists e, searchingLines (o, w) = (Raise e, (o, w)).
Proof.
  intros H. destruct (parallel_map_fails o w _ H) as [e He].
  exists e.
  unfold searchingLines. unfold bindM at 1. unfold self at 1. cbv beta iota.
  unfold bindM at 1. unfold glob at 1. cbv beta iota. simpl fst. simpl snd.
  unfold bindM at 1. rewrite He. reflexivity.
Qed.

End ScanFacts.

Section MergeFacts.

Import Tiling Lines.
Local Open Scope string_scope.

Context {FS : Type} {sys : System FS}.

Lemma dict_get_In (d : dict) (k : N) (v : list string) :
  NoDup (keys d) -> In (k, v) d -> dict_get k d = Ok v.
Proof.
  unfold keys. induction d as [|[k0 v0] d IH]; simpl; intros Hnd Hin; [contradiction|].
  inversion Hnd as [|? ? Hni Hnd']; subst.
  destruct Hin as [E|Hin].
  - injection E as -> ->. rewrite N.eqb_refl. reflexivity.
  - destruct (N.eqb_spec k0 k) as [->|_].
    + exfalso. apply Hni. apply in_map_iff. exists (k, v). split; [reflexivity|exact Hin].
    + apply IH; assumption.
Qed.

Lemma bindM_ok {S A B} (m : M S A) (k : A -> M S B) (s s' : S) (a : A) :
  m s = (Ok a, s') -> bindM m k s = k a s'.
Proof. intros H. unfold bindM. rewrite H. reflexivity. Qed.

Lemma bindM_raise {S A B} (m : M S A) (k : A -> M S B) (s s' : S) (e : exn) :
  m s = (Raise e, s') -> bindM m k s = (Raise e, s').
Proof. intros H. unfold bindM. rewrite H. reflexivity. Qed.

Lemma self_spec (o : object) (w : world FS) : self (o, w) = (Ok o, (o, w)).
Proof. reflexivity. Qed.

Lemma get_linesDict_spec (o : object) (w : world FS) (d : dict) :
  linesDict o = Some d -> get_linesDict (o, w) = (Ok d, (o, w)).
Proof.
  intros H. unfold get_linesDict. rewrite (bindM_ok _ _ _ _ _ (self_spec o w)).
  rewrite H. reflexivity.
Qed.

Lemma output_name_two (m0 m1 : string) (rest : list string) (k : N) (maxLen : nat) :
  output_name (m0 :: m1 :: rest) k maxLen
  = Ok (m0 ++ zeros (Z.of_nat maxLen - Z.of_nat (String.length (str_N k)))
           ++ drop_last 2 (str_N k) ++ m1).
Proof. reflexivity. Qed.

(** One call of [_mergeLines] for an entry of the dictionary. *)
Lemma mergeLines_spec (o : object) (w : world FS) (d : dict) (m0 m1 : string)
    (rest : list string) (maxLen : nat) (k : N) (v : list string) :
  motif o = m0 :: m1 :: rest -> linesDict o = Some d -> dict_get k d = Ok v ->
  _mergeLines k maxLen (o, w)
  = let cmd := merge_command (workspace o) m0 m1 maxLen (k, v) in
    match sys_tool cmd (fs w) with
    | Ok fs' => (Ok tt, (o, World fs' (commands w ++ [cmd])%list (stdout w)))
    | Raise e => (Raise e, (o, World (fs w) (commands w ++ [cmd])%list (stdout w)))
    end.
Proof.
  intros Hm Hd Hk.
  unfold _mergeLines.
  rewrite (bindM_ok _ _ _ _ _ (self_spec o w)).
  rewrite (bindM_ok _ _ _ _ _ (get_linesDict_spec o w d Hd)).
  unfold lift at 1. rewrite Hk.
  rewrite (bindM_ok _ _ (o, w) (o, w) v eq_refl).
  rewrite Hm, output_name_two.
  unfold lift at 1.
  rewrite (bindM_ok _ _ (o, w) (o, w) _ eq_refl).
  rewrite Run_spec. reflexivity.
Qed.

Lemma print_spec (text e : string) (o : object) (w : world FS) :
  print text e (o, w)
  = (Ok tt, (o, World (fs w) (commands w) (stdout w ++ [(text ++ e)%string])%list)).
Proof. reflexivity. Qed.

(** The loop of [writingLines] over entries of the dictionary, while the
    tool succeeds. *)
Lemma merge_loop_ok (o : object) (d : dict) (m0 m1 : string) (rest : list string)
    (maxLen : nat) :
  (forall q f, is_ok (sys_tool q f) = true) ->
  motif o = m0 :: m1 :: rest -> linesDict o = Some d ->
  forall (items : dict) (w : world FS),
    (forall kv, In kv items -> dict_get (fst kv) d = Ok (snd kv)) ->
    exists w' : world FS,
      for_each (keys items)
        (fun i => bindM (print (str_N i) newline) (fun _ => _mergeLines i maxLen))
        (o, w)
      = (Ok tt, (o, w'))
      /\ commands w'
         = (commands w ++ map (merge_command (workspace o) m0 m1 maxLen) items)%list.
Proof.
  intros Htool Hm Hd. induction items as [|[k v] items IH]; intros w Hget.
  - exists w. split; [reflexivity|]. simpl. rewrite app_nil_r. reflexivity.
  - change (keys ((k, v) :: items)) with (k :: keys items).
    cbn [for_each].
    pose (w1 := World (fs w) (commands w) (stdout w ++ [(str_N k ++ newline)%string])%list).
    pose (cmd := merge_command (workspace o) m0 m1 maxLen (k, v)).
    specialize (Htool cmd (fs w)).
    destruct (sys_tool cmd (fs w)) as [fs'|e] eqn:Ht; [|discriminate Htool].
    pose (w2 := World fs' (commands w ++ [cmd])%list (stdout w1)).
    assert (Hstep : bindM (print (str_N k) newline) (fun _ => _mergeLines k maxLen) (o, w)
                    = (Ok tt, (o, w2))).
    { rewrite (bindM_ok _ _ _ _ _ (print_spec (str_N k) newline o w)).
      rewrite (mergeLines_spec o _ d m0 m1 rest maxLen k v Hm Hd
                 (Hget (k, v) (or_introl eq_refl))).
      cbv zeta. cbn [fs commands stdout]. fold cmd. rewrite Ht. reflexivity. }
    rewrite (bindM_ok _ _ _ _ _ Hstep).
    destruct (IH w2) as (w' & Hrun & Hcmd).
    { intros kv Hkv. apply Hget. right. exact Hkv. }
    exists w'. split; [exact Hrun|].
    rewrite Hcmd. unfold w2. cbn [commands map]. rewrite <- app_assoc. reflexivity.
Qed.

Lemma py_max_spec (l : list N) :
  l <> [] ->
  exists m, Tiling.py_max l = Ok m /\ In m l /\ forall k, In k l -> (k <= m)%N.
Proof.
  destruct l as [|x l]; [intros H; contradiction H; reflexivity|intros _].
  unfold Tiling.py_max.
  assert (H : forall l0 cur,
             let m := fold_left (fun cur y => if (cur <? y)%N then y else cur) l0 cur in
             (m = cur \/ In m l0) /\ (cur <= m)%N /\ forall k, In k l0 -> (k <= m)%N).
  { induction l0 as [|y l0 IH]; intros cur; simpl.
    - split; [left; reflexivity|]. split; [lia|tauto].
    - destruct (N.ltb_spec cur y) as [Hlt|Hge].
      + destruct (IH y) as (Hin & Hle & Hall).
        split; [right; destruct Hin as [->|Hin]; [left; reflexivity|right; exact Hin]|].
        split; [lia|]. intros k [<-|Hk]; [exact Hle|apply Hall, Hk].
      + destruct (IH cur) as (Hin & Hle & Hall).
        split; [destruct Hin as [->|Hin]; [left; reflexivity|right; right; exact Hin]|].
        split; [exact Hle|]. intros k [<-|Hk]; [lia|apply Hall, Hk]. }
  destruct (H l x) as (Hin & Hle & Hall).
  eexists. split; [reflexivity|]. split.
  - destruct Hin as [->|Hin]; [left; reflexivity|right; exact Hin].
  - intros k [<-|Hk]; [exact Hle|apply Hall, Hk].
Qed.

(** The run of [writingLines] without buffer while the tool succeeds. *)
Lemma writingLines_run
    (o : object) (w : world FS) (d : dict) (m0 m1 : string) (rest : list string) :
  (forall q f, is_ok (sys_tool q f) = true) ->
  motif o = m0 :: m1 :: rest -> linesDict o = Some d ->
  d <> [] -> NoDup (keys d) ->
  exists (m : N) (w' : world FS),
    In m (keys d) /\ (forall k, In k (keys d) -> (k <= m)%N)
    /\ writingLines false (o, w) = (Ok tt, (o, w'))
    /\ commands w'
       = (commands w
          ++ map (merge_command (workspace o) m0 m1 (String.length (str_N m))) d)%list.
Proof.
  intros Htool Hm Hd Hne Hnd.
  assert (Hk : keys d <> []) by (destruct d; [contradiction Hne; reflexivity|discriminate]).
  destruct (py_max_spec (keys d) Hk) as (m & Hmax & Hin & Hall).
  destruct (merge_loop_ok o d m0 m1 rest (String.length (str_N m)) Htool Hm Hd d w)
    as (w' & Hrun & Hcmd).
  { intros [k v] Hkv. apply dict_get_In; assumption. }
  exists m, w'. split; [exact Hin|]. split; [exact Hall|]. split; [|exact Hcmd].
  unfold writingLines.
  rewrite (bindM_ok _ _ _ _ _ (get_linesDict_spec o w d Hd)).
  unfold lift at 1. rewrite Hmax.
  rewrite (bindM_ok _ _ (o, w) (o, w) m eq_refl).
  rewrite (bindM_ok _ _ _ _ _ Hrun). reflexivity.
Qed.

(** X3. While the external tool succeeds, [writingLines] (without buffer)
    hands it exactly one merge command per identifier of the dictionary, in
    the order of the keys; each command merges the files of its identifier
    and keeps the points of that identifier only, and all names are padded
    for the width of the largest identifier. *)
Theorem writingLines_one_merge_per_identifier
    (o : object) (w : world FS) (d : dict) (m0 m1 : string) (rest : list string) :
  (forall q f, is_ok (sys_tool q f) = true) ->
  motif o = m0 :: m1 :: rest -> linesDict o = Some d ->
  d <> [] -> NoDup (keys d) ->
  exists (m : N) (w' : world FS),
    In m (keys d) /\ (forall k, In k (keys d) -> (k <= m)%N)
    /\ writingLines false (o, w) = (Ok tt, (o, w'))
    /\ commands w'
       = (commands w
          ++ map (merge_command (workspace o) m0 m1 (String.length (str_N m))) d)%list.
Proof.
  intros Htool Hm Hd Hne Hnd.
  assert (Hk : keys d <> []) by (destruct d; [contradiction Hne; reflexivity|discriminate]).
  destruct (py_max_spec (keys d) Hk) as (m & Hmax & Hin & Hall).
  destruct (merge_loop_ok o d m0 m1 rest (String.length (str_N m)) Htool Hm Hd d w)
    as (w' & Hrun & Hcmd).
  { intros [k v] Hkv. apply dict_get_In; assumption. }
  exists m, w'. split; [exact Hin|]. split; [exact Hall|]. split; [|exact Hcmd].
  unfold writingLines.
  rewrite (bindM_ok _ _ _ _ _ (get_linesDict_spec o w d Hd)).
  unfold lift at 1. rewrite Hmax.
  rewrite (bindM_ok _ _ (o, w) (o, w) m eq_refl).
  rewrite (bindM_ok _ _ _ _ _ Hrun). reflexivity.
Qed.

(** X4. When the external tool fails on the merge of the first identifier,
    [writingLines] raises that failure at once: the one command is all that
    was handed to the tool, and no other identifier is merged. *)
Theorem writingLines_stops_at_tool_failure
    (buffer : bool) (o : object) (w : world FS) (d : dict) (k m : N) (v : list string)
    (m0 m1 : string) (rest : list string) (e : exn) :
  motif o = m0 :: m1 :: rest -> linesDict o = Some ((k, v) :: d) ->
  Tiling.py_max (keys ((k, v) :: d)) = Ok m ->
  sys_tool (merge_command (workspace o) m0 m1 (String.length (str_N m)) (k, v)) (fs w)
  = Raise e ->
  exists w' : world FS,
    writingLines buffer (o, w) = (Raise e, (o, w'))
    /\ commands w'
       = (commands w
          ++ [merge_command (workspace o) m0 m1 (String.length (str_N m)) (k, v)])%list
    /\ fs w' = fs w.
Proof.
  intros Hm Hd Hmax Hfail.
  eexists.
  unfold writingLines.
  rewrite (bindM_ok _ _ _ _ _ (get_linesDict_spec o w _ Hd)).
  unfold lift at 1. rewrite Hmax.
  rewrite (bindM_ok _ _ (o, w) (o, w) m eq_refl).
  change (keys ((k, v) :: d)) with (k :: keys d). cbn [for_each].
  assert (Hstep : bindM (print (str_N k) newline)
                    (fun _ => _mergeLines k (String.length (str_N m))) (o, w)
                  = (Raise e,
                     (o, World (fs w)
                           (commands w ++ [merge_command (workspace o) m0 m1
                                             (String.length (str_N m)) (k, v)])%list
                           (stdout w ++ [(str_N k ++ newline)%string])%list))).
  { rewrite (bindM_ok _ _ _ _ _ (print_spec (str_N k) newline o w)).
    rewrite (mergeLines_spec o _ ((k, v) :: d) m0 m1 rest _ k v Hm Hd)
      by (simpl; rewrite N.eqb_refl; reflexivity).
    cbv zeta. cbn [fs commands stdout]. rewrite Hfail. reflexivity. }
  rewrite (bindM_raise _ _ _ _ _ (bindM_raise _ _ _ _ _ Hstep)).
  split; [reflexivity|]. split; reflexivity.
Qed.

(** X5. With a template that has no ["XX"] ([motif] has a single piece),
    [writingLines] on a dictionary that is not empty raises [IndexError]
    while it builds the first name, before any command is handed to the
    tool. *)
Theorem writingLines_template_without_placeholder
    (buffer : bool) (o : object) (w : world FS) (d : dict) (piece : string) :
  motif o = [piece] -> linesDict o = Some d -> d <> [] ->
  exists w' : world FS,
    writingLines buffer (o, w)
    = (Raise (IndexError "list index out of range"), (o, w'))
    /\ commands w' = commands w /\ fs w' = fs w.
Proof.
  intros Hm Hd Hne.
  destruct d as [|[k v] d]; [contradiction Hne; reflexivity|].
  destruct (py_max_spec (keys ((k, v) :: d))) as (m & Hmax & _); [discriminate|].
  eexists.
  unfold writingLines.
  rewrite (bindM_ok _ _ _ _ _ (get_linesDict_spec o w _ Hd)).
  unfold lift at 1. rewrite Hmax.
  rewrite (bindM_ok _ _ (o, w) (o, w) m eq_refl).
  change (keys ((k, v) :: d)) with (k :: keys d). cbn [for_each].
  pose (w1 := World (fs w) (commands w) (stdout w ++ [(str_N k ++ newline)%string])%list).
  assert (Hstep : bindM (print (str_N k) newline)
                    (fun _ => _mergeLines k (String.length (str_N m))) (o, w)
                  = (Raise (IndexError "list index out of range"), (o, w1))).
  { rewrite (bindM_ok _ _ _ _ _ (print_spec (str_N k) newline o w)). fold w1.
    unfold _mergeLines.
    rewrite (bindM_ok _ _ _ _ _ (self_spec o w1)).
    rewrite (bindM_ok _ _ _ _ _ (get_linesDict_spec o w1 _ Hd)).
    unfold lift at 1. cbn [dict_get]. rewrite N.eqb_refl.
    rewrite (bindM_ok _ _ (o, w1) (o, w1) v eq_refl).
    rewrite Hm. reflexivity. }
  rewrite (bindM_raise _ _ _ _ _ (bindM_raise _ _ _ _ _ Hstep)).
  split; [reflexivity|]. split; reflexivity.
Qed.

End MergeFacts.

Section StringFacts.

Import Tiling Lines.
Local Open Scope string_scope.

(** The test that [split_XX_from] makes on the first characters. *)
Lemma split_XX_from_cons (cur : string) (c : ascii) (rest : string) :
  split_XX_from cur (String c rest)
  = if Ascii.eqb c "X"
    then match rest with
         | String c' rest' =>
             if Ascii.eqb c' "X" then cur :: split_XX_from EmptyString rest'
             else split_XX_from (cur ++ String c EmptyString) rest
         | EmptyString => split_XX_from (cur ++ String c EmptyString) rest
         end
    else split_XX_from (cur ++ String c EmptyString) rest.
Proof.
  destruct c as [[] [] [] [] [] [] [] []]; try reflexivity.
  destruct rest as [|c' rest']; [reflexivity|].
  destruct c' as [[] [] [] [] [] [] [] []]; reflexivity.
Qed.

Lemma string_append_assoc (a b c : string) : (a ++ b) ++ c = a ++ b ++ c.
Proof. induction a as [|x a IH]; simpl; [reflexivity|]. rewrite IH. reflexivity. Qed.

Lemma string_append_nil_r (a : string) : a ++ EmptyString = a.
Proof. induction a as [|x a IH]; simpl; [reflexivity|]. rewrite IH. reflexivity. Qed.

Lemma split_join_bounded (n : nat) :
  forall (s cur : string),
    (String.length s <= n)%nat ->
    split_XX_from cur s <> [] /\ join_XX (split_XX_from cur s) = cur ++ s.
Proof.
  induction n as [|n IH]; intros s cur Hlen.
  - destruct s; [|simpl in Hlen; lia]. simpl. split; [discriminate|].
    rewrite string_append_nil_r. reflexivity.
  - destruct s as [|c rest].
    + simpl. split; [discriminate|]. rewrite string_append_nil_r. reflexivity.
    + simpl in Hlen. rewrite split_XX_from_cons.
      assert (Hstep : split_XX_from (cur ++ String c EmptyString) rest <> []
                      /\ join_XX (split_XX_from (cur ++ String c EmptyString) rest)
                         = cur ++ String c rest).
      { destruct (IH rest (cur ++ String c EmptyString)) as [H1 H2]; [lia|].
        split; [exact H1|]. rewrite H2, string_append_assoc. reflexivity. }
      destruct (Ascii.eqb_spec c "X") as [->|_]; [|exact Hstep].
      destruct rest as [|c' rest']; [exact Hstep|].
      destruct (Ascii.eqb_spec c' "X") as [->|_]; [|exact Hstep].
      simpl in Hlen.
      destruct (IH rest' EmptyString) as [H1 H2]; [lia|].
      split; [discriminate|].
      destruct (split_XX_from EmptyString rest') as [|p ps] eqn:E;
        [contradiction H1; reflexivity|].
      change (join_XX (cur :: p :: ps)) with (cur ++ "XX" ++ join_XX (p :: ps)).
      rewrite H2. reflexivity.
Qed.

(** Joining the pieces of [split_XX] with ["XX"] gives the template
    back, and there is always at least one piece. *)
Lemma split_XX_join (s : string) :
  split_XX s <> [] /\ join_XX (split_XX s) = s.
Proof.
  exact (split_join_bounded (String.length s) s EmptyString (Nat.le_refl _)).
Qed.

Lemma basename_from_cons (cur : string) (c : ascii) (rest : string) :
  basename_from cur (String c rest)
  = if Ascii.eqb c "/" then basename_from EmptyString rest
    else basename_from (cur ++ String c EmptyString) rest.
Proof.
  destruct c as [[] [] [] [] [] [] [] []]; reflexivity.
Qed.

Lemma basename_from_no_slash (name cur : string) :
  no_slash name -> basename_from cur name = cur ++ name.
Proof.
  unfold no_slash. revert cur.
  induction name as [|c name IH]; intros cur H.
  - simpl. rewrite string_append_nil_r. reflexivity.
  - rewrite basename_from_cons. simpl in H.
    destruct (Ascii.eqb_spec c "/") as [->|_]; [exfalso; apply H; left; reflexivity|].
    rewrite IH by (intros Hin; apply H; right; exact Hin).
    apply string_append_assoc.
Qed.

Lemma basename_from_dir (dir name cur : string) :
  basename_from cur (dir ++ "/" ++ name) = basename_from EmptyString name.
Proof.
  revert cur. induction dir as [|c dir IH]; intros cur.
  - reflexivity.
  - change ((String c dir) ++ "/" ++ name) with (String c (dir ++ "/" ++ name)).
    rewrite basename_from_cons.
    destruct (Ascii.eqb c "/"); apply IH.
Qed.

(** X6. [basename] gives back the file name of a path made of a directory
    that ends with ["/"] and a name without ["/"]; so [workspace+filename]
    in [_get_ptSrcId] is the path that [glob] found, when the workspace ends
    with ["/"]. *)
Theorem basename_of_path (dir name : string) :
  no_slash name ->
  basename (dir ++ "/" ++ name) = name
  /\ (dir ++ "/") ++ basename ((dir ++ "/") ++ name) = (dir ++ "/") ++ name.
Proof.
  intros H.
  assert (E : basename (dir ++ "/" ++ name) = name).
  { unfold basename. rewrite basename_from_dir.
    apply (basename_from_no_slash name EmptyString H). }
  split; [exact E|].
  replace ((dir ++ "/") ++ name) with (dir ++ "/" ++ name)
    by (symmetry; apply string_append_assoc).
  rewrite E. apply string_append_assoc.
Qed.

Lemma drop_last_small (k : N) : (k < 100)%N -> drop_last 2 (str_N k) = EmptyString.
Proof.
  intros H.
  assert (Hall : forallb (fun n => String.eqb (drop_last 2 (str_N (N.of_nat n))) EmptyString)
                   (seq 0 100) = true) by (vm_compute; reflexivity).
  rewrite forallb_forall in Hall.
  specialize (Hall (N.to_nat k)).
  rewrite N2Nat.id in Hall.
  apply String.eqb_eq. apply Hall. apply in_seq. lia.
Qed.

(** X7. For every identifier below 100 the name built by [_mergeLines]
    carries no digit of the identifier: it is the prefix, the zero padding
    and the suffix; two such identifiers with as many digits get the same
    output name. *)
Theorem output_name_small_identifier
    (m0 m1 : string) (rest : list string) (maxLen : nat) (k k' : N) :
  (k < 100)%N -> (k' < 100)%N ->
  output_name (m0 :: m1 :: rest) k maxLen
  = Ok (m0 ++ zeros (Z.of_nat maxLen - Z.of_nat (String.length (str_N k))) ++ m1)
  /\ (String.length (str_N k) = String.length (str_N k') ->
      output_name (m0 :: m1 :: rest) k maxLen = output_name (m0 :: m1 :: rest) k' maxLen).
Proof.
  intros Hk Hk'. rewrite !output_name_two.
  rewrite (drop_last_small k Hk), (drop_last_small k' Hk').
  split; [reflexivity|]. intros ->. reflexivity.
Qed.

End StringFacts.

Section Constructor.

Import Tiling Lines.
Local Open Scope string_scope.

Context {FS : Type} {sys : System FS}.

(** X8. Without buffer, on a workspace whose tiles can all be read and hold
    at least one identifier, with a template that has its ["XX"] and a tool
    that succeeds, the constructor returns the object with the dictionary of
    the scan, never calls [lastile], and has handed to the tool exactly one
    merge command per identifier. *)
Theorem init_without_buffer (ids : string -> list N) (ws fileroot : string)
    (ncores : Z) (w : world FS) (m0 m1 : string) (rest : list string) :
  let names := map basename (sys_glob (ws ++ "*.laz") (fs w)) in
  let d := build_linesDict (map (fun n => (n, unique (ids n))) names) in
  (forall n, In n names -> sys_pt_src_id (ws ++ n) (fs w) = Ok (ids n)) ->
  (forall q f, is_ok (sys_tool q f) = true) ->
  split_XX fileroot = m0 :: m1 :: rest ->
  d <> [] ->
  exists (m : N) (w' : world FS),
    init ws fileroot false ncores w
    = (Ok (Object ws ncores (m0 :: m1 :: rest) (Some d)), w')
    /\ In m (keys d)
    /\ commands w'
       = (commands w ++ map (merge_command ws m0 m1 (String.length (str_N m))) d)%list.
Proof.
  intros names d Hread Htool Hsplit Hne.
  assert (Hnd : NoDup (keys d)).
  { apply build_linesDict_spec. apply Forall_forall. intros r Hr.
    apply in_map_iff in Hr. destruct Hr as (n & <- & _). apply unique_sorted_values. }
  unfold init, init_body. rewrite Hsplit.
  set (o0 := Object ws ncores (m0 :: m1 :: rest) None).
  set (o1 := Object ws ncores (m0 :: m1 :: rest) (Some d)).
  set (w0 := World (fs w) (commands w)
               (stdout w ++ [("[Reverse Tiling memory friendly]" ++ newline)%string])%list).
  rewrite (bindM_ok _ _ _ _ _ (print_spec "Remove buffer..." " " o0 w0)).
  set (w1 := World _ _ _).
  rewrite (bindM_ok (ret tt) _ (o0, w1) (o0, w1) tt eq_refl).
  rewrite (bindM_ok _ _ _ _ _ (print_spec "done !" newline o0 w1)).
  set (w2 := World _ _ _).
  rewrite (bindM_ok _ _ _ _ _ (print_spec "Searching flightlines..." " " o0 w2)).
  set (w3 := World _ _ _).
  assert (Hscan : searchingLines (o0, w3) = (Ok tt, (o1, w3))).
  { apply (searchingLines_run ids o0 w3). exact Hread. }
  rewrite (bindM_ok _ _ _ _ _ Hscan).
  rewrite (bindM_ok _ _ _ _ _ (print_spec "done !" newline o1 w3)).
  set (w4 := World _ _ _).
  rewrite (bindM_ok _ _ _ _ _ (print_spec "Writing flightlines..." EmptyString o1 w4)).
  set (w5 := World _ _ _).
  destruct (writingLines_run o1 w5 d m0 m1 rest Htool eq_refl eq_refl Hne Hnd)
    as (m & w6 & Hin & _ & Hrun & Hcmd).
  rewrite (bindM_ok _ _ _ _ _ Hrun).
  rewrite print_spec.
  exists m. eexists. split; [reflexivity|]. split; [exact Hin|].
  cbn [commands]. exact Hcmd.
Qed.

End Constructor.

(* ===================================================================== *)
(** ** KML export: arrays of the same length *)

Section KmlMore.

Import Kml KmlSpec.
Local Open Scope string_scope.

Variable Coord : Type.

Lemma for_fold_ext {S A B} (l : list A) (body1 body2 : A -> B -> M S B) :
  (forall i acc s, In i l -> body1 i acc s = body2 i acc s) ->
  forall acc s, for_fold l acc body1 s = for_fold l acc body2 s.
Proof.
  induction l as [|x l IH]; intros H acc s; [reflexivity|].
  cbn [for_fold]. unfold bindM.
  rewrite (H x acc s (or_introl eq_refl)).
  destruct (body2 x acc s) as [[a|e] s']; [|reflexivity].
  apply IH. intros i acc' s'' Hi. apply H. right. exact Hi.
Qed.

Lemma loop_body_tail (x : string) (names : list string) (d : string)
    (descriptions : list string) (c : Coord) (coordinates : list Coord)
    (i : string) (acc : list (placemark Coord)) (w : world Coord) :
  i <> x ->
  loop_body (x :: names) (d :: descriptions) (c :: coordinates) i acc w
  = loop_body names descriptions coordinates i acc w.
Proof.
  intros Hi. unfold loop_body, bindM, lift. cbn [index].
  destruct (String.eqb_spec x i) as [E|_]; [congruence|].
  destruct (index i names) as [k|e]; reflexivity.
Qed.

Lemma loop_distinct (names : list string) :
  NoDup names ->
  forall (descriptions : list string) (coordinates : list Coord),
    List.length descriptions = List.length names ->
    List.length coordinates = List.length names ->
    forall (acc : list (placemark Coord)) (w : world Coord),
      for_fold names acc (loop_body names descriptions coordinates) w
      = (Ok (acc ++ zip_points names descriptions coordinates)%list, w).
Proof.
  induction 1 as [|x names Hni Hnd IH]; intros descriptions coordinates Hd Hc acc w.
  - simpl. rewrite app_nil_r. reflexivity.
  - destruct descriptions as [|d descriptions]; [discriminate Hd|].
    destruct coordinates as [|c coordinates]; [discriminate Hc|].
    cbn [for_fold].
    assert (Hx : loop_body (x :: names) (d :: descriptions) (c :: coordinates) x acc w
                 = (Ok (acc ++ [Placemark x d [c]])%list, w)).
    { unfold loop_body, bindM, lift. cbn [index]. rewrite String.eqb_refl. reflexivity. }
    unfold bindM at 1. rewrite Hx.
    rewrite (for_fold_ext names _ (loop_body names descriptions coordinates)).
    + rewrite IH by (simpl in Hd, Hc; lia).
      cbn [zip_points]. rewrite <- app_assoc. reflexivity.
    + intros i acc' s Hi. apply loop_body_tail. intros ->. contradiction.
Qed.

Lemma equal_lengths_gate (names descriptions : list string) (coordinates : list Coord) :
  List.length names = List.length descriptions ->
  List.length names = List.length coordinates ->
  (List.length names =? List.length descriptions)%nat
  && (List.length names =? List.length coordinates)%nat
  && (List.length descriptions =? List.length coordinates)%nat = true.
Proof.
  intros H1 H2. rewrite <- H1, <- H2, Nat.eqb_refl. reflexivity.
Qed.

(** The run of [writeKML] when the three arrays have the same length. *)
Lemma writeKML_equal_run (filepath : string) (names descriptions : list string)
    (coordinates : list Coord) (w : world Coord) :
  List.length names = List.length descriptions ->
  List.length names = List.length coordinates ->
  writeKML filepath names descriptions coordinates w
  = match for_fold names [] (loop_body names descriptions coordinates) w with
    | (Ok doc, w2) => (Ok true, World ((filepath, doc) :: disk w2) (stdout w2))
    | (Raise e, w2) => (Raise e, w2)
    end.
Proof.
  intros H1 H2. unfold writeKML.
  rewrite (equal_lengths_gate names descriptions coordinates H1 H2).
  unfold bindM, save, modify, ret. cbv beta iota.
  destruct (for_fold names [] (loop_body names descriptions coordinates) w)
    as [[doc|e] w2]; reflexivity.
Qed.

(** X9. With three arrays of the same length and names that are all
    different, [writeKML] prints nothing, saves one point per name with the
    description and the coordinates of the same position, and returns
    [True]. *)
Theorem writeKML_distinct_names (filepath : string) (names descriptions : list string)
    (coordinates : list Coord) (w : world Coord) :
  NoDup names ->
  List.length names = List.length descriptions ->
  List.length names = List.length coordinates ->
  writeKML filepath names descriptions coordinates w
  = (Ok true,
     World ((filepath, zip_points names descriptions coordinates) :: disk w) (stdout w)).
Proof.
  intros Hnd H1 H2.
  rewrite (writeKML_equal_run filepath names descriptions coordinates w H1 H2).
  rewrite (loop_distinct names Hnd descriptions coordinates (eq_sym H1) (eq_sym H2) [] w).
  reflexivity.
Qed.

Lemma loop_first_occurrence (names descriptions : list string)
    (coordinates : list Coord) :
  (List.length names <= List.length descriptions)%nat ->
  (List.length names <= List.length coordinates)%nat ->
  forall l : list string,
    incl l names ->
    forall (acc : list (placemark Coord)) (w : world Coord),
      exists ps : list (placemark Coord),
        for_fold l acc (loop_body names descriptions coordinates) w
        = (Ok (acc ++ ps)%list, w)
        /\ Forall2 (first_occurrence names descriptions coordinates) l ps.
Proof.
  intros Hd Hc. induction l as [|i l IH]; intros Hincl acc w.
  - exists []. split; [simpl; rewrite app_nil_r; reflexivity|constructor].
  - assert (Hi : In i names) by (apply Hincl; left; reflexivity).
    destruct (index_In i names Hi) as (k & Hk & Hlt).
    destruct (nth_error descriptions k) as [d|] eqn:Ed;
      [|apply nth_error_None in Ed; lia].
    destruct (nth_error coordinates k) as [c|] eqn:Ec;
      [|apply nth_error_None in Ec; lia].
    assert (Hstep : loop_body names descriptions coordinates i acc w
                    = (Ok (acc ++ [Placemark i d [c]])%list, w)).
    { unfold loop_body, bindM, lift, getitem. rewrite Hk, Ed, Ec. reflexivity. }
    destruct (IH (fun x Hx => Hincl x (or_intror Hx)) (acc ++ [Placemark i d [c]])%list w)
      as (ps & Hrun & Hall).
    exists (Placemark i d [c] :: ps). split.
    + cbn [for_fold]. unfold bindM at 1. rewrite Hstep, Hrun.
      rewrite <- app_assoc. reflexivity.
    + constructor; [|exact Hall].
      exists k, d, c. repeat split; assumption.
Qed.

(** X10. With three arrays of the same length, whatever the names,
    [writeKML] saves one point per item of [names], and the point of a name
    carries the description and the coordinates found at the first position
    of that name: a name that comes twice gives two points with the data of
    its first occurrence. *)
Theorem writeKML_first_occurrence (filepath : string) (names descriptions : list string)
    (coordinates : list Coord) (w : world Coord) :
  List.length names = List.length descriptions ->
  List.length names = List.length coordinates ->
  exists doc : list (placemark Coord),
    writeKML filepath names descriptions coordinates w
    = (Ok true, World ((filepath, doc) :: disk w) (stdout w))
    /\ Forall2 (first_occurrence names descriptions coordinates) names doc.
Proof.
  intros H1 H2.
  destruct (loop_first_occurrence names descriptions coordinates
              (Nat.eq_le_incl _ _ H1) (Nat.eq_le_incl _ _ H2)
              names (incl_refl names) [] w) as (doc & Hrun & Hall).
  exists doc. split; [|exact Hall].
  rewrite (writeKML_equal_run filepath names descriptions coordinates w H1 H2).
  rewrite Hrun. reflexivity.
Qed.

End KmlMore.

(* ===================================================================== *)
(** ** Replacing NaN *)

Section UpdateFacts.

Import Np Features Cleaning.

Lemma length_update {A} (i : nat) (f : A -> A) (l : list A) :
  List.length (update i f l) = List.length l.
Proof. revert i. induction l as [|x l IH]; intros [|i]; simpl; auto. Qed.

Lemma nth_update {A} (i k : nat) (f : A -> A) (l : list A) (d : A) :
  nth k (update i f l) d
  = if (k =? i)%nat && (k <? List.length l)%nat then f (nth k l d) else nth k l d.
Proof.
  revert i k. induction l as [|x l IH]; intros i k.
  - simpl. destruct i, k; simpl; try reflexivity; rewrite andb_false_r; reflexivity.
  - destruct i as [|i], k as [|k]; simpl; try reflexivity.
    rewrite IH. reflexivity.
Qed.

Lemma update_id {A} (i : nat) (l : list A) : update i (fun x => x) l = l.
Proof. revert i. induction l as [|x l IH]; intros [|i]; simpl; congruence. Qed.

Lemma set_nth_update (i : nat) (v : npfloat) (row : list npfloat) :
  set_nth i v row = update i (fun _ => v) row.
Proof. revert i. induction row as [|x row IH]; intros [|i]; simpl; congruence. Qed.

Lemma update_update {A} (i : nat) (f g : A -> A) (l : list A) :
  update i g (update i f l) = update i (fun x => g (f x)) l.
Proof. revert i. induction l as [|x l IH]; intros [|i]; simpl; congruence. Qed.

Lemma update_ext {A} (i : nat) (f g : A -> A) (l : list A) :
  (forall x, f x = g x) -> update i f l = update i g l.
Proof.
  intros H. revert i. induction l as [|x l IH]; intros [|i]; simpl; congruence.
Qed.

(** A loop of updates at positions that are all different. *)
Lemma fold_update_nth {A} (F : nat -> A -> A) (positions : list nat) :
  NoDup positions ->
  forall l : list A,
    let l' := fold_left (fun t i => update i (F i) t) positions l in
    List.length l' = List.length l
    /\ forall (k : nat) (d : A),
         nth k l' d
         = if existsb (Nat.eqb k) positions && (k <? List.length l)%nat
           then F k (nth k l d) else nth k l d.
Proof.
  induction 1 as [|i positions Hni Hnd IH]; intros l; simpl.
  - split; reflexivity.
  - destruct (IH (update i (F i) l)) as [Hlen Hnth].
    split; [rewrite Hlen; apply length_update|].
    intros k d. rewrite Hnth, length_update, nth_update.
    destruct (Nat.eqb_spec k i) as [->|Hk]; simpl.
    + destruct (existsb (Nat.eqb i) positions) eqn:E.
      * apply existsb_exists in E. destruct E as (x & Hx & Ex).
        apply Nat.eqb_eq in Ex. subst x. contradiction.
      * simpl. reflexivity.
    + reflexivity.
Qed.

End UpdateFacts.

Section ReplaceNan.

Import Np Features Cleaning.

(** The loop over the columns only touches the row [lig]. *)
Lemma replace_row_update (temp : list (list bool)) (value : npfloat) (lig : nat)
    (cols : list nat) :
  forall tab : matrix,
    replace_row temp value cols tab lig
    = update lig
        (fun row =>
           fold_left
             (fun r col => update col (fun x => if mask_item temp lig col then value else x) r)
             cols row)
        tab.
Proof.
  unfold replace_row. induction cols as [|col cols IH]; intros tab; simpl.
  - symmetry. apply update_id.
  - rewrite IH. unfold set_item.
    destruct (mask_item temp lig col).
    + rewrite update_update. apply update_ext. intros row.
      rewrite set_nth_update. reflexivity.
    + apply update_ext. intros row. rewrite update_id. reflexivity.
Qed.

Lemma mask_item_isnan (tab : matrix) (lig col : nat) :
  mask_item (map (map isnan) tab) lig col = isnan (nth col (nth lig tab []) (Fin 0)).
Proof.
  unfold mask_item.
  change (@nil bool) with (map isnan []).
  rewrite map_nth.
  change false with (isnan (Fin 0)). rewrite map_nth. reflexivity.
Qed.

(** The loop over the columns of a row of [n] items. *)
Lemma clean_row (tab : matrix) (value : npfloat) (lig n : nat) (row : list npfloat) :
  nth lig tab [] = row -> List.length row = n ->
  fold_left
    (fun r col =>
       update col (fun x => if mask_item (map (map isnan) tab) lig col then value else x) r)
    (seq 0 n) row
  = map (clean value) row.
Proof.
  intros Hrow Hn.
  destruct (fold_update_nth
              (fun col x => if mask_item (map (map isnan) tab) lig col then value else x)
              (seq 0 n) (seq_NoDup n 0) row) as [Hlen Hnth].
  cbv zeta in Hlen, Hnth.
  apply nth_ext with (d := Fin 0) (d' := clean value (Fin 0)).
  - rewrite Hlen, length_map. reflexivity.
  - intros k Hk. rewrite Hlen in Hk. rewrite Hnth, map_nth.
    replace (existsb (Nat.eqb k) (seq 0 n)) with true.
    2:{ symmetry. apply existsb_exists. exists k. split; [apply in_seq; lia|apply Nat.eqb_refl]. }
    replace (k <? List.length row)%nat with true by (symmetry; apply Nat.ltb_lt; exact Hk).
    simpl. rewrite mask_item_isnan, Hrow. reflexivity.
Qed.

Lemma rectangular_nth (n : nat) (m : matrix) (k : nat) :
  rectangular n m -> (k < List.length m)%nat -> List.length (nth k m []) = n.
Proof.
  unfold rectangular. intros H Hk. rewrite Forall_forall in H.
  apply H. apply nth_In. exact Hk.
Qed.

Lemma rectangular_update (n i : nat) (f : list npfloat -> list npfloat) (m : matrix) :
  (forall row, List.length (f row) = List.length row) ->
  rectangular n m -> rectangular n (update i f m).
Proof.
  unfold rectangular. intros Hf H. revert i.
  induction H as [|row m Hrow Hm IH]; intros [|i]; simpl; constructor; auto.
  rewrite Hf. exact Hrow.
Qed.

Lemma length_row_loop (F : nat -> npfloat -> npfloat) (cols : list nat)
    (row : list npfloat) :
  List.length (fold_left (fun r col => update col (F col) r) cols row) = List.length row.
Proof.
  revert row. induction cols as [|c cols IH]; intros row; simpl; [reflexivity|].
  rewrite IH. apply length_update.
Qed.

(** The loop over the rows, as a loop of updates. *)
Lemma rows_loop_update (temp : list (list bool)) (value : npfloat) (n : nat)
    (ligs : list nat) :
  forall t : matrix,
    rectangular n t -> t <> [] ->
    fold_left
      (fun t0 lig => replace_row temp value (seq 0 (List.length (nth 0 t0 []))) t0 lig)
      ligs t
    = fold_left
        (fun t0 lig =>
           update lig
             (fun row =>
                fold_left
                  (fun r col =>
                     update col (fun x => if mask_item temp lig col then value else x) r)
                  (seq 0 n) row)
             t0)
        ligs t.
Proof.
  induction ligs as [|lig ligs IH]; intros t Hrect Hne; simpl; [reflexivity|].
  rewrite replace_row_update.
  assert (Hn : List.length (nth 0 t []) = n).
  { apply rectangular_nth; [exact Hrect|]. destruct t; [contradiction Hne; reflexivity|simpl; lia]. }
  rewrite Hn. apply IH.
  - apply rectangular_update; [|exact Hrect]. intros row. apply length_row_loop.
  - intros E. apply (f_equal (@List.length _)) in E. rewrite length_update in E.
    destruct t; [contradiction Hne; reflexivity|discriminate E].
Qed.

Lemma replace_nan_map (ncols : nat) (tab : matrix) (value : npfloat) :
  rectangular ncols tab -> ncols <> 0%nat ->
  replace_nan ncols tab value = Ok (map (map (clean value)) tab).
Proof.
  intros Hrect Hn. unfold replace_nan.
  destruct (Nat.eqb_spec ncols 0) as [E|_]; [contradiction|].
  f_equal.
  destruct tab as [|row0 rest] eqn:Etab; [reflexivity|].
  rewrite <- Etab in *.
  assert (Hne : tab <> []) by (rewrite Etab; discriminate).
  rewrite (rows_loop_update _ value ncols _ tab Hrect Hne).
  destruct (fold_update_nth
              (fun lig row =>
                 fold_left
                   (fun r col =>
                      update col
                        (fun x => if mask_item (map (map isnan) tab) lig col then value else x) r)
                   (seq 0 ncols) row)
              (seq 0 (List.length tab)) (seq_NoDup _ 0) tab) as [Hlen Hnth].
  cbv zeta in Hlen, Hnth.
  apply nth_ext with (d := []) (d' := map (clean value) []).
  - rewrite Hlen, length_map. reflexivity.
  - intros k Hk. rewrite Hlen in Hk. rewrite Hnth, map_nth.
    replace (existsb (Nat.eqb k) (seq 0 (List.length tab))) with true.
    2:{ symmetry. apply existsb_exists. exists k. split; [apply in_seq; lia|apply Nat.eqb_refl]. }
    replace (k <? List.length tab)%nat with true by (symmetry; apply Nat.ltb_lt; exact Hk).
    simpl. apply clean_row; [reflexivity|].
    apply rectangular_nth; assumption.
Qed.

(** X11. On an array with at least one column, [replace_nan] returns the array
    in which every NaN is replaced by [value] and every other item is kept,
    row by row and column by column; when [value] is not NaN no NaN is left.
    Without any column it raises [IndexError]. *)
Theorem replace_nan_cleans (ncols : nat) (tab : matrix) (value : npfloat) :
  rectangular ncols tab ->
  (ncols <> 0%nat ->
   replace_nan ncols tab value = Ok (map (map (clean value)) tab)
   /\ rectangular ncols (map (map (clean value)) tab)
   /\ (isnan value = false -> nan_free (map (map (clean value)) tab)))
  /\ (ncols = 0%nat -> is_ok (replace_nan ncols tab value) = false).
Proof.
  intros Hrect. split.
  - intros Hn. split; [apply replace_nan_map; assumption|]. split.
    + unfold rectangular in *. rewrite Forall_forall in *. intros row Hrow.
      apply in_map_iff in Hrow. destruct Hrow as (r & <- & Hr).
      rewrite length_map. apply Hrect. exact Hr.
    + intros Hv. unfold nan_free. rewrite Forall_forall. intros row Hrow.
      apply in_map_iff in Hrow. destruct Hrow as (r & <- & _).
      rewrite Forall_forall. intros x Hx.
      apply in_map_iff in Hx. destruct Hx as (y & <- & _).
      unfold clean. destruct (isnan y) eqn:E; assumption.
  - intros ->. reflexivity.
Qed.

End ReplaceNan.

Section FeatureNormMore.

Import Np Features Cleaning.
Local Open Scope R_scope.

(** The run of [featureNorm] when every column can be normalised. *)
Lemma featureNorm_run (dataset : matrix) (ncols : nat) :
  dataset <> [] -> rectangular ncols dataset ->
  (forall j, (j < ncols)%nat -> is_ok (norm_column (get_col j dataset)) = true) ->
  exists result : matrix,
    featureNorm dataset = Ok result
    /\ rectangular ncols result
    /\ forall j, (j < ncols)%nat ->
         norm_column (get_col j dataset) = Ok (get_col j result).
Proof.
  intros Hne Hrect Hcols.
  destruct dataset as [|row0 rest]; [contradiction Hne; reflexivity|].
  assert (Hn : List.length row0 = ncols) by (inversion Hrect; assumption).
  cbn [featureNorm]. rewrite Hn.
  destruct (featureNorm_loop_spec ncols (seq 0 ncols) (seq_NoDup ncols 0)
              (fun i Hi => proj2 (proj1 (in_seq ncols 0 i) Hi))
              (row0 :: rest) Hrect)
    as (result & Hrun & Hrect' & _ & Hin & _).
  { intros i Hi. apply Hcols. apply in_seq in Hi. lia. }
  exists result. split; [exact Hrun|]. split; [exact Hrect'|].
  intros j Hj. apply Hin. apply in_seq. lia.
Qed.

(** An item of a row is an item of its column. *)
Lemma item_in_column (n : nat) (m : matrix) (row : list npfloat) (x : npfloat) :
  rectangular n m -> In row m -> In x row ->
  exists j, (j < n)%nat /\ In x (get_col j m).
Proof.
  intros Hrect Hrow Hx.
  destruct (In_nth row x NaN Hx) as (j & Hj & Hnth).
  unfold rectangular in Hrect. rewrite Forall_forall in Hrect.
  exists j. split; [rewrite <- (Hrect row Hrow); exact Hj|].
  unfold get_col. apply in_map_iff. exists row. split; assumption.
Qed.

(** An item of a column, within the width, is an item of a row. *)
Lemma column_item_in_row (n : nat) (m : matrix) (j : nat) (x : npfloat) :
  rectangular n m -> (j < n)%nat -> In x (get_col j m) ->
  exists row, In row m /\ In x row.
Proof.
  intros Hrect Hj Hx. unfold get_col in Hx. apply in_map_iff in Hx.
  destruct Hx as (row & <- & Hrow).
  exists row. split; [exact Hrow|].
  apply nth_In. unfold rectangular in Hrect. rewrite Forall_forall in Hrect.
  rewrite (Hrect row Hrow). exact Hj.
Qed.

Lemma norm_column_no_nan (col c' : array) :
  norm_column col = Ok c' -> forall x, In x c' -> isnan x = false.
Proof.
  unfold norm_column. destruct (forallb isnan col).
  - intros H x Hx. injection H as <-.
    rewrite (in_constant_map _ _ _ Hx). reflexivity.
  - destruct (py_min (filter isfinite col)); [|discriminate].
    destruct (py_max (filter isfinite col)); [|discriminate].
    cbn [bind]. intros H x Hx. injection H as <-.
    apply in_map_iff in Hx. destruct Hx as (y & <- & _).
    unfold nan_to_minus_one. destruct (isnan y) eqn:E; [reflexivity|exact E].
Qed.

(** X12. Whenever every column of the dataset is entirely NaN or holds a
    finite value, [featureNorm] returns a matrix of the same width without
    any NaN. *)
Theorem featureNorm_result_nan_free (dataset : matrix) (ncols : nat) :
  dataset <> [] -> rectangular ncols dataset ->
  (forall j, (j < ncols)%nat ->
     (forall x, In x (get_col j dataset) -> x = NaN)
     \/ (exists r, In (Fin r) (get_col j dataset))) ->
  exists result : matrix,
    featureNorm dataset = Ok result
    /\ rectangular ncols result
    /\ nan_free result.
Proof.
  intros Hne Hrect Hcols.
  destruct (featureNorm_run dataset ncols Hne Hrect) as (result & Hrun & Hrect' & Hcol).
  { intros j Hj. apply norm_column_ok. apply Hcols. exact Hj. }
  exists result. split; [exact Hrun|]. split; [exact Hrect'|].
  unfold nan_free. rewrite Forall_forall. intros row Hrow.
  rewrite Forall_forall. intros x Hx.
  destruct (item_in_column ncols result row x Hrect' Hrow Hx) as (j & Hj & Hin).
  exact (norm_column_no_nan _ _ (Hcol j Hj) x Hin).
Qed.

(** A column of finite values and NaN is entirely NaN or holds a finite
    value. *)
Lemma finite_or_nan_column (col : array) :
  (forall x, In x col -> isfinite x = true \/ x = NaN) ->
  (forall x, In x col -> x = NaN) \/ (exists r, In (Fin r) col).
Proof.
  induction col as [|y col IH]; intros H.
  - left. intros x [].
  - destruct (H y (or_introl eq_refl)) as [Hy| ->].
    + right. destruct y as [r| | |]; try discriminate Hy.
      exists r. left. reflexivity.
    + destruct IH as [Hall|[r Hr]].
      * intros x Hx. apply H. right. exact Hx.
      * left. intros x [<-|Hx]; [reflexivity|apply Hall, Hx].
      * right. exists r. right. exact Hr.
Qed.

Lemma rescale_range (a b r : R) :
  a <= r <= b -> normalised (nan_to_minus_one (rescale (Fin a) (Fin b) (Fin r))).
Proof.
  intros [Ha Hb]. unfold rescale, sub. cbn [neg add].
  destruct (Req_dec_T (b + - a) 0) as [E|E].
  - rewrite div_zero_zero by lra. exists (-1). split; [reflexivity|left; reflexivity].
  - rewrite div_fin by exact E. cbn [mul nan_to_minus_one isnan].
    eexists. split; [reflexivity|]. right.
    assert (Hpos : 0 < b + - a) by lra.
    assert (H0 : 0 <= (r + - a) / (b + - a)).
    { apply Rmult_le_pos; [lra|]. apply Rlt_le, Rinv_0_lt_compat, Hpos. }
    assert (H1 : (r + - a) / (b + - a) <= 1).
    { apply Rmult_le_reg_r with (b + - a); [exact Hpos|].
      unfold Rdiv. rewrite Rmult_assoc, Rinv_l by exact E. lra. }
    lra.
Qed.

Lemma py_min_finite (col : array) (r0 : R) :
  In (Fin r0) col ->
  exists a, py_min (filter isfinite col) = Ok (Fin a)
            /\ forall r, In (Fin r) col -> a <= r.
Proof.
  intros H0. apply In_fin_filter in H0.
  pose proof (filter_isfinite_all col) as Hfin.
  assert (Hsub : forall r, In (Fin r) col -> In (Fin r) (filter isfinite col))
    by (intros r Hr; apply In_fin_filter; exact Hr).
  destruct (filter isfinite col) as [|x l]; [contradiction H0|].
  inversion Hfin as [|x' l' Hx Hl]; subst.
  destruct x as [m0| | |]; try discriminate Hx.
  destruct (min_from_finite l Hl m0) as (m & Hm & _ & Hle & Hall).
  exists m. split; [simpl; rewrite Hm; reflexivity|].
  intros r Hr. destruct (Hsub r Hr) as [E|Hin]; [injection E as <-; exact Hle|].
  apply Hall. exact Hin.
Qed.

Lemma py_max_finite (col : array) (r0 : R) :
  In (Fin r0) col ->
  exists b, py_max (filter isfinite col) = Ok (Fin b)
            /\ forall r, In (Fin r) col -> r <= b.
Proof.
  intros H0. apply In_fin_filter in H0.
  pose proof (filter_isfinite_all col) as Hfin.
  assert (Hsub : forall r, In (Fin r) col -> In (Fin r) (filter isfinite col))
    by (intros r Hr; apply In_fin_filter; exact Hr).
  destruct (filter isfinite col) as [|x l]; [contradiction H0|].
  inversion Hfin as [|x' l' Hx Hl]; subst.
  destruct x as [m0| | |]; try discriminate Hx.
  destruct (max_from_finite l Hl m0) as (m & Hm & _ & Hle & Hall).
  exists m. split; [simpl; rewrite Hm; reflexivity|].
  intros r Hr. destruct (Hsub r Hr) as [E|Hin]; [injection E as <-; exact Hle|].
  apply Hall. exact Hin.
Qed.

Lemma norm_column_range (col c' : array) :
  (forall x, In x col -> isfinite x = true \/ x = NaN) ->
  norm_column col = Ok c' -> forall x, In x c' -> normalised x.
Proof.
  intros Hcol. unfold norm_column.
  destruct (forallb isnan col) eqn:Enan.
  - intros H x Hx. injection H as <-. rewrite (in_constant_map _ _ _ Hx).
    exists (-1). split; [reflexivity|left; reflexivity].
  - destruct (finite_or_nan_column col Hcol) as [Hall|[r0 Hr0]].
    + assert (forallb isnan col = true).
      { apply forallb_forall. intros x Hx. rewrite (Hall x Hx). reflexivity. }
      congruence.
    + destruct (py_min_finite col r0 Hr0) as (a & Hmin & Hlow).
      destruct (py_max_finite col r0 Hr0) as (b & Hmax & Hup).
      rewrite Hmin, Hmax. cbn [bind].
      intros H x Hx. injection H as <-.
      rewrite map_map in Hx. apply in_map_iff in Hx. destruct Hx as (y & <- & Hy).
      destruct (Hcol y Hy) as [Hfin| ->].
      * destruct y as [r| | |]; try discriminate Hfin.
        apply rescale_range. split; [apply Hlow|apply Hup]; exact Hy.
      * exists (-1). split; [reflexivity|left; reflexivity].
Qed.

(** X13. On a dataset whose items are finite or NaN, [featureNorm] returns,
    and every item of the result is [-1] or a value from 0 to 100. *)
Theorem featureNorm_range (dataset : matrix) (ncols : nat) :
  dataset <> [] -> rectangular ncols dataset -> finite_or_nan dataset ->
  exists result : matrix,
    featureNorm dataset = Ok result
    /\ rectangular ncols result
    /\ Forall (Forall normalised) result.
Proof.
  intros Hne Hrect Hfin.
  assert (Hcolumn : forall j, (j < ncols)%nat ->
            forall x, In x (get_col j dataset) -> isfinite x = true \/ x = NaN).
  { intros j Hj x Hx.
    destruct (column_item_in_row ncols dataset j x Hrect Hj Hx) as (row & Hrow & Hin).
    unfold finite_or_nan in Hfin. rewrite Forall_forall in Hfin.
    specialize (Hfin row Hrow). rewrite Forall_forall in Hfin. apply Hfin. exact Hin. }
  destruct (featureNorm_run dataset ncols Hne Hrect) as (result & Hrun & Hrect' & Hcol).
  { intros j Hj. apply norm_column_ok. apply finite_or_nan_column. apply Hcolumn. exact Hj. }
  exists result. split; [exact Hrun|]. split; [exact Hrect'|].
  rewrite Forall_forall. intros row Hrow.
  rewrite Forall_forall. intros x Hx.
  destruct (item_in_column ncols result row x Hrect' Hrow Hx) as (j & Hj & Hin).
  exact (norm_column_range _ _ (Hcolumn j Hj) (Hcol j Hj) x Hin).
Qed.

(** *** A column without any finite value *)

Lemma norm_column_raises_min (col : array) (e : exn) :
  norm_column col = Raise e -> e = min_error.
Proof.
  unfold norm_column. destruct (forallb isnan col); [discriminate|].
  destruct (filter isfinite col) as [|x l].
  - simpl. intros H. injection H as <-. reflexivity.
  - simpl. discriminate.
Qed.

Lemma norm_column_no_finite (col : array) :
  (forall r, ~ In (Fin r) col) -> (exists x, In x col /\ x <> NaN) ->
  norm_column col = Raise min_error.
Proof.
  intros Hnofin (x & Hx & Hnan). unfold norm_column.
  assert (E : forallb isnan col = false).
  { destruct (forallb isnan col) eqn:E; [|reflexivity].
    rewrite forallb_forall in E. specialize (E x Hx).
    destruct x; try discriminate E. contradiction Hnan; reflexivity. }
  rewrite E.
  assert (F : filter isfinite col = []).
  { destruct (filter isfinite col) as [|y l] eqn:F; [reflexivity|].
    assert (Hy : In y (filter isfinite col)) by (rewrite F; left; reflexivity).
    apply filter_In in Hy. destruct Hy as [Hy Hfin].
    destruct y as [r| | |]; try discriminate Hfin.
    exfalso. exact (Hnofin r Hy). }
  rewrite F. reflexivity.
Qed.

Lemma featureNorm_loop_raises (n : nat) (cols : list nat) :
  NoDup cols ->
  forall (m : matrix) (j : nat),
    rectangular n m -> In j cols ->
    norm_column (get_col j m) = Raise min_error ->
    featureNorm_loop cols m = Raise min_error.
Proof.
  induction 1 as [|i cols Hni Hnd IH]; intros m j Hrect Hj Hbad; [contradiction Hj|].
  cbn [featureNorm_loop].
  destruct (norm_column (get_col i m)) as [c|e] eqn:Hc.
  - cbn [bind].
    destruct Hj as [->|Hj]; [rewrite Hbad in Hc; discriminate Hc|].
    apply (IH _ j); [apply rectangular_set_col; exact Hrect|exact Hj|].
    rewrite get_col_set_col_other; [exact Hbad|intros ->; contradiction|].
    rewrite (norm_column_length _ _ Hc). apply length_get_col.
  - cbn [bind]. rewrite (norm_column_raises_min _ _ Hc). reflexivity.
Qed.

(** X14. When some column holds no finite value without being entirely NaN
    (a column of infinities, say), [featureNorm] raises the [ValueError] of
    [min] on an empty sequence. *)
Theorem featureNorm_column_without_finite_value
    (dataset : matrix) (ncols j : nat) :
  dataset <> [] -> rectangular ncols dataset -> (j < ncols)%nat ->
  (forall r, ~ In (Fin r) (get_col j dataset)) ->
  (exists x, In x (get_col j dataset) /\ x <> NaN) ->
  featureNorm dataset = Raise min_error.
Proof.
  intros Hne Hrect Hj Hnofin Hnotnan.
  destruct dataset as [|row0 rest]; [contradiction Hne; reflexivity|].
  assert (Hn : List.length row0 = ncols) by (inversion Hrect; assumption).
  cbn [featureNorm]. rewrite Hn.
  apply (featureNorm_loop_raises ncols (seq 0 ncols) (seq_NoDup ncols 0) _ j Hrect).
  - apply in_seq. lia.
  - apply norm_column_no_finite; assumption.
Qed.

End FeatureNormMore.

(* ===================================================================== *)
(** ** Refraction correction: vectors, depths and shapes *)

Section RefractionMore.

Import Np Refraction.
Local Open Scope R_scope.

(** X15. [correction_vect] never raises: on every batch it returns one vector
    per input vector, the vector of magnitude [|v|/indRefr] built from the
    true incidence angle and the bearing. *)
Theorem correction_vect_formulas (vectorApp : list vec3) (indRefr : npfloat) :
  correction_vect vectorApp indRefr = Ok (map (spec_true_vector indRefr) vectorApp)
  /\ List.length (map (spec_true_vector indRefr) vectorApp) = List.length vectorApp.
Proof.
  split; [apply correction_vect_pointwise|apply length_map].
Qed.

Lemma spec_theta_true_fin (x y z n : R) :
  0 < R_sqrt.sqrt (x * x + y * y + z * z) -> 1 <= n ->
  spec_theta_true (Fin n) (V3 (Fin x) (Fin y) (Fin z))
  = Fin (asin (Rtrigo_def.sin (acos (z / R_sqrt.sqrt (x * x + y * y + z * z))) / n)).
Proof.
  intros HN Hn. unfold spec_theta_true.
  rewrite (spec_theta_app_fin x y z HN). cbn [sin].
  rewrite div_fin by lra.
  apply arcsin_fin.
  pose proof (SIN_bound (acos (z / R_sqrt.sqrt (x * x + y * y + z * z)))) as [Hl Hu].
  assert (Hi : 0 < / n) by (apply Rinv_0_lt_compat; lra).
  assert (Hi1 : / n <= 1).
  { rewrite <- Rinv_1. apply Rinv_le_contravar; lra. }
  unfold Rdiv. split; nra.
Qed.

Lemma sqrt_sq_nonneg (m : R) : 0 <= m -> R_sqrt.sqrt (m * m) = m.
Proof. intros H. apply sqrt_square. exact H. Qed.

Lemma true_vector_magnitude (x y z n : R) :
  R_sqrt.sqrt (x * x + y * y) + y <> 0 -> 1 <= n ->
  norm3 (spec_true_vector (Fin n) (V3 (Fin x) (Fin y) (Fin z)))
  = Fin (R_sqrt.sqrt (x * x + y * y + z * z) / n).
Proof.
  intros H Hn.
  pose proof (norm3_pos x y z H) as HN.
  unfold spec_true_vector.
  rewrite (spec_theta_true_fin x y z n HN Hn), (spec_bearing_fin x y (Fin z) H), norm3_fin.
  rewrite div_fin by lra. cbn [sin cos mul].
  rewrite norm3_fin. f_equal.
  set (m := R_sqrt.sqrt (x * x + y * y + z * z) / n).
  set (t := asin _). set (g := 2 * atan _).
  assert (Hm : 0 <= m).
  { unfold m. apply Rmult_le_pos; [lra|]. apply Rlt_le, Rinv_0_lt_compat. lra. }
  pose proof (sin2_cos2 t) as Ht. pose proof (sin2_cos2 g) as Hg.
  unfold Rsqr in Ht, Hg.
  assert (Hsum : m * Rtrigo_def.sin t * Rtrigo_def.sin g * (m * Rtrigo_def.sin t * Rtrigo_def.sin g)
           + m * Rtrigo_def.sin t * Rtrigo_def.cos g * (m * Rtrigo_def.sin t * Rtrigo_def.cos g)
           + m * Rtrigo_def.cos t * (m * Rtrigo_def.cos t) = m * m).
  { replace (m * Rtrigo_def.sin t * Rtrigo_def.sin g * (m * Rtrigo_def.sin t * Rtrigo_def.sin g)
           + m * Rtrigo_def.sin t * Rtrigo_def.cos g * (m * Rtrigo_def.sin t * Rtrigo_def.cos g)
           + m * Rtrigo_def.cos t * (m * Rtrigo_def.cos t))
      with (m * m * (Rtrigo_def.sin t * Rtrigo_def.sin t
                     * (Rtrigo_def.sin g * Rtrigo_def.sin g
                        + Rtrigo_def.cos g * Rtrigo_def.cos g)
                     + Rtrigo_def.cos t * Rtrigo_def.cos t)) by ring.
    rewrite Hg, Rmult_1_r, Ht. ring. }
  rewrite Hsum. apply sqrt_sq_nonneg. exact Hm.
Qed.

(** X16. For a refraction index of at least one, the vector returned by
    [correction_vect] for a finite vector off the negative [y] half-axis has
    the magnitude of the input divided by the index. *)
Theorem correction_vect_magnitude (vectorApp : list vec3) (n : R) :
  1 <= n ->
  Forall (fun v => exists x y z : R,
            v = V3 (Fin x) (Fin y) (Fin z)
            /\ R_sqrt.sqrt (x * x + y * y) + y <> 0) vectorApp ->
  exists vectTrue : list vec3,
    correction_vect vectorApp (Fin n) = Ok vectTrue
    /\ map norm3 vectTrue = map (fun v => div (norm3 v) (Fin n)) vectorApp.
Proof.
  intros Hn Hall.
  exists (map (spec_true_vector (Fin n)) vectorApp).
  split; [apply correction_vect_pointwise|].
  rewrite map_map. apply map_ext_in. intros v Hv.
  rewrite Forall_forall in Hall. destruct (Hall v Hv) as (x & y & z & -> & Hden).
  rewrite true_vector_magnitude by assumption.
  rewrite norm3_fin. rewrite div_fin by lra. reflexivity.
Qed.

(** *** Beyond the critical angle *)

Lemma in_unit_above (a : R) : 1 < a -> in_unit a = false.
Proof.
  intros H. unfold in_unit. destruct (Rle_dec (-1) a); [|reflexivity].
  destruct (Rle_dec a 1); [lra|reflexivity].
Qed.

Lemma div_nan_r (x : npfloat) : div x NaN = NaN.
Proof. destruct x; reflexivity. Qed.

Lemma spec_theta_true_unphysical (x y z n : R) :
  0 < n ->
  n * R_sqrt.sqrt (x * x + y * y + z * z) < R_sqrt.sqrt (x * x + y * y) ->
  spec_theta_true (Fin n) (V3 (Fin x) (Fin y) (Fin z)) = NaN.
Proof.
  intros Hn Hout.
  assert (HN : 0 < R_sqrt.sqrt (x * x + y * y + z * z)).
  { apply sqrt_lt_R0.
    destruct (Rle_lt_dec (x * x + y * y) 0) as [Hle|Hlt]; [|nra].
    exfalso.
    assert (Hxy : x * x + y * y = 0) by nra.
    rewrite Hxy, sqrt_0 in Hout.
    pose proof (sqrt_pos (0 + z * z)). nra. }
  unfold spec_theta_true.
  rewrite (spec_theta_app_fin x y z HN). cbn [sin].
  rewrite div_fin by lra.
  pose proof (norm_sin_incidence x y z HN) as Hs.
  set (N := R_sqrt.sqrt (x * x + y * y + z * z)) in *.
  set (s := Rtrigo_def.sin (acos (z / N))) in *.
  cbn [arcsin]. rewrite in_unit_above; [reflexivity|].
  apply Rmult_lt_reg_r with (n * N); [nra|].
  replace (s / n * (n * N)) with (N * s) by (field; lra).
  rewrite Hs. lra.
Qed.

Lemma nan_angle_gives_nan (n d : npfloat) (p v : vec3) :
  spec_theta_true n v = NaN ->
  spec_depth_true n d v = NaN /\ spec_true_point n p d v = V3 NaN NaN NaN.
Proof.
  intros Ht.
  assert (Hd : spec_depth_true n d v = NaN).
  { unfold spec_depth_true. rewrite Ht. cbn [cos]. rewrite mul_nan_r, div_nan_r.
    reflexivity. }
  assert (Hp : spec_displacement n d v = NaN).
  { unfold spec_displacement. rewrite Hd. unfold sub. cbn [mul neg].
    apply add_nan_r. }
  split; [exact Hd|].
  unfold spec_true_point. rewrite Hp, Hd. unfold sub. cbn [mul add].
  rewrite !add_nan_r. reflexivity.
Qed.

(** X17. Beyond the critical angle ([sin(thetaApp) > indRefr], which needs an
    index below one) nothing is raised: [correction_vect] returns vectors of
    NaN, and [correction3D] returns points and depths of NaN. *)
Theorem unphysical_input_gives_nan (rows : list shot) (n : R) :
  rows <> [] -> 0 < n ->
  Forall (fun r => exists x y z : R,
            s_datum r = V3 (Fin x) (Fin y) (Fin z)
            /\ n * R_sqrt.sqrt (x * x + y * y + z * z) < R_sqrt.sqrt (x * x + y * y))
         rows ->
  correction_vect (map s_datum rows) (Fin n)
  = Ok (map (fun _ => V3 NaN NaN NaN) rows)
  /\ correction3D (map s_app rows) (map s_depth rows) [] (map s_datum rows) (Fin n)
     = Ok (map (fun _ => V3 NaN NaN NaN) rows, map (fun _ => NaN) rows).
Proof.
  intros Hne Hn Hall. split.
  - rewrite correction_vect_pointwise, map_map. f_equal.
    apply map_ext_in. intros r Hr.
    rewrite Forall_forall in Hall. destruct (Hall r Hr) as (x & y & z & -> & Hout).
    unfold spec_true_vector.
    rewrite (spec_theta_true_unphysical x y z n Hn Hout).
    cbn [sin cos]. rewrite !mul_nan_r. reflexivity.
  - rewrite (correction3D_of_vectors rows s_datum [] (map s_datum rows) (Fin n)
               (shot_vectors_fwf (map s_app rows) rows Hne)).
    f_equal. f_equal.
    + apply map_ext_in. intros r Hr.
      rewrite Forall_forall in Hall. destruct (Hall r Hr) as (x & y & z & E & Hout).
      rewrite E.
      apply (nan_angle_gives_nan (Fin n) (s_depth r) (s_app r) _
               (spec_theta_true_unphysical x y z n Hn Hout)).
    + apply map_ext_in. intros r Hr.
      rewrite Forall_forall in Hall. destruct (Hall r Hr) as (x & y & z & E & Hout).
      rewrite E.
      apply (nan_angle_gives_nan (Fin n) (s_depth r) (s_app r) _
               (spec_theta_true_unphysical x y z n Hn Hout)).
Qed.

End RefractionMore.

Section DepthBound.

Import Np Refraction.
Local Open Scope R_scope.

Lemma true_depth_bound (x y z d n : R) :
  R_sqrt.sqrt (x * x + y * y) + y <> 0 -> 0 < z -> 0 <= d -> 1 <= n ->
  exists t : R,
    spec_depth_true (Fin n) (Fin d) (V3 (Fin x) (Fin y) (Fin z)) = Fin t
    /\ 0 <= t <= d / n.
Proof.
  intros H Hz Hd Hn.
  pose proof (norm3_pos x y z H) as HN.
  pose proof (norm_ratio_bounds x y z HN) as Hb.
  unfold spec_depth_true.
  rewrite (spec_theta_true_fin x y z n HN Hn), (spec_theta_app_fin x y z HN).
  cbn [cos mul].
  pose proof (cos_acos _ Hb) as Hcos.
  pose proof (sin2_cos2 (acos (z / R_sqrt.sqrt (x * x + y * y + z * z)))) as Hsc.
  pose proof (SIN_bound (acos (z / R_sqrt.sqrt (x * x + y * y + z * z)))) as [Hs1 Hs2].
  assert (Hq : 0 < z / R_sqrt.sqrt (x * x + y * y + z * z)).
  { apply Rmult_lt_0_compat; [exact Hz|]. apply Rinv_0_lt_compat, HN. }
  set (th := acos (z / R_sqrt.sqrt (x * x + y * y + z * z))) in *.
  set (s := Rtrigo_def.sin th / n).
  assert (Hin : 0 < / n) by (apply Rinv_0_lt_compat; lra).
  assert (Hin1 : / n <= 1) by (rewrite <- Rinv_1; apply Rinv_le_contravar; lra).
  assert (Hsb : -1 <= s <= 1) by (unfold s, Rdiv; split; nra).
  rewrite (cos_asin s Hsb).
  unfold Rsqr in Hsc.
  assert (Hss : s * s <= Rtrigo_def.sin th * Rtrigo_def.sin th).
  { unfold s, Rdiv.
    replace (Rtrigo_def.sin th * / n * (Rtrigo_def.sin th * / n))
      with (Rtrigo_def.sin th * Rtrigo_def.sin th * (/ n * / n)) by ring.
    assert (/ n * / n <= 1) by nra.
    assert (0 <= Rtrigo_def.sin th * Rtrigo_def.sin th) by nra.
    nra. }
  assert (Hc2 : Rtrigo_def.cos th * Rtrigo_def.cos th <= 1 - s²).
  { unfold Rsqr. lra. }
  assert (Hpos : 0 < 1 - s²).
  { rewrite Hcos in Hc2. unfold Rsqr in *. nra. }
  pose proof (sqrt_lt_R0 _ Hpos) as Hc'.
  pose proof (sqrt_sqrt (1 - s²) (Rlt_le _ _ Hpos)) as Hsq.
  set (c' := R_sqrt.sqrt (1 - s²)) in *.
  assert (Hle : Rtrigo_def.cos th <= c') by (rewrite Hcos in *; nra).
  rewrite div_fin by nra.
  eexists. split; [reflexivity|].
  assert (Hnc : 0 < n * c') by nra.
  assert (Hinv : 0 < / (n * c')) by (apply Rinv_0_lt_compat; exact Hnc).
  split.
  - apply Rmult_le_pos; [rewrite Hcos; nra|lra].
  - apply Rmult_le_reg_r with (n * c'); [exact Hnc|].
    unfold Rdiv. rewrite Rmult_assoc, Rinv_l by lra.
    replace (d * / n * (n * c')) with (d * c') by (field; lra).
    nra.
Qed.

(** X18. For a refraction index of at least one and shot vectors that point
    upwards off the vertical, [correction3D] returns for every apparent
    depth [d >= 0] a true depth between 0 and [d/indRefr]. *)
Theorem correction3D_depth_bound (rows : list shot) (n : R) :
  rows <> [] -> 1 <= n ->
  Forall (fun r => upward_shot (s_datum r)
                   /\ exists d : R, s_depth r = Fin d /\ 0 <= d) rows ->
  exists (coords : list vec3) (depthTrue : array),
    correction3D (map s_app rows) (map s_depth rows) [] (map s_datum rows) (Fin n)
    = Ok (coords, depthTrue)
    /\ Forall2 (fun r t => exists d td : R,
                  s_depth r = Fin d /\ t = Fin td /\ 0 <= td <= d / n)
               rows depthTrue.
Proof.
  intros Hne Hn Hall.
  rewrite (correction3D_of_vectors rows s_datum [] (map s_datum rows) (Fin n)
             (shot_vectors_fwf (map s_app rows) rows Hne)).
  eexists; eexists. split; [reflexivity|].
  clear Hne. induction Hall as [|r rows [Hup (d & Hd & Hd0)] _ IH]; simpl; constructor.
  - destruct Hup as (x & y & z & Hv & Hz & Hden).
    destruct (true_depth_bound x y z d n Hden Hz Hd0 Hn) as (t & Ht & Hb).
    exists d, t. rewrite Hd, Hv. split; [reflexivity|]. split; [exact Ht|exact Hb].
  - exact IH.
Qed.

End DepthBound.

Section Shapes.

Import Np Refraction.
Local Open Scope R_scope.

Lemma zipWith_repeat {A B C} (f : A -> B -> C) (x : A) (ys : list B) :
  zipWith f (repeat x (List.length ys)) ys = map (f x) ys.
Proof. induction ys as [|y ys IH]; simpl; congruence. Qed.

Lemma shot_vectors_one_origin (pt_app : list vec3) (s : vec3) :
  pt_app <> [] ->
  shot_vectors pt_app [s] [] = Ok (map (vsub s) pt_app)
  /\ shot_vectors pt_app (repeat s (List.length pt_app)) [] = Ok (map (vsub s) pt_app).
Proof.
  intros Hne. destruct pt_app as [|p pts]; [contradiction Hne; reflexivity|].
  split.
  - unfold shot_vectors. cbn [List.length Nat.ltb Nat.leb Nat.eqb andb].
    unfold bcast. destruct pts as [|q pts]; reflexivity.
  - unfold shot_vectors.
    change (repeat s (List.length (p :: pts))) with (s :: repeat s (List.length pts)).
    cbn [List.length Nat.ltb Nat.leb Nat.eqb andb].
    unfold bcast. cbn [List.length]. rewrite repeat_length, Nat.eqb_refl.
    f_equal. apply (zipWith_repeat vsub s (p :: pts)).
Qed.

(** X19. A single shot origin stands for all the points of the batch: the
    subtraction broadcasts it, and [correction3D] gives what it gives when
    the origin is repeated once per point. *)
Theorem correction3D_single_origin (pt_app : list vec3) (depthApp : array)
    (s : vec3) (indRefr : npfloat) :
  pt_app <> [] ->
  correction3D pt_app depthApp [s] [] indRefr
  = correction3D pt_app depthApp (repeat s (List.length pt_app)) [] indRefr.
Proof.
  intros Hne. destruct (shot_vectors_one_origin pt_app s Hne) as [H1 H2].
  unfold correction3D. rewrite H1, H2. reflexivity.
Qed.

Lemma bcast_mismatch {A B C} (f : A -> B -> C) (xs : list A) (ys : list B) :
  List.length xs <> List.length ys ->
  List.length xs <> 1%nat -> List.length ys <> 1%nat ->
  bcast f xs ys = Raise broadcast_error.
Proof.
  intros Hne Hx Hy. unfold bcast.
  destruct (Nat.eqb_spec (List.length xs) (List.length ys)); [contradiction|].
  destruct xs as [|x [|x' xs]]; destruct ys as [|y [|y' ys]];
    simpl in *; try reflexivity; try lia.
Qed.

(** X20. When the array of depths has neither the length of the batch nor the
    length one, [correction3D] raises numpy's shape error on a batch of two
    points or more. *)
Theorem correction3D_depth_shape_error (rows : list shot) (depthApp : array)
    (indRefr : npfloat) :
  (2 <= List.length rows)%nat ->
  List.length depthApp <> List.length rows -> List.length depthApp <> 1%nat ->
  correction3D (map s_app rows) depthApp [] (map s_datum rows) indRefr
  = Raise broadcast_error.
Proof.
  intros Hrows Hlen H1.
  assert (Hne : rows <> []) by (intros ->; simpl in Hrows; lia).
  unfold correction3D.
  rewrite (shot_vectors_fwf (map s_app rows) rows Hne). cbn [bind].
  rewrite gisement_pointwise. cbn [bind].
  rewrite incidence_pointwise. cbn [bind].
  rewrite bcast_mismatch; [reflexivity| | |]; rewrite ?length_map; lia.
Qed.

End Shapes.

(* ===================================================================== *)
(** ** Merging the distance columns *)

Section MergeTables.

Import Np Features Merge.
Local Open Scope string_scope.

Lemma bcast_same_length {A B C} (f : A -> B -> C) (xs : list A) (ys : list B) :
  List.length xs = List.length ys -> bcast f xs ys = Ok (zipWith f xs ys).
Proof. intros H. unfold bcast. rewrite H, Nat.eqb_refl. reflexivity. Qed.

Lemma length_zipWith {A B C} (f : A -> B -> C) (xs : list A) (ys : list B) :
  List.length xs = List.length ys -> List.length (zipWith f xs ys) = List.length xs.
Proof.
  revert ys. induction xs as [|x xs IH]; intros [|y ys] H; simpl in *; try lia.
  rewrite IH; lia.
Qed.

Lemma column_ok (k : nat) (t : table) :
  (k < width t)%nat -> column k t = Ok (get_col k (rows t)).
Proof.
  intros H. unfold column.
  destruct (Nat.ltb_spec k (width t)); [reflexivity|lia].
Qed.

Lemma distances_zip (rf re : matrix) :
  List.length rf = List.length re ->
  map sqrt
    (zipWith add
       (zipWith add (map square (zipWith sub (get_col 0 rf) (get_col 0 re)))
                    (map square (zipWith sub (get_col 1 rf) (get_col 1 re))))
       (map square (zipWith sub (get_col 2 rf) (get_col 2 re))))
  = zipWith point_distance rf re.
Proof.
  revert re. induction rf as [|r rf IH]; intros [|r' re] H; simpl in *; try lia.
  - reflexivity.
  - rewrite IH by lia. reflexivity.
Qed.

(** The control distances of two tables with as many rows. *)
Lemma controle_spec (tab_fwf tab_extra : table) :
  (3 <= width tab_fwf)%nat -> (3 <= width tab_extra)%nat ->
  List.length (rows tab_fwf) = List.length (rows tab_extra) ->
  controle tab_fwf tab_extra
  = Ok (zipWith point_distance (rows tab_fwf) (rows tab_extra)).
Proof.
  intros Hf He Hlen. unfold controle.
  rewrite !column_ok by lia. cbn [bind].
  assert (Hc : forall k, List.length (get_col k (rows tab_fwf))
                         = List.length (get_col k (rows tab_extra)))
    by (intros k; rewrite !length_get_col; exact Hlen).
  assert (Hz : forall k, List.length (zipWith sub (get_col k (rows tab_fwf))
                                        (get_col k (rows tab_extra)))
                         = List.length (rows tab_fwf)).
  { intros k. rewrite length_zipWith by apply Hc. apply length_get_col. }
  rewrite (bcast_same_length sub _ _ (Hc 0%nat)). cbn [bind].
  rewrite (bcast_same_length sub _ _ (Hc 1%nat)). cbn [bind].
  rewrite (bcast_same_length add) by (rewrite !length_map, !Hz; reflexivity).
  cbn [bind].
  rewrite (bcast_same_length sub _ _ (Hc 2%nat)). cbn [bind].
  rewrite (bcast_same_length add).
  2:{ rewrite length_zipWith by (rewrite !length_map, !Hz; reflexivity).
      rewrite !length_map, !Hz. reflexivity. }
  cbn [bind]. rewrite (distances_zip _ _ Hlen). reflexivity.
Qed.

Lemma zipWith_nth_error {A B C} (f : A -> B -> C) (xs : list A) (ys : list B)
    (i : nat) (x : A) (y : B) :
  nth_error xs i = Some x -> nth_error ys i = Some y ->
  nth_error (zipWith f xs ys) i = Some (f x y).
Proof.
  revert ys i. induction xs as [|x0 xs IH]; intros [|y0 ys] [|i] Hx Hy;
    simpl in *; try discriminate.
  - injection Hx as ->. injection Hy as ->. reflexivity.
  - apply IH; assumption.
Qed.

(** X21. When the two tables have as many rows and some point of the
    full-waveform table is not within 0.003 of the point of the same row in
    the other table (or the distance is NaN), [merge_c2c_fwf] raises its
    [ValueError] and returns nothing. *)
Theorem merge_c2c_fwf_mismatch {V : Type} (tab_fwf : table) (names_fwf : list string)
    (vlrs : V) (tab_extra : table) (names_extra : list string)
    (i : nat) (rf re : list npfloat) :
  (3 <= width tab_fwf)%nat -> (3 <= width tab_extra)%nat ->
  List.length (rows tab_fwf) = List.length (rows tab_extra) ->
  nth_error (rows tab_fwf) i = Some rf -> nth_error (rows tab_extra) i = Some re ->
  ltb (point_distance rf re) tolerance = false ->
  merge_c2c_fwf tab_fwf names_fwf vlrs tab_extra names_extra = Raise mismatch_error.
Proof.
  intros Hf He Hlen Hrf Hre Hfar. unfold merge_c2c_fwf.
  rewrite (controle_spec tab_fwf tab_extra Hf He Hlen). cbn [bind].
  assert (Hall : forallb (fun x => ltb x tolerance)
                   (zipWith point_distance (rows tab_fwf) (rows tab_extra)) = false).
  { destruct (forallb _ _) eqn:E; [|reflexivity].
    rewrite forallb_forall in E.
    rewrite (E (point_distance rf re)) in Hfar; [discriminate Hfar|].
    apply (nth_error_In _ i).
    apply zipWith_nth_error; assumption. }
  rewrite Hall. reflexivity.
Qed.

Lemma hstack4_shape (n1 n2 : nat) (a b : matrix) (c d : array) :
  rectangular n1 a -> rectangular n2 b ->
  List.length a = List.length b -> List.length a = List.length c ->
  List.length a = List.length d ->
  rectangular (n1 + n2 + 2) (hstack4 a b c d)
  /\ List.length (hstack4 a b c d) = List.length a.
Proof.
  unfold rectangular. intros Ha. revert b c d.
  induction Ha as [|ra a Hra Ha IH]; intros b c d Hb H1 H2 H3.
  - split; [constructor|reflexivity].
  - destruct b as [|rb b]; [discriminate H1|].
    destruct c as [|x c]; [discriminate H2|].
    destruct d as [|y d]; [discriminate H3|].
    inversion Hb as [|? ? Hrb Hb']; subst.
    simpl in H1, H2, H3.
    destruct (IH b c d Hb') as [Hrect Hlen]; try lia.
    cbn [hstack4]. split.
    + constructor; [|exact Hrect].
      rewrite !length_app. simpl. lia.
    + simpl. rewrite Hlen. reflexivity.
Qed.

(** X22. When every point is within the tolerance, the column names describe
    the tables and hold the three distance columns and the wave packet
    column, [merge_c2c_fwf] returns a table with one row per point whose
    rows all have as many items as the returned list of names. *)
Theorem merge_c2c_fwf_names_match_columns {V : Type} (tab_fwf : table)
    (names_fwf : list string) (vlrs : V) (tab_extra : table) (names_extra : list string) :
  well_formed tab_fwf -> well_formed tab_extra ->
  (3 <= width tab_fwf)%nat -> (3 <= width tab_extra)%nat ->
  List.length (rows tab_fwf) = List.length (rows tab_extra) ->
  List.length names_fwf = width tab_fwf -> List.length names_extra = width tab_extra ->
  forallb (fun x => ltb x tolerance)
          (zipWith point_distance (rows tab_fwf) (rows tab_extra)) = true ->
  In "c2c_absolute_distances_(z)" names_extra ->
  In "c2c_absolute_distances_(x)" names_extra ->
  In "c2c_absolute_distances_(y)" names_extra ->
  In "wave_packet_desc_index" names_fwf ->
  exists (tab_tot : table) (names_tot : list string),
    merge_c2c_fwf tab_fwf names_fwf vlrs tab_extra names_extra
    = Ok (tab_tot, names_tot, vlrs)
    /\ well_formed tab_tot
    /\ List.length names_tot = width tab_tot
    /\ List.length (rows tab_tot) = List.length (rows tab_extra).
Proof.
  intros Wf We Hf He Hlen Hnf Hne Hclose Hz Hx Hy Hw.
  destruct (index_In _ _ Hz) as (kz & Ekz & Lz).
  destruct (index_In _ _ Hx) as (kx & Ekx & Lx).
  destruct (index_In _ _ Hy) as (ky & Eky & Ly).
  destruct (index_In _ _ Hw) as (num & Enum & Lnum).
  unfold merge_c2c_fwf.
  rewrite (controle_spec tab_fwf tab_extra Hf He Hlen). cbn [bind].
  rewrite Hclose. cbn [bind].
  rewrite Ekz. cbn [bind]. rewrite (column_ok kz) by lia. cbn [bind].
  rewrite Ekx. cbn [bind]. rewrite (column_ok kx) by lia. cbn [bind].
  rewrite Eky. cbn [bind]. rewrite (column_ok ky) by lia. cbn [bind].
  rewrite (bcast_same_length add) by (rewrite !length_map, !length_get_col; reflexivity).
  cbn [bind]. rewrite Enum. cbn [bind].
  assert (Hra : rectangular (width tab_extra - 4) (map but_last_four (rows tab_extra))).
  { unfold well_formed, rectangular in *. rewrite Forall_forall in *.
    intros r Hr. apply in_map_iff in Hr. destruct Hr as (r0 & <- & Hr0).
    unfold but_last_four. rewrite length_firstn, (We r0 Hr0). lia. }
  assert (Hrb : rectangular (width tab_fwf - num) (map (skipn num) (rows tab_fwf))).
  { unfold well_formed, rectangular in *. rewrite Forall_forall in *.
    intros r Hr. apply in_map_iff in Hr. destruct Hr as (r0 & <- & Hr0).
    rewrite length_skipn, (Wf r0 Hr0). reflexivity. }
  destruct (hstack4_shape _ _ _ _
              (get_col kz (rows tab_extra))
              (map sqrt (zipWith add (map square (get_col kx (rows tab_extra)))
                                     (map square (get_col ky (rows tab_extra)))))
              Hra Hrb) as [Hrect Hrows].
  { rewrite !length_map. symmetry. exact Hlen. }
  { rewrite length_map, length_get_col. reflexivity. }
  { rewrite !length_map, length_zipWith by (rewrite !length_map, !length_get_col; reflexivity).
    rewrite length_map, length_get_col. reflexivity. }
  unfold hstack.
  replace (List.length (map but_last_four (rows tab_extra))
           =? List.length (map (skipn num) (rows tab_fwf)))%nat with true
    by (symmetry; apply Nat.eqb_eq; rewrite !length_map; symmetry; exact Hlen).
  replace (List.length (map but_last_four (rows tab_extra))
           =? List.length (get_col kz (rows tab_extra)))%nat with true
    by (symmetry; apply Nat.eqb_eq; rewrite length_map, length_get_col; reflexivity).
  replace (List.length (map but_last_four (rows tab_extra))
           =? List.length
                (map sqrt (zipWith add (map square (get_col kx (rows tab_extra)))
                                       (map square (get_col ky (rows tab_extra))))))%nat
    with true.
  2:{ symmetry. apply Nat.eqb_eq.
      rewrite !length_map, length_zipWith by (rewrite !length_map, !length_get_col; reflexivity).
      rewrite length_map, length_get_col. reflexivity. }
  cbn [andb bind].
  eexists; eexists. split; [reflexivity|]. split; [exact Hrect|]. split.
  - cbn [width]. rewrite !length_app. unfold but_last_four.
    rewrite length_firstn, length_skipn, Hne, Hnf. simpl. lia.
  - cbn [rows]. rewrite Hrows, length_map. reflexivity.
Qed.

End MergeTables.

(* ===================================================================== *)
(** ** The further properties on concrete inputs *)

Lemma searchingLines_indexes_every_tile_witness :
  let o := Tiling.Object "/d/" 50 ["tile_"; ".laz"]%string None in
  let w := Tiling.World Tiling.three_tiles [] [] in
  (forall n,
     In n (map basename (Tiling.sys_glob (Tiling.workspace o ++ "*.laz") (Tiling.fs w))) ->
     Tiling.sys_pt_src_id (Tiling.workspace o ++ n) (Tiling.fs w)
     = Ok (Examples.tile_ids n))
  /\ exists d : Tiling.dict,
       Tiling.searchingLines (o, w)
       = (Ok tt, (Tiling.Object "/d/" 50 ["tile_"; ".laz"]%string (Some d), w))
       /\ Tiling.dict_get 2 d = Ok ["A.laz"; "B.laz"]%string.
Proof.
  intros o w.
  assert (H : forall n,
            In n (map basename
                    (Tiling.sys_glob (Tiling.workspace o ++ "*.laz") (Tiling.fs w))) ->
            Tiling.sys_pt_src_id (Tiling.workspace o ++ n) (Tiling.fs w)
            = Ok (Examples.tile_ids n)).
  { intros n [<-|[<-|[<-|[]]]]; reflexivity. }
  split; [exact H|].
  destruct (searchingLines_indexes_every_tile Examples.tile_ids o w H)
    as (d & Hrun & _ & Hget).
  exists d. split; [exact Hrun|]. rewrite Hget. reflexivity.
Defined.

Lemma searchingLines_unreadable_tile_witness :
  let o := Examples.no_slash_object in
  let w := Tiling.World Examples.no_slash_files [] [] in
  (exists n,
      In n (map basename (Tiling.sys_glob (Tiling.workspace o ++ "*.laz") (Tiling.fs w)))
      /\ is_ok (Tiling.sys_pt_src_id (Tiling.workspace o ++ n) (Tiling.fs w)) = false)
  /\ exists e, Tiling.searchingLines (o, w) = (Raise e, (o, w)).
Proof.
  intros o w.
  assert (H : exists n,
            In n (map basename
                    (Tiling.sys_glob (Tiling.workspace o ++ "*.laz") (Tiling.fs w)))
            /\ is_ok (Tiling.sys_pt_src_id (Tiling.workspace o ++ n) (Tiling.fs w))
               = false).
  { exists "dA.laz"%string. split; [left; reflexivity|reflexivity]. }
  split; [exact H|].
  exact (searchingLines_unreadable_tile o w H).
Defined.

Lemma writingLines_one_merge_per_identifier_witness :
  let w := Tiling.World (FS := Tiling.flat) [] [] [] in
  (forall q f, is_ok (Tiling.sys_tool q f) = true)
  /\ exists w' : Tiling.world Tiling.flat,
       Tiling.writingLines false (Examples.one_line, w) = (Ok tt, (Examples.one_line, w'))
       /\ List.length (Tiling.commands w') = 1%nat.
Proof.
  intros w.
  assert (Htool : forall q (f : Tiling.flat), is_ok (Tiling.sys_tool q f) = true)
    by (intros q f; reflexivity).
  split; [exact Htool|].
  destruct (writingLines_one_merge_per_identifier Examples.one_line w
              [(7%N, ["fileX"; "fileY"]%string)] "tile_"%string ".laz"%string []
              Htool eq_refl eq_refl)
    as (m & w' & _ & _ & Hrun & Hcmd).
  - discriminate.
  - repeat constructor. simpl. tauto.
  - exists w'. split; [exact Hrun|]. rewrite Hcmd. reflexivity.
Defined.

Lemma writingLines_stops_at_tool_failure_witness :
  let w := Tiling.World (FS := Tiling.flat) [] [] [] in
  let cmd := Lines.merge_command "/d/" "tile_" ".laz" 1 (7%N, ["fileX"; "fileY"]%string) in
  Tiling.sys_tool (System := Examples.failing_system) cmd (Tiling.fs w)
  = Raise (ToolFailure cmd)
  /\ exists w' : Tiling.world Tiling.flat,
       Tiling.writingLines (sys := Examples.failing_system) true (Examples.one_line, w)
       = (Raise (ToolFailure cmd), (Examples.one_line, w'))
       /\ Tiling.commands w' = [cmd].
Proof.
  intros w cmd.
  split; [reflexivity|].
  destruct (writingLines_stops_at_tool_failure (sys := Examples.failing_system)
              true Examples.one_line w [] 7%N 7%N ["fileX"; "fileY"]%string
              "tile_"%string ".laz"%string [] (ToolFailure cmd)
              eq_refl eq_refl eq_refl eq_refl)
    as (w' & Hrun & Hcmd & _).
  exists w'. split; [exact Hrun|exact Hcmd].
Defined.

Lemma writingLines_template_without_placeholder_witness :
  let w := Tiling.World (FS := Tiling.flat) [] [] [] in
  Tiling.motif Examples.no_placeholder = ["tile.laz"%string]
  /\ exists w' : Tiling.world Tiling.flat,
       Tiling.writingLines false (Examples.no_placeholder, w)
       = (Raise (IndexError "list index out of range"), (Examples.no_placeholder, w'))
       /\ Tiling.commands w' = [].
Proof.
  intros w. split; [reflexivity|].
  destruct (writingLines_template_without_placeholder false Examples.no_placeholder w
              [(7%N, ["fileX"; "fileY"]%string)] "tile.laz"%string eq_refl eq_refl)
    as (w' & Hrun & Hcmd & _).
  - discriminate.
  - exists w'. split; [exact Hrun|exact Hcmd].
Defined.

Lemma basename_of_path_witness :
  Lines.no_slash "A.laz" /\ basename ("/d/tiles" ++ "/" ++ "A.laz") = "A.laz"%string.
Proof.
  assert (H : Lines.no_slash "A.laz").
  { unfold Lines.no_slash. simpl. intros [E|[E|[E|[E|[E|[]]]]]]; discriminate E. }
  split; [exact H|].
  exact (proj1 (basename_of_path "/d/tiles" "A.laz" H)).
Defined.

Lemma output_name_small_identifier_witness :
  (7 < 100)%N /\ (8 < 100)%N
  /\ Tiling.output_name ["tile_"; ".laz"]%string 7 3 = Ok "tile_00.laz"%string
  /\ Tiling.output_name ["tile_"; ".laz"]%string 7 3
     = Tiling.output_name ["tile_"; ".laz"]%string 8 3.
Proof.
  assert (H7 : (7 < 100)%N) by reflexivity.
  assert (H8 : (8 < 100)%N) by reflexivity.
  split; [exact H7|]. split; [exact H8|].
  destruct (output_name_small_identifier "tile_" ".laz" [] 3 7 8 H7 H8) as [Hname Hsame].
  split; [exact Hname|]. apply Hsame. reflexivity.
Defined.

Lemma init_without_buffer_witness :
  let w := Tiling.World Tiling.three_tiles [] [] in
  let names := map basename (Tiling.sys_glob "/d/*.laz" (Tiling.fs w)) in
  (forall n, In n names ->
     Tiling.sys_pt_src_id ("/d/" ++ n) (Tiling.fs w) = Ok (Examples.tile_ids n))
  /\ exists (o : Tiling.object) (w' : Tiling.world Tiling.flat),
       Tiling.init "/d/" "tile_XX.laz" false 50 w = (Ok o, w')
       /\ List.length (Tiling.commands w') = 3%nat.
Proof.
  intros w names.
  assert (H : forall n, In n names ->
            Tiling.sys_pt_src_id ("/d/" ++ n) (Tiling.fs w) = Ok (Examples.tile_ids n)).
  { intros n [<-|[<-|[<-|[]]]]; reflexivity. }
  split; [exact H|].
  destruct (init_without_buffer Examples.tile_ids "/d/" "tile_XX.laz" 50 w
              "tile_" ".laz" [] H)
    as (m & w' & Hrun & _ & Hcmd).
  - intros q f. reflexivity.
  - reflexivity.
  - discriminate.
  - eexists; exists w'. split; [exact Hrun|]. rewrite Hcmd. reflexivity.
Defined.

Lemma writeKML_distinct_names_witness :
  NoDup ["a"; "b"]%string
  /\ Kml.writeKML "out.kml" ["a"; "b"]%string ["d"; "e"]%string [(1, 2); (3, 4)]%Z
       (Kml.World [] [])
     = (Ok true,
        Kml.World [("out.kml"%string,
                    [Kml.Placemark "a" "d" [(1, 2)%Z]; Kml.Placemark "b" "e" [(3, 4)%Z]])]
                  []).
Proof.
  assert (H : NoDup ["a"; "b"]%string).
  { constructor; [intros [E|[]]; discriminate E|].
    constructor; [intros []|constructor]. }
  split; [exact H|].
  exact (writeKML_distinct_names (Z * Z) "out.kml" ["a"; "b"]%string ["d"; "e"]%string
           [(1, 2); (3, 4)]%Z (Kml.World [] []) H eq_refl eq_refl).
Defined.

Lemma writeKML_first_occurrence_witness :
  List.length ["a"; "a"]%string = List.length ["d"; "e"]%string
  /\ exists doc,
       Kml.writeKML "out.kml" ["a"; "a"]%string ["d"; "e"]%string [(1, 2); (3, 4)]%Z
         (Kml.World [] [])
       = (Ok true, Kml.World [("out.kml"%string, doc)] [])
       /\ Forall2 (KmlSpec.first_occurrence ["a"; "a"]%string ["d"; "e"]%string
                     [(1, 2); (3, 4)]%Z)
                  ["a"; "a"]%string doc.
Proof.
  split; [reflexivity|].
  exact (writeKML_first_occurrence (Z * Z) "out.kml" ["a"; "a"]%string ["d"; "e"]%string
           [(1, 2); (3, 4)]%Z (Kml.World [] []) eq_refl eq_refl).
Defined.

Lemma replace_nan_cleans_witness :
  Features.rectangular 2 Cleaning.holes
  /\ Cleaning.replace_nan 2 Cleaning.holes (Np.Fin 0)
     = Ok [ [Np.Fin 1; Np.Fin 0]; [Np.Fin 0; Np.Fin 4] ].
Proof.
  assert (H : Features.rectangular 2 Cleaning.holes) by (repeat constructor).
  split; [exact H|].
  assert (Hn : 2%nat <> 0%nat) by discriminate.
  exact (proj1 (proj1 (replace_nan_cleans 2 Cleaning.holes (Np.Fin 0) H) Hn)).
Defined.

Lemma sample_columns :
  forall j, (j < 3)%nat ->
    (forall x, In x (Features.get_col j Features.sample) -> x = Np.NaN)
    \/ (exists r, In (Np.Fin r) (Features.get_col j Features.sample)).
Proof.
  intros [|[|[|j]]] Hj.
  - right. exists 5%R. left. reflexivity.
  - left. intros x [H|[H|[H|H]]]; solve [symmetry; exact H | contradiction H].
  - right. exists 1%R. left. reflexivity.
  - exfalso. lia.
Qed.

Lemma featureNorm_result_nan_free_witness :
  Features.sample <> [] /\ Features.rectangular 3 Features.sample
  /\ exists result : Features.matrix,
       Features.featureNorm Features.sample = Ok result /\ Cleaning.nan_free result.
Proof.
  assert (Hne : Features.sample <> []) by discriminate.
  assert (Hrect : Features.rectangular 3 Features.sample) by (repeat constructor).
  split; [exact Hne|]. split; [exact Hrect|].
  destruct (featureNorm_result_nan_free Features.sample 3 Hne Hrect sample_columns)
    as (result & Hrun & _ & Hfree).
  exists result. split; [exact Hrun|exact Hfree].
Defined.

Lemma featureNorm_range_witness :
  Features.sample <> [] /\ Features.rectangular 3 Features.sample
  /\ Cleaning.finite_or_nan Features.sample
  /\ exists result : Features.matrix,
       Features.featureNorm Features.sample = Ok result
       /\ Forall (Forall Cleaning.normalised) result.
Proof.
  assert (Hne : Features.sample <> []) by discriminate.
  assert (Hrect : Features.rectangular 3 Features.sample) by (repeat constructor).
  assert (Hfin : Cleaning.finite_or_nan Features.sample).
  { repeat constructor; solve [left; reflexivity | right; reflexivity]. }
  split; [exact Hne|]. split; [exact Hrect|]. split; [exact Hfin|].
  destruct (featureNorm_range Features.sample 3 Hne Hrect Hfin)
    as (result & Hrun & _ & Hrange).
  exists result. split; [exact Hrun|exact Hrange].
Defined.

Lemma featureNorm_column_without_finite_value_witness :
  Features.rectangular 1 Examples.infinite_column
  /\ Features.featureNorm Examples.infinite_column = Raise Cleaning.min_error.
Proof.
  assert (Hrect : Features.rectangular 1 Examples.infinite_column) by (repeat constructor).
  split; [exact Hrect|].
  apply (featureNorm_column_without_finite_value Examples.infinite_column 1 0).
  - discriminate.
  - exact Hrect.
  - lia.
  - intros r [H|[H|[]]]; discriminate H.
  - exists Np.PInf. split; [left; reflexivity|discriminate].
Defined.

Section ConcreteNumbers.

Local Open Scope R_scope.

Lemma tilted_off_axis :
  exists x y z : R,
    Refraction.tilted = Np.V3 (Np.Fin x) (Np.Fin y) (Np.Fin z)
    /\ R_sqrt.sqrt (x * x + y * y) + y <> 0.
Proof. exists 0, 1, 1. split; [reflexivity|apply tilted_denominator]. Qed.

Lemma sqrt_unit_y : R_sqrt.sqrt (0 * 0 + 1 * 1) = 1.
Proof. replace (0 * 0 + 1 * 1) with 1 by ring. apply sqrt_1. Qed.

Lemma sqrt_unit_y3 : R_sqrt.sqrt (0 * 0 + 1 * 1 + 0 * 0) = 1.
Proof. replace (0 * 0 + 1 * 1 + 0 * 0) with 1 by ring. apply sqrt_1. Qed.

Lemma horizontal_beyond_critical :
  exists x y z : R,
    Examples.horizontal = Np.V3 (Np.Fin x) (Np.Fin y) (Np.Fin z)
    /\ 1 / 2 * R_sqrt.sqrt (x * x + y * y + z * z) < R_sqrt.sqrt (x * x + y * y).
Proof.
  exists 0, 1, 0. split; [reflexivity|].
  rewrite sqrt_unit_y, sqrt_unit_y3. lra.
Qed.

Lemma distance_same :
  Features.ltb (Merge.point_distance [Np.Fin 0; Np.Fin 0; Np.Fin 0; Np.Fin 12]
                  [Np.Fin 0; Np.Fin 0; Np.Fin 0; Np.Fin 5; Np.Fin 3; Np.Fin 4; Np.Fin 0])
               Merge.tolerance = true.
Proof.
  unfold Merge.point_distance, Merge.square, Np.sub. cbn [nth Np.neg Np.add Np.mul].
  rewrite sqrt_fin by nra. unfold Merge.tolerance. cbn [Features.ltb].
  match goal with
  | |- context [R_sqrt.sqrt ?e] => replace e with 0 by ring
  end.
  rewrite sqrt_0. destruct (Rlt_dec 0 (3 / 1000)); [reflexivity|lra].
Qed.

Lemma distance_shifted :
  Features.ltb (Merge.point_distance [Np.Fin 0; Np.Fin 0; Np.Fin 0; Np.Fin 12]
                  [Np.Fin 1; Np.Fin 0; Np.Fin 0; Np.Fin 5; Np.Fin 3; Np.Fin 4; Np.Fin 0])
               Merge.tolerance = false.
Proof.
  unfold Merge.point_distance, Merge.square, Np.sub. cbn [nth Np.neg Np.add Np.mul].
  rewrite sqrt_fin by nra. unfold Merge.tolerance. cbn [Features.ltb].
  match goal with
  | |- context [R_sqrt.sqrt ?e] => replace e with 1 by ring
  end.
  rewrite sqrt_1. destruct (Rlt_dec 1 (3 / 1000)); [lra|reflexivity].
Qed.

End ConcreteNumbers.

Lemma correction_vect_magnitude_witness :
  (1 <= 1.333)%R
  /\ exists vectTrue : list Np.vec3,
       Refraction.correction_vect [Refraction.tilted] (Np.Fin 1.333) = Ok vectTrue
       /\ map Np.norm3 vectTrue
          = [Np.div (Np.norm3 Refraction.tilted) (Np.Fin 1.333)].
Proof.
  assert (Hn : (1 <= 1.333)%R) by lra.
  split; [exact Hn|].
  apply (correction_vect_magnitude [Refraction.tilted] 1.333%R Hn).
  constructor; [exact tilted_off_axis|constructor].
Defined.

Lemma unphysical_input_gives_nan_witness :
  let rows := [Refraction.Shot Refraction.origin (Np.Fin 1) Examples.horizontal] in
  rows <> [] /\ (0 < 1 / 2)%R
  /\ Refraction.correction_vect [Examples.horizontal] (Np.Fin (1 / 2))
     = Ok [Np.V3 Np.NaN Np.NaN Np.NaN]
  /\ Refraction.correction3D [Refraction.origin] [Np.Fin 1] [] [Examples.horizontal]
       (Np.Fin (1 / 2))
     = Ok ([Np.V3 Np.NaN Np.NaN Np.NaN], [Np.NaN]).
Proof.
  intros rows.
  assert (Hne : rows <> []) by discriminate.
  assert (Hn : (0 < 1 / 2)%R) by lra.
  split; [exact Hne|]. split; [exact Hn|].
  apply (unphysical_input_gives_nan rows (1 / 2)%R Hne Hn).
  constructor; [exact horizontal_beyond_critical|constructor].
Defined.

Lemma correction3D_depth_bound_witness :
  let rows := [Refraction.Shot Refraction.origin (Np.Fin 1) Refraction.tilted] in
  rows <> [] /\ (1 <= 1.333)%R
  /\ exists (coords : list Np.vec3) (depthTrue : Np.array),
       Refraction.correction3D [Refraction.origin] [Np.Fin 1] [] [Refraction.tilted]
         (Np.Fin 1.333)
       = Ok (coords, depthTrue)
       /\ Forall2 (fun r t => exists d td : R,
                     Refraction.s_depth r = Np.Fin d /\ t = Np.Fin td
                     /\ (0 <= td <= d / 1.333)%R)
                  rows depthTrue.
Proof.
  intros rows.
  assert (Hne : rows <> []) by discriminate.
  assert (Hn : (1 <= 1.333)%R) by lra.
  split; [exact Hne|]. split; [exact Hn|].
  apply (correction3D_depth_bound rows 1.333%R Hne Hn).
  constructor; [|constructor].
  split; [exact tilted_upward|].
  exists 1%R. split; [reflexivity|lra].
Defined.

Lemma correction3D_single_origin_witness :
  [Refraction.origin; Refraction.tilted] <> []
  /\ Refraction.correction3D [Refraction.origin; Refraction.tilted]
       [Np.Fin 1; Np.Fin 2] [Refraction.vertical] [] (Np.Fin 1.333)
     = Refraction.correction3D [Refraction.origin; Refraction.tilted]
         [Np.Fin 1; Np.Fin 2] [Refraction.vertical; Refraction.vertical] [] (Np.Fin 1.333).
Proof.
  assert (Hne : [Refraction.origin; Refraction.tilted] <> []) by discriminate.
  split; [exact Hne|].
  exact (correction3D_single_origin [Refraction.origin; Refraction.tilted]
           [Np.Fin 1; Np.Fin 2] Refraction.vertical (Np.Fin 1.333) Hne).
Defined.

Lemma correction3D_depth_shape_error_witness :
  let rows := [Refraction.Shot Refraction.origin (Np.Fin 1) Refraction.tilted;
               Refraction.Shot Refraction.origin (Np.Fin 1) Refraction.tilted] in
  (2 <= List.length rows)%nat
  /\ Refraction.correction3D [Refraction.origin; Refraction.origin]
       [Np.Fin 1; Np.Fin 2; Np.Fin 3] [] [Refraction.tilted; Refraction.tilted]
       (Np.Fin 1.333)
     = Raise Np.broadcast_error.
Proof.
  intros rows.
  assert (H2 : (2 <= List.length rows)%nat) by (simpl; lia).
  split; [exact H2|].
  apply (correction3D_depth_shape_error rows [Np.Fin 1; Np.Fin 2; Np.Fin 3]
           (Np.Fin 1.333) H2); simpl; lia.
Defined.

Lemma merge_c2c_fwf_mismatch_witness :
  Features.ltb (Merge.point_distance [Np.Fin 0; Np.Fin 0; Np.Fin 0; Np.Fin 12]
                  [Np.Fin 1; Np.Fin 0; Np.Fin 0; Np.Fin 5; Np.Fin 3; Np.Fin 4; Np.Fin 0])
               Merge.tolerance = false
  /\ Merge.merge_c2c_fwf Examples.fwf_table Examples.fwf_names tt
       Examples.shifted_table Examples.extra_names
     = Raise Merge.mismatch_error.
Proof.
  split; [exact distance_shifted|].
  apply (merge_c2c_fwf_mismatch Examples.fwf_table Examples.fwf_names tt
           Examples.shifted_table Examples.extra_names 0
           [Np.Fin 0; Np.Fin 0; Np.Fin 0; Np.Fin 12]
           [Np.Fin 1; Np.Fin 0; Np.Fin 0; Np.Fin 5; Np.Fin 3; Np.Fin 4; Np.Fin 0]).
  - simpl; lia.
  - simpl; lia.
  - reflexivity.
  - reflexivity.
  - reflexivity.
  - exact distance_shifted.
Defined.

Lemma merge_c2c_fwf_names_match_columns_witness :
  Merge.well_formed Examples.fwf_table /\ Merge.well_formed Examples.extra_table
  /\ exists (tab_tot : Merge.table) (names_tot : list string),
       Merge.merge_c2c_fwf Examples.fwf_table Examples.fwf_names tt
         Examples.extra_table Examples.extra_names
       = Ok (tab_tot, names_tot, tt)
       /\ List.length names_tot = Merge.width tab_tot.
Proof.
  assert (Wf : Merge.well_formed Examples.fwf_table) by (repeat constructor).
  assert (We : Merge.well_formed Examples.extra_table) by (repeat constructor).
  split; [exact Wf|]. split; [exact We|].
  destruct (merge_c2c_fwf_names_match_columns Examples.fwf_table Examples.fwf_names tt
              Examples.extra_table Examples.extra_names Wf We)
    as (tab_tot & names_tot & Hrun & _ & Hnames & _).
  - simpl; lia.
  - simpl; lia.
  - reflexivity.
  - reflexivity.
  - reflexivity.
  - cbn [Merge.rows Examples.fwf_table Examples.extra_table Np.zipWith forallb].
    rewrite distance_same. reflexivity.
  - simpl. tauto.
  - simpl. tauto.
  - simpl. tauto.
  - simpl. tauto.
  - exists tab_tot, names_tot. split; [exact Hrun|exact Hnames].
Defined.
